(** * MotionCam image pipeline: a shallow embedding of [ImageProcessor.cpp]

    This development embeds the burst-fusion pipeline of libMotionCam
    ([source/ImageProcessor.cpp], with the DNG writer of [source/Util.cpp])
    and proves the properties its specification states about exposure
    estimation, denoise-weight selection, temporal fusion, image
    registration, HDR preparation and the error paths of [process].

    Conventions of the embedding.

    - A C++ [float] or [double] value is the rational ([Q]) it stands for.
      Where rounding decides an integer result or a comparison (the pixels
      stored for the wavelet stage, the choice of the fusion kernel, the
      progress percentages, the degrees, minutes and seconds of the EXIF
      coordinates, the height of the thumbnail) the arithmetic is IEEE 754
      with rounding to nearest, NaN and the infinities included (module
      [IEEE]); elsewhere it is taken without rounding.
    - Integer types are [Z]; container indices are [nat].
    - The math library, OpenCV, the DNG SDK, the camera-profile code and the
      generated Halide kernels are not part of [ImageProcessor.cpp]; they
      enter through the interface classes [Libm], [Config] and [Kernels], so
      every theorem holds for all of their possible behaviours.
    - A C++ call that may throw returns an [Outcome]; a function with
      observable side effects (progress callbacks, files written) runs in
      the trace monad [M].

    The file has three parts: the embedding (definitions only), the lemmas
    and theorems about its specification, then further properties of the
    code. *)

From Stdlib Require Import ZArith QArith Qround Qabs Qminmax Qpower.
From Stdlib Require Import List String Ascii Bool Lia Lqa.
From Stdlib Require DecimalString.
From Stdlib Require Import Sorted.
Import ListNotations.

Open Scope Q_scope.

(** * Part I: the embedding *)

(** ** Numbers and containers *)

Module Num.

(** [a < b] on floating-point values, as a boolean. *)
Definition ltb (x y : Q) : bool :=
  match x ?= y with
  | Lt => true
  | _ => false
  end.

(** [std::min(a, b)] is [(b < a) ? b : a]. *)
Definition std_min (a b : Q) : Q := if ltb b a then b else a.

(** [std::max(a, b)] is [(a < b) ? b : a]. *)
Definition std_max (a b : Q) : Q := if ltb a b then b else a.

(** Conversion of a floating-point value to an integer type discards the
    fractional part (truncation toward zero). *)
Definition trunc (x : Q) : Z := if ltb x 0 then Qceiling x else Qfloor x.

(** [static_cast<uint16_t>(x)]: the truncated value when it fits in 16 bits
    (C++ leaves the other case undefined; here it wraps). *)
Definition to_uint16 (x : Q) : Z := (trunc x mod 65536)%Z.

(** Conversion of a [long] to [int]: modulo [2^32]. *)
Definition int_of_long (z : Z) : Z := ((z + 2 ^ 31) mod 2 ^ 32 - 2 ^ 31)%Z.

(** [ceil] of the math library, exact on rationals. *)
Definition ceil (x : Q) : Q := inject_Z (Qceiling x).

(** [std::vector::operator[]] is only defined inside the vector. *)
Definition at_index {A : Type} (v : list A) (i : nat) : option A :=
  nth_error v i.

Definition is_empty {A : Type} (v : list A) : bool :=
  match v with
  | [] => true
  | _ :: _ => false
  end.

(** [std::accumulate(v.begin(), v.end(), 0.0f)]. *)
Definition accumulate (v : list Q) : Q := fold_left Qplus v 0.

(** The indices [lo, lo+1, ..., hi-1] of a [for] loop over [int]. *)
Definition range (lo hi : Z) : list Z :=
  map (fun k => (lo + Z.of_nat k)%Z) (seq 0 (Z.to_nat (hi - lo))).

(** The value of a quantity said to be "clamped to [[lo, hi]]". *)
Definition clamp (lo hi x : Q) : Q := Qmax lo (Qmin x hi).

End Num.

(** ** Floating-point arithmetic

    IEEE 754 arithmetic with rounding to nearest, ties to even, for the
    computations of the pipeline whose rounding decides an integer result
    or a comparison: the pixels stored for the wavelet stage, the choice of
    the fusion kernel, the progress percentages, the degrees, minutes and
    seconds of the EXIF coordinates and the height of the thumbnail.  A finite datum is the rational it
    stands for, and a rational in a [float] or [double] slot of the capture
    data is the value of that slot. *)

Module IEEE.

(** A binary floating-point format: the precision in bits and the exponent
    bound (finite values are below [2^emax] in magnitude). *)
Record format : Type := { prec : Z; emax : Z }.

Definition binary32 : format := {| prec := 24; emax := 128 |}.
Definition binary64 : format := {| prec := 53; emax := 1024 |}.

(** A floating-point datum.  Zero carries no sign. *)
Inductive float : Type :=
| Finite (q : Q)
| PosInf
| NegInf
| NaN.

(** [floor(log2 |x|)] for [x <> 0]. *)
Definition ilog2 (x : Q) : Z :=
  let e := (Z.log2 (Z.abs (Qnum x)) - Z.log2 (Zpos (Qden x)))%Z in
  if Qle_bool (2 ^ e) (Qabs x) then e else (e - 1)%Z.

(** The nearest integer, ties to the even one. *)
Definition rne (x : Q) : Z :=
  let f := Qfloor x in
  match Qcompare (x - inject_Z f) (1 # 2) with
  | Lt => f
  | Gt => (f + 1)%Z
  | Eq => if Z.even f then f else (f + 1)%Z
  end.

(** The exponent of the last place of the values near [x]: subnormal values
    share the least one. *)
Definition ulp_exponent (f : format) (x : Q) : Z :=
  Z.max (ilog2 x - (prec f - 1)) (3 - emax f - prec f).

(** Rounding to nearest, ties to even: the result of every arithmetic
    operation. *)
Definition round (f : format) (x : Q) : float :=
  if Qeq_bool x 0 then Finite 0
  else
    let e := ulp_exponent f x in
    let y := inject_Z (rne (x / 2 ^ e)) * 2 ^ e in
    if Qle_bool (2 ^ emax f) (Qabs y) then
      if Num.ltb x 0 then NegInf else PosInf
    else Finite (Qred y).

Definition is_negative (a : float) : bool :=
  match a with
  | Finite x => Num.ltb x 0
  | NegInf => true
  | _ => false
  end.

Definition infinity (negative : bool) : float :=
  if negative then NegInf else PosInf.

Definition opp (a : float) : float :=
  match a with
  | Finite x => Finite (- x)
  | PosInf => NegInf
  | NegInf => PosInf
  | NaN => NaN
  end.

Definition add (f : format) (a b : float) : float :=
  match a, b with
  | NaN, _ | _, NaN => NaN
  | Finite x, Finite y => round f (x + y)
  | PosInf, NegInf | NegInf, PosInf => NaN
  | PosInf, _ | _, PosInf => PosInf
  | NegInf, _ | _, NegInf => NegInf
  end.

Definition sub (f : format) (a b : float) : float := add f a (opp b).

Definition mul (f : format) (a b : float) : float :=
  match a, b with
  | NaN, _ | _, NaN => NaN
  | Finite x, Finite y => round f (x * y)
  | Finite x, i | i, Finite x =>
      if Qeq_bool x 0 then NaN
      else infinity (xorb (Num.ltb x 0) (is_negative i))
  | i, j => infinity (xorb (is_negative i) (is_negative j))
  end.

Definition div (f : format) (a b : float) : float :=
  match a, b with
  | NaN, _ | _, NaN => NaN
  | Finite x, Finite y =>
      if Qeq_bool y 0 then
        if Qeq_bool x 0 then NaN else infinity (Num.ltb x 0)
      else round f (x / y)
  | Finite _, _ => Finite 0
  | i, Finite y => infinity (xorb (is_negative i) (Num.ltb y 0))
  | _, _ => NaN
  end.

(** [a < b]: false when either side is a NaN. *)
Definition ltb (a b : float) : bool :=
  match a, b with
  | NaN, _ | _, NaN => false
  | Finite x, Finite y => Num.ltb x y
  | NegInf, NegInf | PosInf, _ => false
  | NegInf, _ => true
  | Finite _, PosInf => true
  | Finite _, NegInf => false
  end.

(** [std::min(a, b)] is [(b < a) ? b : a]; [std::max(a, b)] is
    [(a < b) ? b : a]. *)
Definition std_min (a b : float) : float := if ltb b a then b else a.
Definition std_max (a b : float) : float := if ltb a b then b else a.

(** Conversion of an integer and of a decimal literal. *)
Definition of_Z (f : format) (n : Z) : float := round f (inject_Z n).
Definition of_Q (f : format) (q : Q) : float := round f q.

(** [static_cast<uint16_t>(x)]: the truncated value (C++ leaves the
    conversion undefined for a NaN or an infinity; here it gives 0). *)
Definition to_uint16 (a : float) : Z :=
  match a with
  | Finite x => Num.to_uint16 x
  | _ => 0%Z
  end.

(** [(int) x] where the result is only printed (C++ leaves the conversion
    undefined for a NaN, an infinity and a value outside the range of
    [int]; here a NaN or an infinity gives 0). *)
Definition trunc (a : float) : Z :=
  match a with
  | Finite x => Num.trunc x
  | _ => 0%Z
  end.

(** [static_cast<int>(x)]: the fraction discarded; undefined for a NaN, an
    infinity and a value outside the range of [int]. *)
Definition to_int (a : float) : option Z :=
  match a with
  | Finite x =>
      let z := Num.trunc x in
      if ((- 2 ^ 31 <=? z) && (z <? 2 ^ 31))%Z then Some z else None
  | _ => None
  end.

(** [std::lround]: the nearest integer, halfway cases away from zero.  The
    result is unspecified for a NaN, an infinity and a value outside the
    range of [long]: no result here. *)
Definition lround (a : float) : option Z :=
  match a with
  | Finite x =>
      let z := if Num.ltb x 0 then (- Qfloor (- x + (1 # 2)))%Z
               else Qfloor (x + (1 # 2)) in
      if ((- 2 ^ 63 <=? z) && (z <? 2 ^ 63))%Z then Some z else None
  | _ => None
  end.

End IEEE.

(** The error of one rounding in single precision is at most [u32] of the
    magnitude plus [eta32] (half the least subnormal number). *)
Definition u32 : Q := 1 # 16777216.
Definition eta32 : Q := 2 ^ (-150).

(** [std::string::find_last_of(c)]: the last position of [c], if any. *)
Fixpoint find_last_of (s : string) (c : ascii) : option nat :=
  match s with
  | EmptyString => None
  | String a rest =>
      match find_last_of rest c with
      | Some i => Some (S i)
      | None => if Ascii.eqb a c then Some 0%nat else None
      end
  end.

(** ** Exceptions, outcomes and the trace monad *)

(** The exception classes that occur in the pipeline: [InvalidState] of
    motioncam, a [std::runtime_error] (or a class derived from it) thrown by
    a library, [cv::Exception], and [foreign_exception] for a class that is
    neither [cv::Exception] nor derived from [std::runtime_error]. *)
Inductive Exn : Type :=
| InvalidState (what : string)
| std_runtime_error
| cv_Exception
| foreign_exception.

(** How a C++ call ends: it returns, it throws, or its behaviour is undefined
    (a null pointer dereferenced, a vector read outside its bounds). *)
Inductive Outcome (A : Type) : Type :=
| Returned (a : A)
| Raised (e : Exn)
| Undefined.

Arguments Returned {A} a.
Arguments Raised {A} e.
Arguments Undefined {A}.

(** A two-dimensional buffer ([cv::Mat] or a planar Halide buffer), read by
    row and column. *)
Record Image (T : Type) : Type := mkImage {
  rows : Z;
  cols : Z;
  pixel : Z -> Z -> T
}.

Arguments mkImage {T} rows cols pixel.
Arguments rows {T} i.
Arguments cols {T} i.
Arguments pixel {T} i row col.

(** A three-dimensional Halide buffer [b(x, y, c)]. *)
Record Buffer (T : Type) : Type := mkBuffer {
  buf_width : Z;
  buf_height : Z;
  buf_at : Z -> Z -> Z -> T
}.

Arguments mkBuffer {T} buf_width buf_height buf_at.
Arguments buf_width {T} b.
Arguments buf_height {T} b.
Arguments buf_at {T} b x y c.

(** Modelled from the spec: the progress callback interface
    [ImageProcessorProgress] ("onProgressUpdate(percent), onPreviewSaved(path),
    onError(message), onCompleted()"), whose header is not part of the
    sources.  Each call is recorded as an event; so is each file the pipeline
    writes, with the image written where the pipeline computes it. *)
Inductive Event : Type :=
| onProgressUpdate (percent : Z)
| onPreviewSaved (path : string)
| onError (message : string)
| onCompleted
| imwrite (path : string) (image : Image Z)
| dng_written (path : string)
| exif_written (path : string).

Definition Trace : Type := list Event.

(** A computation that emits events and ends in an outcome. *)
Definition M (A : Type) : Type := (Trace * Outcome A)%type.

Definition ret {A : Type} (a : A) : M A := ([], Returned a).

Definition bind {A B : Type} (m : M A) (k : A -> M B) : M B :=
  match m with
  | (t, Returned a) => let (t', r) := k a in (t ++ t', r)
  | (t, Raised e) => (t, Raised e)
  | (t, Undefined) => (t, Undefined)
  end.

Definition emit (e : Event) : M unit := ([e], Returned tt).

Definition throw {A : Type} (e : Exn) : M A := ([], Raised e).

(** A call without observable effects. *)
Definition lift {A : Type} (o : Outcome A) : M A := ([], o).

(** [try { body } catch (E& e) { handler }], where [catches] says which
    exceptions are of class [E]. *)
Definition try_catch {A : Type} (body : M A) (catches : Exn -> bool)
  (handler : Exn -> M A) : M A :=
  match body with
  | (t, Raised e) =>
      if catches e then let (t', r) := handler e in (t ++ t', r)
      else (t, Raised e)
  | done => done
  end.

(** A file a library is asked to write: when it reports success the file is
    there, and the event [written] recorded; when it reports failure
    nothing is recorded; an exception of the library propagates. *)
Definition file_written (result : Outcome bool) (written : Event) : M unit :=
  match result with
  | Returned true => emit written
  | Returned false => ret tt
  | Raised e => throw e
  | Undefined => ([], Undefined)
  end.

(** Dereferencing a pointer or indexing a vector: undefined when absent. *)
Definition deref {A : Type} (o : option A) : M A :=
  match o with
  | Some a => ret a
  | None => ([], Undefined)
  end.

Declare Scope monad_scope.
Delimit Scope monad_scope with monad.

Notation "x <- m ;; k" := (bind m (fun x => k))
  (at level 61, m at next level, right associativity) : monad_scope.
Notation "' pat <- m ;; k" := (bind m (fun x => let 'pat := x in k))
  (at level 61, pat pattern, m at next level, right associativity) : monad_scope.
Notation "m ;; k" := (bind m (fun _ => k))
  (at level 61, right associativity) : monad_scope.

Open Scope monad_scope.

(** The number of [onError] calls in a trace. *)
Definition error_reports (t : Trace) : nat :=
  List.length
    (filter (fun e => match e with onError _ => true | _ => false end) t).

(** Whether an event writes a file. *)
Definition is_output (e : Event) : bool :=
  match e with
  | imwrite _ _ | dng_written _ | exif_written _ => true
  | _ => false
  end.

(** ** Capture data *)

Definition Vec3f : Type := (Q * Q * Q)%type.

(** A 3x3 (or empty) [cv::Mat] of floats, by rows. *)
Definition Mat : Type := list (list Q).

Inductive ScreenOrientation : Type :=
| PORTRAIT
| REVERSE_PORTRAIT
| LANDSCAPE
| REVERSE_LANDSCAPE.

Record RawImageMetadata : Type := {
  exposureTime : Z;
  iso : Z;
  asShot : Vec3f;
  screenOrientation : ScreenOrientation
}.

Record RawCameraMetadata : Type := {
  apertures : list Q;
  getBlackLevel : RawImageMetadata -> list Q;
  getWhiteLevel : RawImageMetadata -> Q
}.

Record RawImageBuffer : Type := {
  metadata : RawImageMetadata;
  width : Z;
  height : Z;
  data : list Z
}.

Record PostProcessSettings : Type := {
  shadows : Q;
  blacks : Q;
  whitePoint : Q;
  temperature : Q;
  tint : Q;
  spatialDenoiseLevel : Z;
  dng : bool;
  jpegQuality : Z;
  captureMode : string
}.

(** The output of [loadRawImage]. *)
Record RawData : Type := {
  previewBuffer : Image Z;
  rawBuffer : Buffer Z;
  rawMetadata : RawImageMetadata
}.

Record HdrMetadata : Type := {
  exposureScale : Q;
  gain : Q;
  error : Q;
  hdrInput : Buffer Z;
  hdrMask : Image Z
}.

(** Modelled from the spec: the archival raw container [RawContainer] ("an
    append-only container keyed by frame name ... exposes enumerate-frames,
    load-frame-by-name, remove-frame, get/set post-process settings"), whose
    code is not part of the sources.  Frames are kept in capture order; a
    frame whose payload cannot be decoded has no pixels, and [loadFrame]
    returns a null pointer for it. *)
Record StoredFrame : Type := {
  storedMetadata : RawImageMetadata;
  storedWidth : Z;
  storedHeight : Z;
  storedPixels : option (list Z)
}.

Record RawContainer : Type := {
  getCameraMetadata : RawCameraMetadata;
  getPostProcessSettings : PostProcessSettings;
  isHdr : bool;
  storedFrames : list (string * StoredFrame)
}.

Definition getFrames (c : RawContainer) : list string :=
  map fst (storedFrames c).

Definition findFrame (c : RawContainer) (name : string) : option StoredFrame :=
  option_map snd (find (fun f => String.eqb (fst f) name) (storedFrames c)).

(** [getFrame]: the frame's description, pixels not loaded. *)
Definition getFrame (c : RawContainer) (name : string) : option RawImageBuffer :=
  option_map
    (fun f => {| metadata := storedMetadata f; width := storedWidth f;
                 height := storedHeight f; data := [] |})
    (findFrame c name).

(** [loadFrame]: the frame with its pixels, or null. *)
Definition loadFrame (c : RawContainer) (name : string) : option RawImageBuffer :=
  match findFrame c name with
  | Some f =>
      option_map
        (fun px => {| metadata := storedMetadata f; width := storedWidth f;
                      height := storedHeight f; data := px |})
        (storedPixels f)
  | None => None
  end.

Definition removeFrame (c : RawContainer) (name : string) : RawContainer :=
  {| getCameraMetadata := getCameraMetadata c;
     getPostProcessSettings := getPostProcessSettings c;
     isHdr := isHdr c;
     storedFrames :=
       filter (fun f => negb (String.eqb (fst f) name)) (storedFrames c) |}.

(** ** External interfaces *)

(** The math library. *)
Class Libm : Type := {
  log2 : Q -> Q;
  log10 : Q -> Q;
  log : Q -> Q;
  exp : Q -> Q;
  pow : Q -> Q -> Q;
  sqrt : Q -> Q
}.

(** Constants and default arguments declared in [ImageProcessor.h], which is
    not part of the sources: they are parameters of the embedding. *)
Class Config : Type := {
  EXPANDED_RANGE : Z;
  EXTEND_EDGE_AMOUNT : Z;
  WAVELET_LEVELS : nat;
  default_extendEdges : bool;
  default_scalePreview : Q
}.

(** The generated preview kernels [createPreview] chooses from. *)
Inductive PreviewMethod : Type :=
| preview_landscape2 | preview_portrait2
| preview_reverse_portrait2 | preview_reverse_landscape2
| preview_landscape4 | preview_portrait4
| preview_reverse_portrait4 | preview_reverse_landscape4
| preview_landscape8 | preview_portrait8
| preview_reverse_portrait8 | preview_reverse_landscape8.

(** The generated temporal-fusion kernels [denoise] chooses from. *)
Inductive FuseMethod : Type :=
| fuse_denoise_3x3
| fuse_denoise_5x5
| fuse_denoise_7x7.


(** How the DNG SDK ends a write: the file is written, or an exception
    leaves [util::WriteDng]; what matters to the caller is whether its class
    derives from [std::runtime_error]. *)
Inductive DngResult : Type :=
| dng_ok
| dng_throws_runtime_error
| dng_throws_other.

(** The colour data [createSrgbMatrix] produces: camera white, camera-to-PCS
    and PCS-to-sRGB matrices. *)
Definition ColorTransform : Type := (Vec3f * Mat * Mat)%type.

(** The routines the pipeline calls and does not define: the camera profile,
    the Halide kernels, OpenCV, Exiv2 and the DNG SDK.  Each is a pure
    function of the arguments the pipeline passes ("opaque, deterministic
    functions with documented input/output buffer contracts").  The OpenCV
    solver returns [None] when it throws [cv::Exception].  [cv::imwrite]
    returns whether it wrote the file, or throws; [cv::resize] of the
    thumbnail returns the resized image, or throws; the Exiv2 update of
    [addExifMetadata] returns [false] when the image could not be opened
    (the function then returns at once), [true] when the metadata was
    written, or throws. *)
Class Kernels : Type := {
  WaveletBuffer : Type;
  temperatureFromVector :
    RawCameraMetadata -> RawImageMetadata -> Vec3f -> Q * Q;
  cameraToPcs :
    RawCameraMetadata -> RawImageMetadata -> Q * Q -> ColorTransform;
  deinterleave_raw :
    RawImageBuffer -> RawCameraMetadata -> Z -> Z -> Q ->
    (Z -> Z -> Z -> Z) * (Z -> Z -> Z);
  measure_noise :
    RawImageBuffer -> RawCameraMetadata -> Z -> Buffer Q * Buffer Q;
  measure_image : RawImageBuffer -> RawCameraMetadata -> Z -> Mat -> list Z;
  preview_kernel :
    PreviewMethod -> RawImageBuffer -> RawCameraMetadata ->
    PostProcessSettings -> Mat -> Z -> Z -> Image Z;
  fuse_kernel :
    FuseMethod -> Buffer Z -> Buffer Z -> Buffer Q -> Image (Q * Q) ->
    list Q -> Q -> Q -> Q -> Q -> Buffer Q;
  forward_transform : Buffer Z -> Z -> list (Z * Z) -> list WaveletBuffer;
  inverse_transform :
    list WaveletBuffer -> Q -> bool -> list Q -> Z -> Z -> Z;
  wavelet_view : WaveletBuffer -> Z * Z -> Z -> Image Q;
  hdr_mask :
    Buffer Z -> Buffer Z -> Mat -> list Q -> Q -> Q ->
    (Z -> Z -> Z) * (Z -> Z -> Z);
  linear_image :
    Buffer Z -> Mat -> RawImageMetadata -> RawCameraMetadata -> Vec3f ->
    Mat -> list Q -> Q -> Buffer Z;
  postprocess :
    list (Image Z) -> option HdrMetadata -> Z -> Z -> Q ->
    RawImageMetadata -> RawCameraMetadata -> PostProcessSettings ->
    ColorTransform -> Image Z;
  buildPyramid : Image Z -> nat -> list (Image Z);
  findTransformECC : Image Z -> Image Z -> Mat -> option Mat;
  Mat_inv : Mat -> Mat;
  resize : Image Z -> Z -> Z -> Image Z;
  DISOpticalFlow_calc : Z -> Image Z -> Image Z -> Image (Q * Q);
  calcHist_gray : Image Z -> list Q;
  findMedian : Image Q -> Q;
  estimateNoise : Image Q -> Q;
  cvtColor : Image Z -> Image Z;
  dng_sdk_write : string -> Image Z -> DngResult;
  cv_imwrite : string -> Image Z -> Outcome bool;
  cv_resize : Image Z -> Z -> Z -> Outcome (Image Z);
  exiv2_write :
    RawImageMetadata -> Image Z -> RawCameraMetadata -> PostProcessSettings ->
    string -> Outcome bool
}.




(** ** Exposure and histogram estimation *)

(** [ImageProcessor::calcEv].  The aperture defaults to 1.8 and is read from
    the camera's list only when the list is not empty. *)
Definition calcEv {L : Libm} (cameraMetadata : RawCameraMetadata)
  (metadata : RawImageMetadata) : option Q :=
  let a :=
    if Num.is_empty (apertures cameraMetadata) then Some 1.8
    else Num.at_index (apertures cameraMetadata) 0 in
  option_map
    (fun a =>
       let s := a * a in
       log2 (s / (inject_Z (exposureTime metadata) / 1000000000))
       - log2 (inject_Z (iso metadata) / 100))
    a.

(** The body of the loop of [ImageProcessor::getMinEv]. *)
Definition getMinEv_step {L : Libm} (container : RawContainer) (minEv : Q)
  (name : string) : M Q :=
  frame <- deref (getFrame container name) ;;
  ev <- deref (calcEv (getCameraMetadata container) (metadata frame)) ;;
  ret (if Num.ltb ev minEv then ev else minEv).

Fixpoint getMinEv_loop {L : Libm} (container : RawContainer) (minEv : Q)
  (names : list string) : M Q :=
  match names with
  | [] => ret minEv
  | name :: rest =>
      m <- getMinEv_step container minEv name ;;
      getMinEv_loop container m rest
  end.

(** [ImageProcessor::getMinEv]. *)
Definition getMinEv {L : Libm} (container : RawContainer) : M Q :=
  getMinEv_loop container 100000 (getFrames container).

Definition SHADOW_BIAS : Q := 6.

(** [ImageProcessor::getShadowKeyValue]. *)
Definition getShadowKeyValue {L : Libm} (ev : Q) (nightMode : bool) : Q :=
  let minKv := 1.03 in
  minKv - SHADOW_BIAS / (SHADOW_BIAS + log10 (pow 10 ev + 1)).

(** The local variable [avgLuminance] of [ImageProcessor::estimateShadows]
    when the loop over the histogram is done: the geometric mean of the
    luminance over the bins that are not ignored. *)
Definition avgLuminance {L : Libm} (histogram : list Q) : Q :=
  let cols := Z.of_nat (List.length histogram) in
  let ignorePixels := 0.005 in
  let lowerBound := Num.trunc (0.5 + inject_Z cols * ignorePixels) in
  let upperBound := (cols - lowerBound)%Z in
  let step (acc : Q * Q) (i : Z) :=
    let '(avgLuminance, totalPixels) := acc in
    let h := nth (Z.to_nat i) histogram 0 in
    (avgLuminance + h * log (0.00001 + inject_Z i / inject_Z cols),
     totalPixels + h) in
  let '(avgLuminance, totalPixels) :=
    fold_left step (Num.range lowerBound upperBound) (0, 0) in
  exp (avgLuminance / (totalPixels + 0.00001)).

(** [ImageProcessor::estimateShadows]. *)
Definition estimateShadows {L : Libm} (histogram : list Q) (keyValue : Q) : Q :=
  let shadows := pow 2 (keyValue / avgLuminance histogram) in
  Num.std_max 1 (Num.std_min shadows 32).

(** ** Denoise-weight selection *)

Definition WEIGHTS : list (list Q) :=
  [ [12; 4; 2; 1];
    [8; 4; 2; 1];
    [6; 4; 1; 1];
    [4; 2; 1; 0];
    [2; 1; 0.5; 0];
    [1; 1; 0; 0] ].

Definition SIGNAL_MAP : list Q :=
  [0.0001; 0.0025; 0.005; 0.01; 0.03; 0.05].

(** One iteration of the loop of [estimateDenoiseWeights]: the state is
    [(minDiff, w)]. *)
Definition nearest_step (signalLevel : Q) (st : Q * nat) (i : nat) : Q * nat :=
  let '(minDiff, w) := st in
  let diff := Qabs (signalLevel - nth i SIGNAL_MAP 0) in
  if Num.ltb diff minDiff then (diff, i) else (minDiff, w).

(** The index [w] when the loop of [estimateDenoiseWeights] is done. *)
Definition estimateDenoiseWeights_index (signalLevel : Q) : nat :=
  snd (fold_left (nearest_step signalLevel)
         (seq 0 (List.length WEIGHTS))
         (100000, (List.length WEIGHTS - 1)%nat)).

(** [ImageProcessor::estimateDenoiseWeights]. *)
Definition estimateDenoiseWeights (signalLevel : Q) : list Q :=
  nth (estimateDenoiseWeights_index signalLevel) WEIGHTS [].

(** ** Colour transforms *)

(** [math::max] of a vector: its largest component. *)
Definition vec_max (v : Vec3f) : Q :=
  let '(a, b, c) := v in Num.std_max (Num.std_max a b) c.

(** [ImageProcessor::createSrgbMatrix], the overload that takes a colour
    temperature. *)
Definition createSrgbMatrixFromTemperature {K : Kernels}
  (cameraMetadata : RawCameraMetadata) (rawImageMetadata : RawImageMetadata)
  (t : Q * Q) : ColorTransform :=
  cameraToPcs cameraMetadata rawImageMetadata t.

(** [ImageProcessor::createSrgbMatrix], the overload that takes the as-shot
    white-balance vector. *)
Definition createSrgbMatrix {K : Kernels} (cameraMetadata : RawCameraMetadata)
  (rawImageMetadata : RawImageMetadata) (asShot : Vec3f)
  : Outcome ColorTransform :=
  let '(a0, a1, a2) := asShot in
  let max := vec_max asShot in
  if Num.ltb 0 max then
    let asShotVector := (a0 * (1 / max), a1 * (1 / max), a2 * (1 / max)) in
    let temperature :=
      temperatureFromVector cameraMetadata rawImageMetadata asShotVector in
    Returned (cameraToPcs cameraMetadata rawImageMetadata temperature)
  else Raised (InvalidState "Camera white balance vector is zero").

(** The choice both [createPreview] and [postProcess] (and [prepareHdr]) make
    between the two overloads. *)
Definition chooseSrgbMatrix {K : Kernels} (cameraMetadata : RawCameraMetadata)
  (metadata : RawImageMetadata) (settings : PostProcessSettings)
  : Outcome ColorTransform :=
  if Num.ltb 0 (temperature settings) || Num.ltb 0 (tint settings) then
    Returned
      (createSrgbMatrixFromTemperature cameraMetadata metadata
         (temperature settings, tint settings))
  else createSrgbMatrix cameraMetadata metadata (asShot metadata).

(** ** Matrices and images *)

Definition Mat_eye3 : Mat := [[1; 0; 0]; [0; 1; 0]; [0; 0; 1]].

(** [cv::Mat::empty]. *)
Definition Mat_empty (m : Mat) : bool := Num.is_empty m.

(** [cv::Mat::mul]: the element-wise product. *)
Definition Mat_mul (a b : Mat) : Mat :=
  map (fun rs => map (fun xy => fst xy * snd xy) (combine (fst rs) (snd rs)))
    (combine a b).

(** The matrix product [a * b]. *)
Definition Mat_product (a b : Mat) : Mat :=
  let column j := map (fun row => nth j row 0) b in
  let dot u v := Num.accumulate (map (fun xy => fst xy * snd xy) (combine u v)) in
  map (fun row => map (fun j => dot row (column j))
                    (seq 0 (List.length (hd [] b))))
    a.

(** [m(cv::Rect(x, y, w, h))]: OpenCV asserts that the rectangle lies inside
    the matrix and throws [cv::Exception] otherwise. *)
Definition Mat_roi {T : Type} (m : Image T) (x y w h : Z) : Outcome (Image T) :=
  if ((0 <=? x) && (0 <=? w) && (x + w <=? cols m)
      && (0 <=? y) && (0 <=? h) && (y + h <=? rows m))%Z
  then Returned (mkImage h w (fun r c => pixel m (r + y)%Z (c + x)%Z))
  else Raised cv_Exception.

(** The sum of the elements of a matrix. *)
Definition Image_sum (m : Image Q) : Q :=
  Num.accumulate
    (map (fun r => Num.accumulate (map (pixel m r) (Num.range 0 (cols m))))
       (Num.range 0 (rows m))).

(** [cv::mean] of a single-channel matrix (zero for an empty one). *)
Definition cv_mean (m : Image Q) : Q :=
  if (rows m * cols m =? 0)%Z then 0
  else Image_sum m / inject_Z (rows m * cols m).

Definition Image_map {A B : Type} (f : A -> B) (m : Image A) : Image B :=
  mkImage (rows m) (cols m) (fun r c => f (pixel m r c)).

(** Channel [c] of a planar buffer, as a matrix. *)
Definition channel_plane {T : Type} (b : Buffer T) (c : Z) : Image T :=
  mkImage (buf_height b) (buf_width b) (fun y x => buf_at b x y c).

(** ** Raw frame loader and measurements *)

(** [ImageProcessor::loadRawImage]. *)
Definition loadRawImage {C : Config} {K : Kernels} (rawBuffer : RawImageBuffer)
  (cameraMetadata : RawCameraMetadata) (extendEdges : bool) (scalePreview : Q)
  : RawData :=
  let halfWidth := (width rawBuffer ÷ 2)%Z in
  let halfHeight := (height rawBuffer ÷ 2)%Z in
  let T := (2 ^ EXTEND_EDGE_AMOUNT)%Z in
  let extend (half : Z) : Z :=
    if extendEdges then
      Num.trunc (inject_Z T * Num.ceil (inject_Z half / inject_Z T)
                 - inject_Z half)
    else 0%Z in
  let extendX := extend halfWidth in
  let extendY := extend halfHeight in
  let out :=
    deinterleave_raw rawBuffer cameraMetadata (extendX ÷ 2)%Z (extendY ÷ 2)%Z
      scalePreview in
  {| previewBuffer :=
       mkImage (halfHeight + extendY)%Z (halfWidth + extendX)%Z
         (fun y x => snd out x y);
     rawBuffer := mkBuffer (halfWidth + extendX)%Z (halfHeight + extendY)%Z (fst out);
     rawMetadata := metadata rawBuffer |}.

(** [ImageProcessor::measureNoise]: per channel, the median noise and the
    median signal divided by [iso / 100.0f], in single precision. *)
Definition measureNoise {K : Kernels} (cameraMetadata : RawCameraMetadata)
  (rawBuffer : RawImageBuffer) (patchSize : Z) : list Q * list IEEE.float :=
  let f := IEEE.binary32 in
  let out := measure_noise rawBuffer cameraMetadata patchSize in
  let noise c := findMedian (channel_plane (fst out) c) in
  let signal c :=
    IEEE.div f (IEEE.Finite (findMedian (channel_plane (snd out) c)))
      (IEEE.div f (IEEE.of_Z f (iso (metadata rawBuffer))) (IEEE.Finite 100)) in
  (map noise (Num.range 0 4), map signal (Num.range 0 4)).

(** The running sums [h(i) += h(i - 1)] of a histogram. *)
Fixpoint cumulative_from (acc : Q) (h : list Q) : list Q :=
  match h with
  | [] => []
  | x :: rest => (acc + x) :: cumulative_from (acc + x) rest
  end.

(** [ImageProcessor::calcHistogram]. *)
Definition calcHistogram {K : Kernels} (cameraMetadata : RawCameraMetadata)
  (buffer : RawImageBuffer) (cumulative : bool) (downscale : Z) : M (list Q) :=
  let SCALE := downscale in
  let width := (width buffer ÷ 2 ÷ SCALE)%Z in
  let height := (height buffer ÷ 2 ÷ SCALE)%Z in
  color <- lift (createSrgbMatrix cameraMetadata (metadata buffer)
                   (asShot (metadata buffer))) ;;
  let cameraToSrgb := Mat_product (snd color) (snd (fst color)) in
  let histogram :=
    map inject_Z (measure_image buffer cameraMetadata SCALE cameraToSrgb) in
  ret (if cumulative then
         let sums := cumulative_from 0 histogram in
         map (fun x => x / last sums 0) sums
       else map (fun x => x / inject_Z (width * height)) histogram).

(** The kernel [createPreview] selects for an orientation and a factor. *)
Definition preview_method (orientation : ScreenOrientation) (downscaleFactor : Z)
  : PreviewMethod :=
  match orientation with
  | REVERSE_PORTRAIT =>
      if (downscaleFactor =? 2)%Z then preview_reverse_portrait2
      else if (downscaleFactor =? 4)%Z then preview_reverse_portrait4
      else preview_reverse_portrait8
  | REVERSE_LANDSCAPE =>
      if (downscaleFactor =? 2)%Z then preview_reverse_landscape2
      else if (downscaleFactor =? 4)%Z then preview_reverse_landscape4
      else preview_reverse_landscape8
  | PORTRAIT =>
      if (downscaleFactor =? 2)%Z then preview_portrait2
      else if (downscaleFactor =? 4)%Z then preview_portrait4
      else preview_portrait8
  | LANDSCAPE =>
      if (downscaleFactor =? 2)%Z then preview_landscape2
      else if (downscaleFactor =? 4)%Z then preview_landscape4
      else preview_landscape8
  end.

(** [ImageProcessor::createPreview]. *)
Definition createPreview {K : Kernels} (rawBuffer : RawImageBuffer)
  (downscaleFactor : Z) (cameraMetadata : RawCameraMetadata)
  (settings : PostProcessSettings) : M (Image Z) :=
  if (negb (downscaleFactor =? 2) && negb (downscaleFactor =? 4)
      && negb (downscaleFactor =? 8))%Z
  then throw (InvalidState "Invalid downscale factor")
  else
    color <- lift (chooseSrgbMatrix cameraMetadata (metadata rawBuffer) settings) ;;
    let cameraToSrgb := Mat_product (snd color) (snd (fst color)) in
    let width := (width rawBuffer ÷ 2 ÷ downscaleFactor)%Z in
    let height := (height rawBuffer ÷ 2 ÷ downscaleFactor)%Z in
    let orientation := screenOrientation (metadata rawBuffer) in
    let swapped :=
      match orientation with
      | REVERSE_PORTRAIT | PORTRAIT => true
      | _ => false
      end in
    ret (preview_kernel (preview_method orientation downscaleFactor) rawBuffer
           cameraMetadata settings cameraToSrgb
           (if swapped then height else width)
           (if swapped then width else height)).

(** The first index of a scan that satisfies [stop], or [otherwise]: a [for]
    loop left by [break]. *)
Fixpoint scan_until (stop : Z -> bool) (indices : list Z) (otherwise : Z) : Z :=
  match indices with
  | [] => otherwise
  | i :: rest => if stop i then i else scan_until stop rest otherwise
  end.

(** [ImageProcessor::estimateBlackWhitePoint]: the black and the white point
    of the preview rendered with [blacks = 0] and [whitePoint = 1]. *)
Definition estimateBlackWhitePoint {K : Kernels} (rawBuffer : RawImageBuffer)
  (cameraMetadata : RawCameraMetadata) (postProcessSettings : PostProcessSettings)
  : M (Q * Q) :=
  let settings :=
    {| shadows := shadows postProcessSettings;
       blacks := 0;
       whitePoint := 1;
       temperature := temperature postProcessSettings;
       tint := tint postProcessSettings;
       spatialDenoiseLevel := spatialDenoiseLevel postProcessSettings;
       dng := dng postProcessSettings;
       jpegQuality := jpegQuality postProcessSettings;
       captureMode := captureMode postProcessSettings |} in
  preview <- createPreview rawBuffer 2 cameraMetadata settings ;;
  let histBins := 256%Z in
  let counts := calcHist_gray preview in
  let histogram :=
    cumulative_from 0
      (map (fun x => x / inject_Z (rows preview * cols preview)) counts) in
  let at_bin (i : Z) := nth (Z.to_nat i) histogram 0 in
  let maxBlackPointBin := Num.trunc (0.07 * inject_Z histBins + 0.5) in
  let endBin :=
    scan_until (fun i => Num.ltb 0.001 (at_bin (i + 1)%Z - at_bin i))
      (Num.range 1 maxBlackPointBin) (Z.max 1 maxBlackPointBin) in
  let outBlackPoint := inject_Z (endBin - 1) / inject_Z (histBins - 1) in
  let maxWhitePointBin := Num.trunc (0.75 * inject_Z histBins + 0.5) in
  let whitePoint := 0.997 in
  let endBin :=
    scan_until (fun i => Num.ltb (at_bin i) whitePoint)
      (rev (Num.range maxWhitePointBin (histBins - 1)))
      (Z.min (histBins - 2) (maxWhitePointBin - 1)) in
  let outWhitePoint := inject_Z (endBin + 1) / inject_Z histBins in
  ret (outBlackPoint, outWhitePoint).

(** ** Frame registrar *)

Definition scaleWarpMatrix : Mat := [[1; 1; 2]; [1; 1; 2]; [0.5; 0.5; 1]].

Definition ALIGN_PYRAMID_LEVELS : nat := 5.

(** An OpenCV call that reports failure by throwing [cv::Exception]. *)
Definition cv_call {A : Type} (r : option A) : Outcome A :=
  match r with
  | Some a => Returned a
  | None => Raised cv_Exception
  end.

(** What [catch(cv::Exception& e)] catches. *)
Definition is_cv_Exception (e : Exn) : bool :=
  match e with
  | cv_Exception => true
  | _ => false
  end.

(** The loop of [registerImage2] over the pyramid levels, coarsest first:
    each level runs the solver inside [try]; the handler returns the empty
    matrix [cv::Mat()]. *)
Fixpoint registerImage2_loop {K : Kernels} (levels : list (Image Z * Image Z))
  (warpMatrix : Mat) : Outcome Mat :=
  match levels with
  | [] => Returned warpMatrix
  | (cur, ref) :: rest =>
      match cv_call (findTransformECC cur ref warpMatrix) with
      | Returned w => registerImage2_loop rest (Mat_mul w scaleWarpMatrix)
      | Raised e => if is_cv_Exception e then Returned [] else Raised e
      | Undefined => Undefined
      end
  end.

(** The levels the loop visits: [i = size - 1] down to [1] (level 0, the
    full-size image, is skipped). *)
Definition registerImage2_levels {K : Kernels} (referenceImage toAlignImage : Image Z)
  : list (Image Z * Image Z) :=
  let refPyramid := buildPyramid referenceImage ALIGN_PYRAMID_LEVELS in
  let curPyramid := buildPyramid toAlignImage ALIGN_PYRAMID_LEVELS in
  rev (tl (combine curPyramid refPyramid)).

(** [ImageProcessor::registerImage2]. *)
Definition registerImage2 {K : Kernels} (referenceBuffer toAlignBuffer : Image Z)
  : Outcome Mat :=
  registerImage2_loop (registerImage2_levels referenceBuffer toAlignBuffer)
    Mat_eye3.

(** ** HDR preparation *)

Definition MAX_HDR_ERROR : Q := 0.0001.

(** The ghost map and the mask [hdr_mask] writes for a registered pair, at
    the size of the reference planes. *)
Definition hdrGhostMaps {K : Kernels} (refImage underexposedImage : RawData)
  (warpMatrix : Mat) (blackLevel : list Q) (whiteLevel exposureScale : Q)
  : Image Z * Image Z :=
  let out :=
    hdr_mask (rawBuffer refImage) (rawBuffer underexposedImage) warpMatrix
      blackLevel whiteLevel exposureScale in
  let w := buf_width (rawBuffer refImage) in
  let h := buf_height (rawBuffer refImage) in
  (mkImage h w (fun y x => fst out x y), mkImage h w (fun y x => snd out x y)).

(** The interior of the ghost map: 32 pixels removed on each side. *)
Definition trimmedGhostMap (ghostMap : Image Z) : Outcome (Image Z) :=
  Mat_roi ghostMap 32 32 (cols ghostMap - 64) (rows ghostMap - 64).

(** The local variable [error] of [prepareHdr]. *)
Definition hdrError (ghostMap : Image Z) : Outcome Q :=
  match trimmedGhostMap ghostMap with
  | Returned trimmed => Returned (cv_mean (Image_map inject_Z trimmed))
  | Raised e => Raised e
  | Undefined => Undefined
  end.

(** The first part of [prepareHdr]: the exposure scale between the two
    frames, and the two frames loaded with extended edges (the underexposed
    one with its preview scaled by the exposure scale). *)
Definition hdrLoadPair {L : Libm} {C : Config} {K : Kernels}
  (cameraMetadata : RawCameraMetadata) (reference underexposed : RawImageBuffer)
  : M (Q * RawData * RawData) :=
  a <- deref (calcEv cameraMetadata (metadata reference)) ;;
  b <- deref (calcEv cameraMetadata (metadata underexposed)) ;;
  let exposureScale := pow 2 (Qabs (b - a)) in
  let extendEdges := true in
  let refImage := loadRawImage reference cameraMetadata extendEdges 1 in
  let underexposedImage :=
    loadRawImage underexposed cameraMetadata extendEdges exposureScale in
  ret (exposureScale, refImage, underexposedImage).

(** [ImageProcessor::prepareHdr]; a null result is [None]. *)
Definition prepareHdr {L : Libm} {C : Config} {K : Kernels}
  (cameraMetadata : RawCameraMetadata) (settings : PostProcessSettings)
  (reference underexposed : RawImageBuffer) : M (option HdrMetadata) :=
  loaded <- hdrLoadPair cameraMetadata reference underexposed ;;
  let exposureScale := fst (fst loaded) in
  let refImage := snd (fst loaded) in
  let underexposedImage := snd loaded in
  let whiteLevel := getWhiteLevel cameraMetadata (metadata underexposed) in
  let blackLevel := getBlackLevel cameraMetadata (metadata underexposed) in
  warpMatrix <- lift (registerImage2 (previewBuffer refImage)
                        (previewBuffer underexposedImage)) ;;
  if Mat_empty warpMatrix then ret None
  else
    let warpMatrix := Mat_inv warpMatrix in
    let maps :=
      hdrGhostMaps refImage underexposedImage warpMatrix blackLevel whiteLevel
        exposureScale in
    error <- lift (hdrError (fst maps)) ;;
    if Num.ltb MAX_HDR_ERROR error then ret None
    else
      let mask :=
        resize (snd maps) (buf_width (rawBuffer underexposedImage) * 2)%Z
          (buf_height (rawBuffer underexposedImage) * 2)%Z in
      color <- lift (chooseSrgbMatrix cameraMetadata (metadata underexposed)
                       settings) ;;
      let cameraToSrgb := Mat_product (snd color) (snd (fst color)) in
      let outputBuffer :=
        linear_image (rawBuffer underexposedImage) warpMatrix
          (metadata underexposed) cameraMetadata (fst (fst color)) cameraToSrgb
          blackLevel whiteLevel in
      ret (Some {| exposureScale := exposureScale;
                   gain := 1;
                   error := 0;
                   hdrInput := outputBuffer;
                   hdrMask := mask |}).

(** ** Temporal fusion and spatial denoising *)

(** [ImageProgressHelper].  The increment per image is a [double]. *)
Record ImageProgressHelper : Type := {
  mStart : Z;
  mNumImages : Z;
  mPerImageIncrement : IEEE.float;
  mCurImage : Z
}.

(** The constructor: [mPerImageIncrement = 75.0 / numImages]. *)
Definition newImageProgressHelper (numImages start : Z) : ImageProgressHelper :=
  {| mStart := start;
     mNumImages := numImages;
     mPerImageIncrement :=
       IEEE.div IEEE.binary64 (IEEE.Finite 75)
         (IEEE.of_Z IEEE.binary64 numImages);
     mCurImage := 0 |}.

(** [mStart + (mPerImageIncrement * curImage)], in double precision. *)
Definition fusedProgressValue (p : ImageProgressHelper) (curImage : Z)
  : IEEE.float :=
  let f := IEEE.binary64 in
  IEEE.add f (IEEE.of_Z f (mStart p))
    (IEEE.mul f (mPerImageIncrement p) (IEEE.of_Z f curImage)).

(** [nextFusedImage]: the image counter advances and the progress value,
    converted to [int], is reported. *)
Definition nextFusedImage (p : ImageProgressHelper) : M ImageProgressHelper :=
  let cur := (mCurImage p + 1)%Z in
  percent <- deref (IEEE.to_int (fusedProgressValue p cur)) ;;
  emit (onProgressUpdate percent) ;;
  ret {| mStart := mStart p;
         mNumImages := mNumImages p;
         mPerImageIncrement := mPerImageIncrement p;
         mCurImage := cur |}.

Definition denoiseCompleted (p : ImageProgressHelper) : M unit :=
  emit (onProgressUpdate (mStart p + 75)).

Definition postProcessCompleted (p : ImageProgressHelper) : M unit :=
  emit (onProgressUpdate (mStart p + 95)).

Definition imageSaved (p : ImageProgressHelper) : M unit :=
  emit (onProgressUpdate 100) ;;
  emit onCompleted.

(** The sizes [createWaveletBuffers] allocates: each level halves the one
    before. *)
Fixpoint createWaveletBuffers_from (levels : nat) (width height : Z)
  : list (Z * Z) :=
  match levels with
  | O => []
  | S n =>
      let width := (width ÷ 2)%Z in
      let height := (height ÷ 2)%Z in
      (width, height) :: createWaveletBuffers_from n width height
  end.

Definition createWaveletBuffers {C : Config} (width height : Z) : list (Z * Z) :=
  createWaveletBuffers_from WAVELET_LEVELS width height.

(** The normalized average signal level of [denoise]:
    [std::accumulate(signal.begin(), signal.end(), 0.0f) / signal.size()],
    then [signalAverage /= whiteLevel], in single precision. *)
Definition signalAverageOf (signal : list IEEE.float) (whiteLevel : Q)
  : IEEE.float :=
  let f := IEEE.binary32 in
  let signalAverage :=
    IEEE.div f (fold_left (IEEE.add f) signal (IEEE.Finite 0))
      (IEEE.of_Z f (Z.of_nat (List.length signal))) in
  IEEE.div f signalAverage (IEEE.Finite whiteLevel).

(** The fusion kernel [denoise] selects for a signal level: the comparisons
    [signalAverage < 0.02f] and [signalAverage < 0.04f]. *)
Definition selectFuseMethod (signalAverage : IEEE.float) : FuseMethod :=
  let f := IEEE.binary32 in
  if IEEE.ltb signalAverage (IEEE.of_Q f 0.02) then fuse_denoise_7x7
  else if IEEE.ltb signalAverage (IEEE.of_Q f 0.04) then fuse_denoise_5x5
  else fuse_denoise_3x3.

(** The level [estimateDenoiseWeights] receives.  Its loop only compares
    the distances to the table entries with [1e5]; for a level that is not
    finite (a zero ISO or white level) no distance is below [1e5], as for
    the level [1e6] that stands for it here. *)
Definition signalLevelOf (signalAverage : IEEE.float) : Q :=
  match signalAverage with
  | IEEE.Finite level => level
  | _ => 1000000
  end.

(** The value both branches of [denoise] store in [denoiseInput] for a
    pixel value [v] of channel [c], computed in single precision:
    [p = v - blackLevel[c]], [s = EXPANDED_RANGE / (float) (whiteLevel -
    blackLevel[c])], then [max(0, min(p * s + 0.5f, EXPANDED_RANGE))]
    converted to [uint16_t].  Equal levels make [s] infinite. *)
Definition normalizePixel {C : Config} (v : IEEE.float) (blackLevel : list Q)
  (whiteLevel : Q) (c : Z) : Z :=
  let f := IEEE.binary32 in
  let bl := IEEE.Finite (nth (Z.to_nat c) blackLevel 0) in
  let p := IEEE.sub f v bl in
  let s :=
    IEEE.div f (IEEE.of_Z f EXPANDED_RANGE)
      (IEEE.sub f (IEEE.Finite whiteLevel) bl) in
  IEEE.to_uint16
    (IEEE.std_max (IEEE.Finite 0)
       (IEEE.std_min (IEEE.add f (IEEE.mul f p s) (IEEE.Finite 0.5))
          (IEEE.of_Z f EXPANDED_RANGE))).

(** The buffer [denoiseInput] of [denoise], from the reference planes, the
    accumulator [fuseOutput] and the number of frames in [processFrames]. *)
Definition denoiseInput {C : Config} (processFrames : list string)
  (reference : Buffer Z) (fuseOutput : Buffer Q) (blackLevel : list Q)
  (whiteLevel : Q) : Buffer Z :=
  let width := buf_width reference in
  let height := buf_height reference in
  if (List.length processFrames <=? 1)%nat then
    mkBuffer width height
      (fun x y c =>
         normalizePixel (IEEE.of_Z IEEE.binary32 (buf_at reference x y c))
           blackLevel whiteLevel c)
  else
    let n := IEEE.of_Z IEEE.binary32 (Z.of_nat (List.length processFrames)) in
    mkBuffer width height
      (fun x y c =>
         normalizePixel
           (IEEE.div IEEE.binary32 (IEEE.Finite (buf_at fuseOutput x y c)) n)
           blackLevel whiteLevel c).

(** The body of the fusion loop of [denoise] for one frame. *)
Definition fuseFrame {L : Libm} {C : Config} {K : Kernels} (rawContainer : RawContainer)
  (reference : RawData) (method : FuseMethod) (thresholdBuffer : list Q)
  (patchSize : Z) (st : Buffer Q * ImageProgressHelper) (name : string)
  : M (Buffer Q * ImageProgressHelper) :=
  let '(fuseOutput, progressHelper) := st in
  frame <- deref (loadFrame rawContainer name) ;;
  let current :=
    loadRawImage frame (getCameraMetadata rawContainer) default_extendEdges
      default_scalePreview in
  let flow :=
    DISOpticalFlow_calc patchSize (previewBuffer reference)
      (previewBuffer current) in
  let flowMean :=
    (cv_mean (Image_map fst flow), cv_mean (Image_map snd flow)) in
  let w := 1 / (2 * sqrt 2) in
  let fused :=
    fuse_kernel method (rawBuffer reference) (rawBuffer current) fuseOutput
      flow thresholdBuffer w 4 (fst flowMean) (snd flowMean) in
  progressHelper <- nextFusedImage progressHelper ;;
  ret (fused, progressHelper).

Fixpoint fuseFrames {L : Libm} {C : Config} {K : Kernels} (rawContainer : RawContainer)
  (reference : RawData) (method : FuseMethod) (thresholdBuffer : list Q)
  (patchSize : Z) (st : Buffer Q * ImageProgressHelper) (names : list string)
  : M (Buffer Q * ImageProgressHelper) :=
  match names with
  | [] => ret st
  | name :: rest =>
      st' <- fuseFrame rawContainer reference method thresholdBuffer patchSize
               st name ;;
      fuseFrames rawContainer reference method thresholdBuffer patchSize st'
        rest
  end.

(** The attenuation weights [denoise] passes to the inverse transform. *)
Definition denoiseWeights (spatialDenoiseLevel : Z) (signalAverage : Q)
  : M (list Q) :=
  if (spatialDenoiseLevel <? 0)%Z then ret (estimateDenoiseWeights signalAverage)
  else if (spatialDenoiseLevel =? 0)%Z then ret [0; 0; 0; 0]
  else
    let size := Z.of_nat (List.length WEIGHTS) in
    let i := Z.min spatialDenoiseLevel (size - 1) in
    let i := Z.max i 0 in
    deref (Num.at_index WEIGHTS (Z.to_nat (size - i))).

(** [Halide::Runtime::Buffer<float>(&weights[0], WAVELET_LEVELS)]: the
    buffer the inverse transform reads, [WAVELET_LEVELS] floats from the
    first weight on.  Reading it is undefined when the vector holds fewer. *)
Definition weightsBuffer {C : Config} (weights : list Q) : M (list Q) :=
  _ <- deref (Num.at_index weights 0) ;;
  if (List.length weights <? WAVELET_LEVELS)%nat then ([], Undefined)
  else ret (firstn WAVELET_LEVELS weights).

(** The wavelet stage of [denoise] for one channel: the denoised plane and
    the normalised noise. *)
Definition denoiseChannel {C : Config} {K : Kernels} (denoiseInput : Buffer Z)
  (wavelet : list (Z * Z)) (weightsBuffer : list Q) (c : Z)
  : M (Image Z * Q) :=
  w0 <- deref (Num.at_index wavelet 0) ;;
  w1 <- deref (Num.at_index wavelet 1) ;;
  w2 <- deref (Num.at_index wavelet 2) ;;
  w3 <- deref (Num.at_index wavelet 3) ;;
  let bands := forward_transform denoiseInput c [w0; w1; w2; w3] in
  band0 <- deref (Num.at_index bands 0) ;;
  let offset := (fst w0 * snd w0)%Z in
  let ll := wavelet_view band0 w0 4 in
  let hh := wavelet_view band0 w0 (offset * 7) in
  let noiseSigma := estimateNoise hh in
  let n := noiseSigma / (0.00001 + cv_mean ll) in
  let outputBuffer :=
    mkImage (buf_height denoiseInput) (buf_width denoiseInput)
      (fun y x =>
         inverse_transform bands noiseSigma false weightsBuffer x y) in
  ret (outputBuffer, n).

Fixpoint denoiseChannels {C : Config} {K : Kernels} (denoiseInput : Buffer Z)
  (wavelet : list (Z * Z)) (weights : list Q) (channels : list Z)
  : M (list (Image Z) * list Q) :=
  match channels with
  | [] => ret ([], [])
  | c :: rest =>
      r <- denoiseChannel denoiseInput wavelet weights c ;;
      rs <- denoiseChannels denoiseInput wavelet weights rest ;;
      ret (fst r :: fst rs, snd r :: snd rs)
  end.

(** [*std::max_element(v.begin(), v.end())]. *)
Definition max_element (v : list Q) : option Q :=
  match v with
  | [] => None
  | x :: rest => Some (fold_left (fun m y => if Num.ltb m y then y else m) rest x)
  end.

(** [ImageProcessor::denoise], the overload [process] calls: the four
    denoised planes and the noise estimate [*outNoise]. *)
Definition denoise {L : Libm} {C : Config} {K : Kernels} (referenceRawBuffer : RawImageBuffer)
  (reference : RawData) (rawContainer : RawContainer)
  (progressHelper : ImageProgressHelper) : M (list (Image Z) * Q) :=
  let cameraMetadata := getCameraMetadata rawContainer in
  let whiteLevel := getWhiteLevel cameraMetadata (rawMetadata reference) in
  let blackLevel := getBlackLevel cameraMetadata (rawMetadata reference) in
  ev <- deref (calcEv cameraMetadata (metadata referenceRawBuffer)) ;;
  let ev := Num.trunc (0.5 + ev) in
  let patchSize := if (ev <? 8)%Z then 16%Z else 8%Z in
  let measured := measureNoise cameraMetadata referenceRawBuffer patchSize in
  let noise := fst measured in
  let signal := snd measured in
  let signalAverage := signalAverageOf signal whiteLevel in
  let fuseOutput :=
    mkBuffer (buf_width (rawBuffer reference)) (buf_height (rawBuffer reference))
      (fun _ _ _ => 0) in
  let processFrames := getFrames rawContainer in
  let method := selectFuseMethod signalAverage in
  st <- fuseFrames rawContainer reference method noise patchSize
          (fuseOutput, progressHelper) processFrames ;;
  let denoiseInput :=
    denoiseInput processFrames (rawBuffer reference) (fst st) blackLevel
      whiteLevel in
  let wavelet :=
    createWaveletBuffers (buf_width denoiseInput) (buf_height denoiseInput) in
  weights <- denoiseWeights
               (spatialDenoiseLevel (getPostProcessSettings rawContainer))
               (signalLevelOf signalAverage) ;;
  weightsBuffer <- weightsBuffer weights ;;
  out <- denoiseChannels denoiseInput wavelet weightsBuffer (Num.range 0 4) ;;
  outNoise <- deref (max_element (snd out)) ;;
  ret (fst out, outNoise).

(** ** Archival encoder *)

(** [util::GetBasePath]: the directory and the file name of a path. *)
Definition GetBasePath (path : string) : string * string :=
  match find_last_of path "/"%char with
  | None => (EmptyString, path)
  | Some index =>
      (substring 0 index path,
       substring (S index) (String.length path) path)
  end.

(** [util::BuildRawImage]: the four planes interleaved into one mosaic, then
    cropped. *)
Definition BuildRawImage (channels : list (Image Z)) (cropX cropY : Z)
  : M (Image Z) :=
  c0 <- deref (Num.at_index channels 0) ;;
  c1 <- deref (Num.at_index channels 1) ;;
  c2 <- deref (Num.at_index channels 2) ;;
  c3 <- deref (Num.at_index channels 3) ;;
  let height := (rows c0 * 2)%Z in
  let width := (cols c1 * 2)%Z in
  let outputImage :=
    mkImage height width
      (fun y x =>
         let ry := (y ÷ 2)%Z in
         let rx := (x ÷ 2)%Z in
         if Z.even y then
           if Z.even x then pixel c0 ry rx else pixel c1 ry rx
         else
           if Z.even x then pixel c2 ry rx else pixel c3 ry rx) in
  lift (Mat_roi outputImage cropX cropY (width - cropX * 2) (height - cropY * 2)).

(** [util::WriteDng] to a path.  It reads the first aperture of the camera
    without testing the list, then hands the image to the DNG SDK. *)
Definition WriteDng {K : Kernels} (rawImage : Image Z)
  (cameraMetadata : RawCameraMetadata) (outputPath : string) : M unit :=
  _ <- deref (Num.at_index (apertures cameraMetadata) 0) ;;
  match dng_sdk_write outputPath rawImage with
  | dng_ok => emit (dng_written outputPath)
  | dng_throws_runtime_error => throw std_runtime_error
  | dng_throws_other => throw foreign_exception
  end.

(** What [catch(std::runtime_error& e)] catches ([InvalidState] is a
    [std::runtime_error]). *)
Definition is_std_runtime_error (e : Exn) : bool :=
  match e with
  | std_runtime_error | InvalidState _ => true
  | _ => false
  end.

(** ** The pipeline *)

(** [ImageProcessor::postProcess]. *)
Definition postProcess {K : Kernels} (inputBuffers : list (Image Z))
  (hdrMetadata : option HdrMetadata) (offsetX offsetY : Z) (noiseEstimate : Q)
  (metadata : RawImageMetadata) (cameraMetadata : RawCameraMetadata)
  (settings : PostProcessSettings) : M (Image Z) :=
  color <- lift (chooseSrgbMatrix cameraMetadata metadata settings) ;;
  ret (postprocess inputBuffers hdrMetadata offsetX offsetY noiseEstimate
         metadata cameraMetadata settings color).

Definition set_shadows (s : PostProcessSettings) (v : Q) : PostProcessSettings :=
  {| shadows := v;
     blacks := blacks s;
     whitePoint := whitePoint s;
     temperature := temperature s;
     tint := tint s;
     spatialDenoiseLevel := spatialDenoiseLevel s;
     dng := dng s;
     jpegQuality := jpegQuality s;
     captureMode := captureMode s |}.

Definition set_blacks_whitePoint (s : PostProcessSettings) (bw : Q * Q)
  : PostProcessSettings :=
  {| shadows := shadows s;
     blacks := fst bw;
     whitePoint := snd bw;
     temperature := temperature s;
     tint := tint s;
     spatialDenoiseLevel := spatialDenoiseLevel s;
     dng := dng s;
     jpegQuality := jpegQuality s;
     captureMode := captureMode s |}.

(** The body of the loop of [process] that moves an underexposed frame out
    of the container (a frame that does not load is skipped). *)
Definition removeUnderexposed_step {L : Libm} (refEv : Q)
  (st : RawContainer * list RawImageBuffer) (frameName : string)
  : M (RawContainer * list RawImageBuffer) :=
  let '(rawContainer, underexposedImages) := st in
  frame <- deref (getFrame rawContainer frameName) ;;
  ev <- deref (calcEv (getCameraMetadata rawContainer) (metadata frame)) ;;
  if Num.ltb 1 (ev - refEv) then
    match loadFrame rawContainer frameName with
    | None => ret st
    | Some raw =>
        ret (removeFrame rawContainer frameName, underexposedImages ++ [raw])
    end
  else ret st.

Fixpoint removeUnderexposed_loop {L : Libm} (refEv : Q)
  (st : RawContainer * list RawImageBuffer) (names : list string)
  : M (RawContainer * list RawImageBuffer) :=
  match names with
  | [] => ret st
  | name :: rest =>
      st' <- removeUnderexposed_step refEv st name ;;
      removeUnderexposed_loop refEv st' rest
  end.

(** The first block of [process]: for an HDR capture the underexposed
    frames leave the container. *)
Definition removeUnderexposed {L : Libm} (rawContainer : RawContainer)
  : M (RawContainer * list RawImageBuffer) :=
  if isHdr rawContainer then
    refEv <- getMinEv rawContainer ;;
    removeUnderexposed_loop refEv (rawContainer, []) (getFrames rawContainer)
  else ret (rawContainer, []).

(** What [process] holds when denoising is done. *)
Record Fused : Type := {
  fusedSettings : PostProcessSettings;
  fusedHdr : option HdrMetadata;
  fusedOutput : list (Image Z);
  fusedNoise : Q;
  fusedProgress : ImageProgressHelper
}.

(** The settings [process] uses: shadows, black and white point are
    estimated from the reference frame when they are unset (negative). *)
Definition estimateUnset {L : Libm} {K : Kernels} (rawContainer : RawContainer)
  (referenceRawBuffer : RawImageBuffer) : M PostProcessSettings :=
  let cameraMetadata := getCameraMetadata rawContainer in
  let settings := getPostProcessSettings rawContainer in
  settings <-
    (if Num.ltb (shadows settings) 0 then
       ev <- deref (calcEv cameraMetadata (metadata referenceRawBuffer)) ;;
       let keyValue :=
         getShadowKeyValue ev (String.eqb (captureMode settings) "NIGHT") in
       histogram <- calcHistogram cameraMetadata referenceRawBuffer false 4 ;;
       ret (set_shadows settings (estimateShadows histogram keyValue))
     else ret settings) ;;
  if Num.ltb (blacks settings) 0 || Num.ltb (whitePoint settings) 0 then
    bw <- estimateBlackWhitePoint referenceRawBuffer cameraMetadata settings ;;
    ret (set_blacks_whitePoint settings bw)
  else ret settings.

(** [process] from the removal of the reference frame to the end of
    denoising: settings, preview, HDR preparation, fusion. *)
Definition processFusion {L : Libm} {C : Config} {K : Kernels} (rawContainer : RawContainer)
  (underexposedImages : list RawImageBuffer) (referenceFrame : string)
  (referenceRawBuffer : RawImageBuffer) (outputPath : string) : M Fused :=
  let rawContainer := removeFrame rawContainer referenceFrame in
  let cameraMetadata := getCameraMetadata rawContainer in
  let referenceBayer :=
    loadRawImage referenceRawBuffer cameraMetadata default_extendEdges
      default_scalePreview in
  settings <- estimateUnset rawContainer referenceRawBuffer ;;
  preview <- createPreview referenceRawBuffer 2 cameraMetadata settings ;;
  let '(basePath, filename) := GetBasePath outputPath in
  let previewPath := (basePath ++ "/PREVIEW_" ++ filename)%string in
  file_written (cv_imwrite previewPath (cvtColor preview))
    (imwrite previewPath (cvtColor preview)) ;;
  emit (onPreviewSaved previewPath) ;;
  hdrMetadata <-
    (match underexposedImages with
     | [] => ret None
     | underexposed :: _ =>
         prepareHdr cameraMetadata settings referenceRawBuffer underexposed
     end) ;;
  let progressHelper :=
    newImageProgressHelper
      (Z.of_nat (List.length (getFrames rawContainer))) 0 in
  out <- denoise referenceRawBuffer referenceBayer rawContainer progressHelper ;;
  denoiseCompleted progressHelper ;;
  ret {| fusedSettings := settings;
         fusedHdr := hdrMetadata;
         fusedOutput := fst out;
         fusedNoise := snd out;
         fusedProgress := progressHelper |}.

(** The padding [process] removes again: [offsetX] and [offsetY]. *)
Definition cropOffset {C : Config} (rawSize : Z) : Z :=
  let T := (2 ^ EXTEND_EDGE_AMOUNT)%Z in
  Num.trunc (inject_Z T * Num.ceil (inject_Z rawSize / inject_Z T)
             - inject_Z rawSize).

(** The name of the DNG file: the output path with its extension replaced
    by [.dng]. *)
Definition dngFileName (outputPath : string) : string :=
  let rawOutputPath :=
    match find_last_of outputPath "."%char with
    | Some extensionStartIdx => substring 0 extensionStartIdx outputPath
    | None => outputPath
    end in
  (rawOutputPath ++ ".dng")%string.

(** [process], the block that writes the DNG file when the settings ask
    for one; an exception derived from [std::runtime_error] is caught by an
    empty handler. *)
Definition processDng {C : Config} {K : Kernels} (rawContainer : RawContainer)
  (referenceRawBuffer : RawImageBuffer) (denoiseOutput : list (Image Z))
  (outputPath : string) : M unit :=
  let offsetX := cropOffset (width referenceRawBuffer ÷ 2)%Z in
  let offsetY := cropOffset (height referenceRawBuffer ÷ 2)%Z in
  if dng (getPostProcessSettings rawContainer) then
    rawImage <- BuildRawImage (firstn 4 denoiseOutput) offsetX offsetY ;;
    let dngFile := dngFileName outputPath in
    try_catch
      (WriteDng rawImage (getCameraMetadata rawContainer) dngFile)
      is_std_runtime_error
      (fun _ => ret tt)
  else ret tt.

(** The height of the thumbnail:
    [(int) std::lround((rows / (double) cols) * width)]; the conversion of
    the [long] to [int] wraps. *)
Definition thumbnailHeight (outputImage : Image Z) (width : Z) : option Z :=
  let f := IEEE.binary64 in
  option_map Num.int_of_long
    (IEEE.lround
       (IEEE.mul f
          (IEEE.div f (IEEE.of_Z f (rows outputImage))
             (IEEE.of_Z f (cols outputImage)))
          (IEEE.of_Z f width))).

(** [process] from [postProcess] to the end: the rendered image is written,
    the thumbnail made, the image tagged, and completion is signalled. *)
Definition processOutput {C : Config} {K : Kernels} (rawContainer : RawContainer)
  (referenceRawBuffer : RawImageBuffer) (fused : Fused) (outputPath : string)
  : M unit :=
  let offsetX := cropOffset (width referenceRawBuffer ÷ 2)%Z in
  let offsetY := cropOffset (height referenceRawBuffer ÷ 2)%Z in
  outputImage <-
    postProcess (fusedOutput fused) (fusedHdr fused) offsetX offsetY
      (fusedNoise fused) (metadata referenceRawBuffer)
      (getCameraMetadata rawContainer) (fusedSettings fused) ;;
  postProcessCompleted (fusedProgress fused) ;;
  file_written (cv_imwrite outputPath outputImage)
    (imwrite outputPath outputImage) ;;
  let width := 320%Z in
  height <- deref (thumbnailHeight outputImage width) ;;
  thumbnail <- lift (cv_resize outputImage width height) ;;
  file_written
    (exiv2_write (metadata referenceRawBuffer) thumbnail
       (getCameraMetadata rawContainer) (getPostProcessSettings rawContainer)
       outputPath)
    (exif_written outputPath) ;;
  imageSaved (fusedProgress fused).

(** [ImageProcessor::process] on an open container. *)
Definition process {L : Libm} {C : Config} {K : Kernels} (rawContainer : RawContainer)
  (outputPath : string) : M unit :=
  emit (onProgressUpdate 0) ;;
  st <- removeUnderexposed rawContainer ;;
  let rawContainer := fst st in
  let underexposedImages := snd st in
  if Num.is_empty (getFrames rawContainer) then
    emit (onError "No frames found") ;;
    emit onCompleted
  else
    referenceFrame <- deref (Num.at_index (getFrames rawContainer) 0) ;;
    match loadFrame rawContainer referenceFrame with
    | None =>
        emit (onError "Invalid reference frames") ;;
        emit onCompleted
    | Some referenceRawBuffer =>
        fused <- processFusion rawContainer underexposedImages referenceFrame
                   referenceRawBuffer outputPath ;;
        let rawContainer := removeFrame rawContainer referenceFrame in
        processDng rawContainer referenceRawBuffer (fusedOutput fused)
          outputPath ;;
        processOutput rawContainer referenceRawBuffer fused outputPath
    end.

(** [ImageProcessor::process] on a path; [container] is the container
    [RawContainer::Open] returns for it. *)
Definition process_path {L : Libm} {C : Config} {K : Kernels} (container : RawContainer)
  (outputPath : string) : M unit :=
  if Num.is_empty (getFrames container) then emit (onError "No frames found")
  else process container outputPath.

(** ** Test doubles

    Concrete instances of the interfaces, used to run the embedding on
    sample captures. *)

Definition sampleLibm : Libm :=
  {| log2 := fun x => x;
     log10 := fun x => x;
     log := fun x => x;
     exp := fun x => x;
     pow := fun x y => x + y;
     sqrt := fun x => x |}.

Definition sampleConfig : Config :=
  {| EXPANDED_RANGE := 16384;
     EXTEND_EDGE_AMOUNT := 6;
     WAVELET_LEVELS := 4;
     default_extendEdges := true;
     default_scalePreview := 1 |}.

(** Kernels that return constant images; the solver, the ghost map and the
    DNG writer are chosen by the caller. *)
Definition sampleKernels (solver : Mat -> option Mat) (ghost : Z -> Z -> Z)
  (fused : Q) (dngResult : DngResult) : Kernels :=
  {| WaveletBuffer := unit;
     temperatureFromVector := fun _ _ _ => (5000, 0);
     cameraToPcs := fun _ _ _ => ((1, 1, 1), Mat_eye3, Mat_eye3);
     deinterleave_raw := fun _ _ _ _ _ => (fun _ _ _ => 1000%Z, fun _ _ => 128%Z);
     measure_noise :=
       fun _ _ _ => (mkBuffer 1 1 (fun _ _ _ => 1), mkBuffer 1 1 (fun _ _ _ => 100));
     measure_image := fun _ _ _ _ => repeat 1%Z 256;
     preview_kernel := fun _ _ _ _ _ w h => mkImage h w (fun _ _ => 128%Z);
     fuse_kernel :=
       fun _ ref _ _ _ _ _ _ _ _ =>
         mkBuffer (buf_width ref) (buf_height ref) (fun _ _ _ => fused);
     forward_transform := fun _ _ sizes => map (fun _ => tt) sizes;
     inverse_transform := fun _ _ _ _ _ _ => 1000%Z;
     wavelet_view := fun _ size _ => mkImage 1 1 (fun _ _ => 1);
     hdr_mask := fun _ _ _ _ _ _ => (fun x y => ghost x y, fun _ _ => 255%Z);
     linear_image :=
       fun under _ _ _ _ _ _ _ =>
         mkBuffer (buf_width under * 2) (buf_height under * 2) (fun _ _ _ => 0%Z);
     postprocess := fun _ _ _ _ _ _ _ _ _ => mkImage 2 2 (fun _ _ => 200%Z);
     buildPyramid := fun img n => repeat img (S n);
     findTransformECC := fun _ _ w => solver w;
     Mat_inv := fun m => m;
     resize := fun img w h => mkImage h w (pixel img);
     DISOpticalFlow_calc := fun _ _ _ => mkImage 1 1 (fun _ _ => (0, 0));
     calcHist_gray := fun _ => repeat 1 256;
     findMedian := fun img => pixel img 0 0;
     estimateNoise := fun _ => 1;
     cvtColor := fun img => img;
     dng_sdk_write := fun _ _ => dngResult;
     cv_imwrite := fun _ _ => Returned true;
     cv_resize := fun img w h => Returned (mkImage h w (pixel img));
     exiv2_write := fun _ _ _ _ _ => Returned true |}.

Definition samplePlanes (v : Z) : Buffer Z := mkBuffer 2 2 (fun _ _ _ => v).

Definition sampleAccumulator (v : Q) : Buffer Q := mkBuffer 2 2 (fun _ _ _ => v).

Definition sampleMetadata (exposureNs isoValue : Z) (whiteBalance : Vec3f)
  : RawImageMetadata :=
  {| exposureTime := exposureNs;
     iso := isoValue;
     asShot := whiteBalance;
     screenOrientation := LANDSCAPE |}.

Definition sampleCamera (apertureList : list Q) : RawCameraMetadata :=
  {| apertures := apertureList;
     getBlackLevel := fun _ => [64; 64; 64; 64];
     getWhiteLevel := fun _ => 1023 |}.

Definition sampleSettings (shadowsValue temperatureValue : Q) (writeDng : bool)
  : PostProcessSettings :=
  {| shadows := shadowsValue;
     blacks := 0;
     whitePoint := 1;
     temperature := temperatureValue;
     tint := 0;
     spatialDenoiseLevel := 0;
     dng := writeDng;
     jpegQuality := 95;
     captureMode := "ZSL" |}.

Definition sampleFrame (md : RawImageMetadata) (pixels : option (list Z))
  : StoredFrame :=
  {| storedMetadata := md;
     storedWidth := 8;
     storedHeight := 8;
     storedPixels := pixels |}.

Definition sampleContainer (settings : PostProcessSettings) (hdr : bool)
  (frames : list (string * StoredFrame)) : RawContainer :=
  {| getCameraMetadata := sampleCamera [1.8];
     getPostProcessSettings := settings;
     isHdr := hdr;
     storedFrames := frames |}.

Definition sampleRawImage (md : RawImageMetadata) (size : Z) : RawImageBuffer :=
  {| metadata := md; width := size; height := size; data := [] |}.

Definition sampleImage : Image Z := mkImage 2 2 (fun _ _ => 0%Z).

(** A kernel set whose registration converges, whose ghost map is clean, and
    whose DNG writer behaves as [dngResult] says. *)
Definition sampleKernelsDng (dngResult : DngResult) : Kernels :=
  sampleKernels (fun w => Some w) (fun _ _ => 0%Z) 1800 dngResult.

(** Sample captures: named frames taken at 10 ms, ISO 100, with the given
    as-shot vector; [None] marks a frame that cannot be decoded. *)
Definition sampleBurst (settings : PostProcessSettings)
  (whiteBalance : Vec3f) (frames : list (string * option (list Z)))
  : RawContainer :=
  sampleContainer settings false
    (map (fun f => (fst f,
                    sampleFrame (sampleMetadata 10000000 100 whiteBalance)
                      (snd f)))
       frames).

(** ** Vocabulary of the specification

    Definitions that follow the words of the specification; the theorems of
    Part II compare them with the embedding of the source. *)

(** The exposure value of the specification:
    [log2(aperture^2 / shutterTime) - log2(ISO / 100)], with the shutter time
    in seconds. *)
Definition exposureValue {L : Libm} (aperture shutterSeconds isoValue : Q) : Q :=
  log2 (aperture ^ 2 / shutterSeconds) - log2 (isoValue / 100).

(** The distance of a signal level to entry [i] of the signal-level table. *)
Definition signalDistance (signalLevel : Q) (i : nat) : Q :=
  Qabs (signalLevel - nth i SIGNAL_MAP 0).

(** Row [r] attenuates at least as much as row [r'] when each of its weights
    is at least the corresponding weight of [r']. *)
Definition attenuates_more (r r' : list Q) : Prop :=
  Forall2 (fun w w' => w' <= w) r r'.

(** The state of the loop of [estimateDenoiseWeights] after the entries
    below [k]: either no entry was within [init] and the state is the initial
    one, or [w] is the first entry at the least distance seen so far. *)
Inductive NearestState (s init : Q) (w0 k : nat) : Q * nat -> Prop :=
| nearest_untouched :
    (forall i, (i < k)%nat -> init <= signalDistance s i) ->
    NearestState s init w0 k (init, w0)
| nearest_updated (w : nat) :
    (w < k)%nat ->
    signalDistance s w < init ->
    (forall i, (i < k)%nat -> signalDistance s w <= signalDistance s i) ->
    (forall i, (i < w)%nat -> signalDistance s w < signalDistance s i) ->
    NearestState s init w0 k (signalDistance s w, w).

(** A pixel value "black-level-subtracted and rescaled" into the output
    range: [(v - blackLevel) * EXPANDED_RANGE / (whiteLevel - blackLevel)]. *)
Definition rescaled {C : Config} (v blackLevel whiteLevel : Q) : Q :=
  (v - blackLevel) * (inject_Z EXPANDED_RANGE / (whiteLevel - blackLevel)).

(** The normalized value of the specification:
    [clamp((v - blackLevel) * EXPANDED_RANGE / (whiteLevel - blackLevel), 0,
    EXPANDED_RANGE)]. *)
Definition normalizedValue {C : Config} (v blackLevel whiteLevel : Q) : Q :=
  Num.clamp 0 (inject_Z EXPANDED_RANGE) (rescaled v blackLevel whiteLevel).

(** The iterative solver throws at some pyramid level the loop of
    [registerImage2] reaches: at the first level of the list, or at a later
    one after it converged on the levels before. *)
Inductive SolverThrows {K : Kernels} : list (Image Z * Image Z) -> Mat -> Prop :=
| throws_here (cur ref : Image Z) (rest : list (Image Z * Image Z))
    (warpMatrix : Mat) :
    findTransformECC cur ref warpMatrix = None ->
    SolverThrows ((cur, ref) :: rest) warpMatrix
| throws_later (cur ref : Image Z) (rest : list (Image Z * Image Z))
    (warpMatrix w : Mat) :
    findTransformECC cur ref warpMatrix = Some w ->
    SolverThrows rest (Mat_mul w scaleWarpMatrix) ->
    SolverThrows ((cur, ref) :: rest) warpMatrix.

(** The interior crop of a map: a margin of 32 pixels removed on each
    side. *)
Definition interior32 {T : Type} (m : Image T) : Image T :=
  mkImage (rows m - 64) (cols m - 64)
    (fun r c => pixel m (r + 32)%Z (c + 32)%Z).

(** The mean ghost error over the interior crop. *)
Definition interiorGhostError (ghostMap : Image Z) : Q :=
  cv_mean (Image_map inject_Z (interior32 ghostMap)).

(** ** Settings estimation

    The parts of [ImageProcessor.cpp] and [Util.cpp] around the pipeline:
    the estimators a capture preview uses, the EXIF tags of the rendered
    image, the [denoise] overloads that work on loaded buffers, and the
    helpers of [util]. *)

(** The loop of [ImageProcessor::estimateExposureCompensation]: the bins are
    visited from the brightest down, [total] is the mass seen so far, and the
    scan stops at the first bin where the mass reaches [threshold].  [bin]
    keeps its initial value 0 when no bin does. *)
Fixpoint exposureBin_scan (histogram : list Q) (threshold : Q)
  (indices : list Z) (total : Q) : Z :=
  match indices with
  | [] => 0%Z
  | i :: rest =>
      let p := total + nth (Z.to_nat i) histogram 0 in
      if negb (Num.ltb p threshold) then i
      else exposureBin_scan histogram threshold rest p
  end.

(** The local variable [bin] of [estimateExposureCompensation] when the loop
    is done. *)
Definition exposureBin (histogram : list Q) (threshold : Q) : Z :=
  let cols := Z.of_nat (List.length histogram) in
  exposureBin_scan histogram threshold (rev (Num.range 0 cols)) 0.

(** [ImageProcessor::estimateExposureCompensation]. *)
Definition estimateExposureCompensation {L : Libm} (histogram : list Q)
  (threshold : Q) : Q :=
  let cols := Z.of_nat (List.length histogram) in
  let bin := exposureBin histogram threshold in
  let m := inject_Z cols / inject_Z (bin + 1) in
  log2 m.

(** The fields [ImageProcessor::estimateSettings] writes into
    [outSettings]. *)
Record EstimatedSettings : Type := {
  estimatedTemperature : Q;
  estimatedTint : Q;
  estimatedShadows : Q;
  estimatedExposure : Q;
  clippedLows : Q;
  clippedHighs : Q
}.

(** [ImageProcessor::estimateSettings]. *)
Definition estimateSettings {L : Libm} {K : Kernels} (rawBuffer : RawImageBuffer)
  (cameraMetadata : RawCameraMetadata) : M EstimatedSettings :=
  ev <- deref (calcEv cameraMetadata (metadata rawBuffer)) ;;
  let keyValue := getShadowKeyValue ev false in
  let temperature :=
    temperatureFromVector cameraMetadata (metadata rawBuffer)
      (asShot (metadata rawBuffer)) in
  histogram <- calcHistogram cameraMetadata rawBuffer false 8 ;;
  low <- deref (Num.at_index histogram 0) ;;
  high <- deref (Num.at_index histogram (List.length histogram - 1)) ;;
  ret {| estimatedTemperature := fst temperature;
         estimatedTint := snd temperature;
         estimatedShadows := estimateShadows histogram keyValue;
         estimatedExposure := estimateExposureCompensation histogram 0.0005;
         clippedLows := low;
         clippedHighs := high |}.

(** ** EXIF tags *)

(** [sprintf("%d", n)]. *)
Definition decimal (n : Z) : string :=
  DecimalString.NilZero.string_of_int (Z.to_int n).

(** [sprintf("%0<width>d", n)] for a non-negative [n]: zeros on the left up
    to [width] characters. *)
Fixpoint zero_pad (missing : nat) (s : string) : string :=
  match missing with
  | O => s
  | S k => String "0" (zero_pad k s)
  end.

Definition decimal_padded (width : nat) (n : Z) : string :=
  let s := decimal n in
  zero_pad (width - String.length s) s.

(** The local variables [deg], [min] and [sec] of [toExifString]: the
    magnitude of the [double] argument in degrees, minutes and seconds,
    [d -= deg; d *= 60] in double precision and each conversion to [int]
    discarding the fraction. *)
Definition exifDegrees (d : Q) : Z * Z * Z :=
  let f := IEEE.binary64 in
  let d := IEEE.of_Q f d in
  let d := if IEEE.ltb d (IEEE.Finite 0) then IEEE.opp d else d in
  let deg := IEEE.trunc d in
  let d := IEEE.mul f (IEEE.sub f d (IEEE.of_Z f deg)) (IEEE.Finite 60) in
  let min := IEEE.trunc d in
  let d := IEEE.mul f (IEEE.sub f d (IEEE.of_Z f min)) (IEEE.Finite 60) in
  let sec := IEEE.trunc d in
  (deg, min, sec).

(** [toExifString(d, isRational, isLatitude)]. *)
Definition toExifString (d : Q) (isRational isLatitude : bool) : string :=
  let NS := if Num.ltb d 0 then "S"%string else "N"%string in
  let EW := if Num.ltb d 0 then "W"%string else "E"%string in
  let NSEW := if isLatitude then NS else EW in
  let '(deg, min, sec) := exifDegrees d in
  (if isRational then
     decimal deg ++ "/1 " ++ decimal min ++ "/1 " ++ decimal sec ++ "/1"
   else
     decimal_padded 3 deg ++ "deg" ++ decimal_padded 2 min ++ "'"
     ++ decimal_padded 2 sec ++ String "034" NSEW)%string.

(** [toExifString(d)]: hundredths, without the sign; [d *= 100] in double
    precision. *)
Definition toExifString_altitude (d : Q) : string :=
  let f := IEEE.binary64 in
  let d := IEEE.mul f (IEEE.of_Q f d) (IEEE.Finite 100) in
  (decimal (Z.abs (IEEE.trunc d)) ++ "/100")%string.

(** The value [addExifMetadata] stores under [Exif.Image.Orientation]. *)
Definition exifOrientation (orientation : ScreenOrientation) (flipped : bool)
  : Z :=
  match orientation with
  | LANDSCAPE => if flipped then 2%Z else 1%Z
  | PORTRAIT => if flipped then 5%Z else 6%Z
  | REVERSE_LANDSCAPE => if flipped then 4%Z else 3%Z
  | REVERSE_PORTRAIT => if flipped then 7%Z else 8%Z
  end.

(** The values of EXIF tags. *)
Inductive ExifValue : Type :=
| Exif_uint8 (v : Z)
| Exif_uint16 (v : Z)
| Exif_int (v : Z)
| Exif_rational (v : Q)
| Exif_ascii (s : string)
| Exif_thumbnail (jpeg : Image Z).

(** The fields of [PostProcessSettings] that only [addExifMetadata] reads. *)
Record ExifSettings : Type := {
  flipped : bool;
  gpsTime : string;
  gpsLatitude : Q;
  gpsLongitude : Q;
  gpsAltitude : Q
}.

(** [ImageProcessor::addExifMetadata]: the tags it assigns, in the order of
    the assignments, for an image that could be opened.  [focalLengths] is
    the camera's list of focal lengths and [thumbnail] the thumbnail, when
    it is not empty; the JPEG thumbnail set through [ExifThumb] is listed
    under [ExifThumb.JpegThumbnail]. *)
Definition addExifMetadata (metadata : RawImageMetadata)
  (thumbnail : option (Image Z)) (cameraMetadata : RawCameraMetadata)
  (focalLengths : list Q) (settings : ExifSettings)
  : list (string * ExifValue) :=
  [ ("Exif.Photo.ColorSpace"%string, Exif_uint16 1);
    ("Exif.Photo.ISOSpeedRatings"%string, Exif_uint16 (iso metadata mod 65536));
    ("Exif.Photo.ExposureTime"%string,
     Exif_rational (inject_Z (exposureTime metadata) / 1000000000));
    ("Exif.Image.Orientation"%string,
     Exif_uint16 (exifOrientation (screenOrientation metadata)
                    (flipped settings))) ]
  ++ match apertures cameraMetadata with
     | [] => []
     | a :: _ => [("Exif.Photo.ApertureValue"%string, Exif_rational a)]
     end
  ++ match focalLengths with
     | [] => []
     | f :: _ => [("Exif.Photo.FocalLength"%string, Exif_rational f)]
     end
  ++ [ ("Exif.Photo.LensModel"%string, Exif_ascii "MotionCam");
       ("Exif.Photo.LensMake"%string, Exif_ascii "MotionCam");
       ("Exif.Photo.SceneType"%string, Exif_uint8 1);
       ("Exif.Image.XResolution"%string, Exif_rational 72);
       ("Exif.Image.YResolution"%string, Exif_rational 72);
       ("Exif.Photo.WhiteBalance"%string, Exif_uint8 0) ]
  ++ (if negb (String.eqb (gpsTime settings) EmptyString) then
        [ ("Exif.GPSInfo.GPSProcessingMethod"%string,
           Exif_ascii "65 83 67 73 73 0 0 0 72 89 66 82 73 68 45 70 73 88");
          ("Exif.GPSInfo.GPSVersionID"%string, Exif_ascii "2 2 0 0");
          ("Exif.GPSInfo.GPSMapDatum"%string, Exif_ascii "WGS-84");
          ("Exif.GPSInfo.GPSLatitude"%string,
           Exif_ascii (toExifString (gpsLatitude settings) true true));
          ("Exif.GPSInfo.GPSLatitudeRef"%string,
           Exif_ascii (if Num.ltb 0 (gpsLatitude settings) then "N" else "S"));
          ("Exif.GPSInfo.GPSLongitude"%string,
           Exif_ascii (toExifString (gpsLongitude settings) true false));
          ("Exif.GPSInfo.GPSLongitudeRef"%string,
           Exif_ascii (if Num.ltb 0 (gpsLongitude settings) then "E" else "W"));
          ("Exif.GPSInfo.GPSAltitude"%string,
           Exif_ascii (toExifString_altitude (gpsAltitude settings)));
          ("Exif.GPSInfo.GPSAltitudeRef"%string,
           Exif_ascii (if Num.ltb (gpsAltitude settings) 0 then "1" else "0"));
          ("Exif.Image.GPSTag"%string, Exif_int 4908) ]
      else [])
  ++ match thumbnail with
     | Some t => [("ExifThumb.JpegThumbnail"%string, Exif_thumbnail t)]
     | None => []
     end.

(** The value a tag has after the assignments. *)
Definition exifTag (tags : list (string * ExifValue)) (key : string)
  : option ExifValue :=
  option_map snd (find (fun kv => String.eqb (fst kv) key) (rev tags)).

(** ** The [denoise] overloads on loaded buffers *)

(** The body of the fusion loop of the two [denoise] overloads that take the
    companion frames as buffers: the frame is loaded with extended edges and
    fused with the 7x7 kernel. *)
Definition fuseBuffer {L : Libm} {C : Config} {K : Kernels}
  (cameraMetadata : RawCameraMetadata) (reference : RawData)
  (thresholdBuffer : list Q) (patchSize : Z) (fuseOutput : Buffer Q)
  (buffer : RawImageBuffer) : Buffer Q :=
  let current := loadRawImage buffer cameraMetadata true default_scalePreview in
  let flow :=
    DISOpticalFlow_calc patchSize (previewBuffer reference)
      (previewBuffer current) in
  let flowMean :=
    (cv_mean (Image_map fst flow), cv_mean (Image_map snd flow)) in
  let w := 1 / (2 * sqrt 2) in
  fuse_kernel fuse_denoise_7x7 (rawBuffer reference) (rawBuffer current)
    fuseOutput flow thresholdBuffer w 4 (fst flowMean) (snd flowMean).

(** [ImageProcessor::denoise], the overload that returns the accumulator
    [fuseOutput]. *)
Definition denoise_fused {L : Libm} {C : Config} {K : Kernels}
  (referenceRawBuffer : RawImageBuffer) (buffers : list RawImageBuffer)
  (cameraMetadata : RawCameraMetadata) : Buffer Q :=
  let patchSize := 16%Z in
  let noise := fst (measureNoise cameraMetadata referenceRawBuffer patchSize) in
  let reference :=
    loadRawImage referenceRawBuffer cameraMetadata true default_scalePreview in
  let fuseOutput :=
    mkBuffer (buf_width (rawBuffer reference)) (buf_height (rawBuffer reference))
      (fun _ _ _ => 0) in
  fold_left (fuseBuffer cameraMetadata reference noise patchSize) buffers
    fuseOutput.

(** The buffer [denoiseInput] of the overload with explicit weights: the
    reference when there is no companion frame, the accumulator divided by
    the number of companion frames otherwise. *)
Definition denoiseInput_buffers {C : Config} (buffers : list RawImageBuffer)
  (reference : Buffer Z) (fuseOutput : Buffer Q) (blackLevel : list Q)
  (whiteLevel : Q) : Buffer Z :=
  let width := buf_width reference in
  let height := buf_height reference in
  if Num.is_empty buffers then
    mkBuffer width height
      (fun x y c =>
         normalizePixel (IEEE.of_Z IEEE.binary32 (buf_at reference x y c))
           blackLevel whiteLevel c)
  else
    let n := IEEE.of_Z IEEE.binary32 (Z.of_nat (List.length buffers)) in
    mkBuffer width height
      (fun x y c =>
         normalizePixel
           (IEEE.div IEEE.binary32 (IEEE.Finite (buf_at fuseOutput x y c)) n)
           blackLevel whiteLevel c).

(** The wavelet stage of that overload for one channel. *)
Definition denoiseChannel_weighted {C : Config} {K : Kernels}
  (denoiseInput : Buffer Z) (wavelet : list (Z * Z)) (weightsBuffer : list Q)
  (c : Z) : M (Image Z) :=
  w0 <- deref (Num.at_index wavelet 0) ;;
  w1 <- deref (Num.at_index wavelet 1) ;;
  w2 <- deref (Num.at_index wavelet 2) ;;
  w3 <- deref (Num.at_index wavelet 3) ;;
  let bands := forward_transform denoiseInput c [w0; w1; w2; w3] in
  band0 <- deref (Num.at_index bands 0) ;;
  let offset := (fst w0 * snd w0)%Z in
  let hh := wavelet_view band0 w0 (offset * 7) in
  let noiseSigma := estimateNoise hh in
  ret (mkImage (buf_height denoiseInput) (buf_width denoiseInput)
         (fun y x =>
            inverse_transform bands noiseSigma false weightsBuffer x y)).

Fixpoint denoiseChannels_weighted {C : Config} {K : Kernels}
  (denoiseInput : Buffer Z) (wavelet : list (Z * Z)) (weights : list Q)
  (channels : list Z) : M (list (Image Z)) :=
  match channels with
  | [] => ret []
  | c :: rest =>
      r <- denoiseChannel_weighted denoiseInput wavelet weights c ;;
      rs <- denoiseChannels_weighted denoiseInput wavelet weights rest ;;
      ret (r :: rs)
  end.

(** [ImageProcessor::denoise], the overload that takes the companion frames
    and the attenuation weights. *)
Definition denoise_weighted {L : Libm} {C : Config} {K : Kernels}
  (referenceRawBuffer : RawImageBuffer) (buffers : list RawImageBuffer)
  (denoiseWeights : list Q) (cameraMetadata : RawCameraMetadata)
  : M (list (Image Z)) :=
  let patchSize := 16%Z in
  let noise := fst (measureNoise cameraMetadata referenceRawBuffer patchSize) in
  let reference :=
    loadRawImage referenceRawBuffer cameraMetadata true default_scalePreview in
  let fuseOutput :=
    mkBuffer (buf_width (rawBuffer reference)) (buf_height (rawBuffer reference))
      (fun _ _ _ => 0) in
  let fuseOutput :=
    fold_left (fuseBuffer cameraMetadata reference noise patchSize) buffers
      fuseOutput in
  let whiteLevel := getWhiteLevel cameraMetadata (rawMetadata reference) in
  let blackLevel := getBlackLevel cameraMetadata (rawMetadata reference) in
  let denoiseInput :=
    denoiseInput_buffers buffers (rawBuffer reference) fuseOutput blackLevel
      whiteLevel in
  let wavelet :=
    createWaveletBuffers (buf_width denoiseInput) (buf_height denoiseInput) in
  weightsBuffer <- weightsBuffer denoiseWeights ;;
  denoiseChannels_weighted denoiseInput wavelet weightsBuffer (Num.range 0 4).

(** ** Helpers of [util] *)

(** [util::EndsWith].  [str.compare(pos, len, ending) == 0] holds when the
    [len] characters of [str] from [pos] on are those of [ending]. *)
Definition EndsWith (str ending : string) : bool :=
  if (String.length ending <=? String.length str)%nat then
    String.eqb
      (substring (String.length str - String.length ending)
         (String.length ending) str)
      ending
  else false.

(** A [json11::Json] value.  An accessor of the wrong kind returns the
    default of its type (0, false, the empty string, the empty array or
    object), and [operator[]] on a key that is absent returns null. *)
#[warnings="-register-all"]
Inductive Json : Type :=
| Json_null
| Json_number (value : Q)
| Json_bool (value : bool)
| Json_string (value : string)
| Json_array (items : list Json)
| Json_object (items : list (string * Json)).

Definition is_number (j : Json) : bool :=
  match j with Json_number _ => true | _ => false end.

Definition is_bool (j : Json) : bool :=
  match j with Json_bool _ => true | _ => false end.

Definition is_string (j : Json) : bool :=
  match j with Json_string _ => true | _ => false end.

Definition number_value (j : Json) : Q :=
  match j with Json_number v => v | _ => 0 end.

Definition int_value (j : Json) : Z := Num.trunc (number_value j).

Definition bool_value (j : Json) : bool :=
  match j with Json_bool v => v | _ => false end.

Definition string_value (j : Json) : string :=
  match j with Json_string v => v | _ => EmptyString end.

Definition object_items (j : Json) : list (string * Json) :=
  match j with Json_object items => items | _ => [] end.

(** [json.object_items().find(key)]. *)
Definition object_find (j : Json) (key : string) : option Json :=
  option_map snd (find (fun kv => String.eqb (fst kv) key) (object_items j)).

(** [json[key]]. *)
Definition Json_at (j : Json) (key : string) : Json :=
  match object_find j key with
  | Some v => v
  | None => Json_null
  end.

Definition is_absent (j : Json) (key : string) : bool :=
  match object_find j key with
  | Some _ => false
  | None => true
  end.

(** [util::GetOptionalSetting], the [int] overload. *)
Definition GetOptionalSetting_int (json : Json) (key : string)
  (defaultValue : Z) : Z :=
  if is_absent json key then defaultValue
  else if negb (is_number (Json_at json key)) then defaultValue
  else int_value (Json_at json key).

(** [util::GetOptionalSetting], the [double] overload. *)
Definition GetOptionalSetting_double (json : Json) (key : string)
  (defaultValue : Q) : Q :=
  if is_absent json key then defaultValue
  else if negb (is_number (Json_at json key)) then defaultValue
  else number_value (Json_at json key).

(** [util::GetOptionalSetting], the [bool] overload. *)
Definition GetOptionalSetting_bool (json : Json) (key : string)
  (defaultValue : bool) : bool :=
  if is_absent json key then defaultValue
  else if negb (is_bool (Json_at json key)) then defaultValue
  else bool_value (Json_at json key).

(** [util::GetOptionalStringSetting]. *)
Definition GetOptionalStringSetting (json : Json) (key : string)
  (defaultValue : string) : string :=
  if is_absent json key then defaultValue
  else if negb (is_string (Json_at json key)) then defaultValue
  else string_value (Json_at json key).

(** [util::GetRequiredSettingAsInt]. *)
Definition GetRequiredSettingAsInt (json : Json) (key : string) : Outcome Z :=
  if is_absent json key || negb (is_number (Json_at json key)) then
    Raised (InvalidState ("Invalid metadata. Missing " ++ key))
  else Returned (int_value (Json_at json key)).

(** [util::GetRequiredSettingAsString]. *)
Definition GetRequiredSettingAsString (json : Json) (key : string)
  : Outcome string :=
  if is_absent json key || negb (is_string (Json_at json key)) then
    Raised (InvalidState ("Invalid metadata. Missing " ++ key))
  else Returned (string_value (Json_at json key)).

(** [util::toJsonArray]: the elements of a matrix, row by row. *)
Definition toJsonArray (m : Mat) : list Json :=
  flat_map (map Json_number) m.

(** [util::toVec3f]. *)
Definition toVec3f (array : list Json) : Outcome Vec3f :=
  match array with
  | [a0; a1; a2] =>
      Returned (number_value a0, number_value a1, number_value a2)
  | _ =>
      Raised (InvalidState "Can't convert to vector. Invalid number of items.")
  end.

(** [util::toMat3x3]: the first nine items, or the empty matrix when there
    are fewer. *)
Definition toMat3x3 (array : list Json) : Mat :=
  if (List.length array <? 9)%nat then []
  else
    let item i := number_value (nth i array Json_null) in
    [ [item 0%nat; item 1%nat; item 2%nat];
      [item 3%nat; item 4%nat; item 5%nat];
      [item 6%nat; item 7%nat; item 8%nat] ].

(** An entry of the list of frames ordered by time that [util] builds over
    several containers. *)
Record ContainerFrame : Type := {
  frameName : string;
  timestamp : Z;
  containerIndex : nat
}.

(** The conversion of an [int] to [size_t] that a comparison between the two
    makes (64-bit [size_t]). *)
Definition to_size_t (z : Z) : Z := (z mod 2 ^ 64)%Z.

(** [containers[orderedFrames[index].containerIndex]->loadFrame(...)]: the
    frame, possibly null; reading either vector outside its bounds is
    undefined. *)
Definition loadOrdered (containers : list RawContainer)
  (orderedFrames : list ContainerFrame) (index : Z)
  : Outcome (option RawImageBuffer) :=
  match Num.at_index orderedFrames (Z.to_nat index) with
  | Some f =>
      match Num.at_index containers (containerIndex f) with
      | Some container => Returned (loadFrame container (frameName f))
      | None => Undefined
      end
  | None => Undefined
  end.

(** One side of an iteration of the loop of [GetNearestBuffers]: when
    [wanted] holds the frame at [startIdx + offset] is pushed and the offset
    moves by [direction]. *)
Definition pushNearest (containers : list RawContainer)
  (orderedFrames : list ContainerFrame) (wanted : bool)
  (startIdx offset direction : Z) (out : list (option RawImageBuffer))
  : Outcome (list (option RawImageBuffer) * Z) :=
  if wanted then
    match loadOrdered containers orderedFrames (startIdx + offset) with
    | Returned frame => Returned (out ++ [frame], (offset + direction)%Z)
    | Raised e => Raised e
    | Undefined => Undefined
    end
  else Returned (out, offset).

(** The [while(true)] loop of [util::GetNearestBuffers], run for at most
    [fuel] iterations ([None] when they do not suffice). *)
Fixpoint GetNearestBuffers_loop (fuel : nat) (containers : list RawContainer)
  (orderedFrames : list ContainerFrame) (startIdx numBuffers : Z)
  (leftOffset rightOffset : Z) (out : list (option RawImageBuffer))
  : option (Outcome (list (option RawImageBuffer))) :=
  match fuel with
  | O => None
  | S fuel =>
      let size := Z.of_nat (List.length orderedFrames) in
      let full (v : list (option RawImageBuffer)) :=
        (to_size_t numBuffers <=? Z.of_nat (List.length v))%Z in
      if full out then Some (Returned out)
      else
        match pushNearest containers orderedFrames
                (0 <=? startIdx + leftOffset)%Z startIdx leftOffset (-1) out with
        | Returned (out, leftOffset) =>
            match pushNearest containers orderedFrames
                    (to_size_t (startIdx + rightOffset) <? size)%Z startIdx
                    rightOffset 1 out with
            | Returned (out, rightOffset) =>
                if full out then Some (Returned out)
                else if ((startIdx + leftOffset <? 0)
                         && (size <=? to_size_t (startIdx + rightOffset)))%Z
                then Some (Returned out)
                else
                  GetNearestBuffers_loop fuel containers orderedFrames startIdx
                    numBuffers leftOffset rightOffset out
            | Raised e => Some (Raised e)
            | Undefined => Some Undefined
            end
        | Raised e => Some (Raised e)
        | Undefined => Some Undefined
        end
  end.

(** [util::GetNearestBuffers]: the contents of [outNearestBuffers]. *)
Definition GetNearestBuffers (fuel : nat) (containers : list RawContainer)
  (orderedFrames : list ContainerFrame) (startIdx numBuffers : Z)
  : option (Outcome (list (option RawImageBuffer))) :=
  GetNearestBuffers_loop fuel containers orderedFrames startIdx numBuffers
    (-1) 1 [].

(** ** Further vocabulary *)

(** The number of [onCompleted] calls in a trace. *)
Definition completions (t : Trace) : nat :=
  List.length
    (filter (fun e => match e with onCompleted => true | _ => false end) t).

(** A computation that never signals completion. *)
Definition silent {A : Type} (m : M A) : Prop := completions (fst m) = 0%nat.

(** A computation that signals completion exactly once, as its last event,
    when it returns, and never when it does not. *)
Definition completing {A : Type} (m : M A) : Prop :=
  match snd m with
  | Returned _ =>
      exists t : Trace, fst m = t ++ [onCompleted] /\ completions t = 0%nat
  | _ => completions (fst m) = 0%nat
  end.

(** A computation without observable events. *)
Definition quiet {A : Type} (m : M A) : Prop := fst m = [].

(** The percentages reported through [onProgressUpdate], in order. *)
Definition percents (t : Trace) : list Z :=
  flat_map (fun e => match e with onProgressUpdate p => [p] | _ => [] end) t.

(** The mass of a histogram from bin [i] up. *)
Definition tailMass (histogram : list Q) (i : Z) : Q :=
  Num.accumulate (skipn (Z.to_nat i) histogram).

(** The frames at distance [k] of [startIdx] that exist: the one before,
    then the one after. *)
Definition roundIndices (startIdx size : Z) (k : nat) : list Z :=
  (if (0 <=? startIdx - Z.of_nat k)%Z then [(startIdx - Z.of_nat k)%Z] else [])
  ++ (if (startIdx + Z.of_nat k <? size)%Z then [(startIdx + Z.of_nat k)%Z]
      else []).

(** The frames within distance [rounds] of [startIdx], nearest first. *)
Definition nearestIndices (startIdx size : Z) (rounds : nat) : list Z :=
  flat_map (roundIndices startIdx size) (seq 1 rounds).

(** The exposure value of a stored frame. *)
Definition frameEv {L : Libm} (c : RawContainer) (name : string) : option Q :=
  match getFrame c name with
  | Some frame => calcEv (getCameraMetadata c) (metadata frame)
  | None => None
  end.

(** A frame that loads and whose exposure value is more than one stop above
    [refEv]. *)
Definition movedOut {L : Libm} (c : RawContainer) (refEv : Q) (name : string)
  : bool :=
  match frameEv c name, loadFrame c name with
  | Some ev, Some _ => Num.ltb 1 (ev - refEv)
  | _, _ => false
  end.

(** Its pixels, when it is such a frame. *)
Definition movedImage {L : Libm} (c : RawContainer) (refEv : Q) (name : string)
  : list RawImageBuffer :=
  if movedOut c refEv name then
    match loadFrame c name with
    | Some raw => [raw]
    | None => []
    end
  else [].

(** The containers the loop of [process] passes through: the frames named in
    [done] that are moved out are gone, everything else is as in [c0]. *)
Definition removedFrom {L : Libm} (c0 : RawContainer) (refEv : Q)
  (done : list string) (st : RawContainer * list RawImageBuffer) : Prop :=
  getCameraMetadata (fst st) = getCameraMetadata c0
  /\ getPostProcessSettings (fst st) = getPostProcessSettings c0
  /\ storedFrames (fst st)
     = filter (fun f => negb (existsb (String.eqb (fst f)) done
                              && movedOut c0 refEv (fst f)))
         (storedFrames c0)
  /\ snd st = flat_map (movedImage c0 refEv) done.

(** The percentage the fusion loop reports for the image [curImage]. *)
Definition fusedPercent (p : ImageProgressHelper) (curImage : Z) : Z :=
  match IEEE.to_int (fusedProgressValue p curImage) with
  | Some percent => percent
  | None => 0%Z
  end.

(** The percentages a fusion loop over [n] frames reports when its progress
    helper starts at 0. *)
Definition fusionPercents (n : nat) : list Z :=
  map (fun k =>
         fusedPercent (newImageProgressHelper (Z.of_nat n) 0) (Z.of_nat k))
    (seq 1 n).

(** The frames [process] fuses into the reference frame, given the
    container without the underexposed frames: all but the first. *)
Definition fusedFrames (rawContainer : RawContainer) : list string :=
  match getFrames rawContainer with
  | [] => []
  | referenceFrame :: _ => getFrames (removeFrame rawContainer referenceFrame)
  end.

(** A progress helper after [k] more fused images. *)
Definition advanced (p : ImageProgressHelper) (k : Z) : ImageProgressHelper :=
  {| mStart := mStart p;
     mNumImages := mNumImages p;
     mPerImageIncrement := mPerImageIncrement p;
     mCurImage := (mCurImage p + k)%Z |}.

(** The frame at position [i] of the ordered list, loaded from its
    container (null when it does not load). *)
Definition frameAt (containers : list RawContainer)
  (orderedFrames : list ContainerFrame) (i : Z) : option RawImageBuffer :=
  match nth_error orderedFrames (Z.to_nat i) with
  | Some f =>
      match nth_error containers (containerIndex f) with
      | Some container => loadFrame container (frameName f)
      | None => None
      end
  | None => None
  end.

(** After [rounds] rounds there is no frame left on either side of
    [startIdx]. *)
Definition exhausted (startIdx size : Z) (rounds : nat) : Prop :=
  (startIdx <= Z.of_nat rounds /\ size - startIdx - 1 <= Z.of_nat rounds)%Z.

(** A list of numbers that never decreases. *)
Fixpoint nondecreasing (l : list Q) : Prop :=
  match l with
  | [] => True
  | x :: rest =>
      match rest with
      | [] => True
      | y :: _ => x <= y /\ nondecreasing rest
      end
  end.

(** A sample HDR capture: two frames at 10 ms and one at 1 ms, ISO 100. *)
Definition sampleHdrCapture : RawContainer :=
  sampleContainer (sampleSettings 1 0 false) true
    [ ("f0"%string, sampleFrame (sampleMetadata 10000000 100 (1, 1, 1)) (Some []));
      ("f1"%string, sampleFrame (sampleMetadata 1000000 100 (1, 1, 1)) (Some []));
      ("f2"%string, sampleFrame (sampleMetadata 10000000 100 (1, 1, 1)) (Some [])) ].

(** A sample JSON object. *)
Definition sampleJson : Json :=
  Json_object
    [ ("width"%string, Json_number 4032);
      ("height"%string, Json_number 3024);
      ("rawType"%string, Json_string "HDR") ].

(** Sample containers and an ordering of their frames. *)
Definition sampleOrdered : list ContainerFrame :=
  [ {| frameName := "f0"; timestamp := 10; containerIndex := 0 |};
    {| frameName := "f1"; timestamp := 20; containerIndex := 0 |};
    {| frameName := "f2"; timestamp := 30; containerIndex := 0 |};
    {| frameName := "f3"; timestamp := 40; containerIndex := 0 |};
    {| frameName := "f4"; timestamp := 50; containerIndex := 0 |} ].

(** * Part II: properties of the embedding *)

(** ** Comparisons, minimum and maximum *)

Lemma ltb_lt (x y : Q) : Num.ltb x y = true <-> x < y.
Proof.
  unfold Num.ltb. rewrite Qlt_alt.
  destruct (x ?= y); intuition discriminate.
Qed.

Lemma ltb_ge (x y : Q) : Num.ltb x y = false <-> y <= x.
Proof.
  rewrite <- not_true_iff_false, ltb_lt. split.
  - apply Qnot_lt_le.
  - apply Qle_not_lt.
Qed.

Lemma ltb_spec (x y : Q) : reflect (x < y) (Num.ltb x y).
Proof.
  destruct (Num.ltb x y) eqn:E; constructor.
  - now apply ltb_lt.
  - apply Qle_not_lt. now apply ltb_ge.
Qed.

Lemma std_min_spec (a b : Q) :
  (b < a /\ Num.std_min a b = b) \/ (a <= b /\ Num.std_min a b = a).
Proof.
  unfold Num.std_min. destruct (ltb_spec b a) as [H|H].
  - now left.
  - right. split; trivial. now apply Qnot_lt_le.
Qed.

Lemma std_max_spec (a b : Q) :
  (a < b /\ Num.std_max a b = b) \/ (b <= a /\ Num.std_max a b = a).
Proof.
  unfold Num.std_max. destruct (ltb_spec a b) as [H|H].
  - now left.
  - right. split; trivial. now apply Qnot_lt_le.
Qed.

Lemma std_min_Qmin (a b : Q) : Num.std_min a b == Qmin a b.
Proof.
  destruct (std_min_spec a b) as [[H ->]|[H ->]]; symmetry.
  - apply Q.min_r. now apply Qlt_le_weak.
  - now apply Q.min_l.
Qed.

Lemma std_max_Qmax (a b : Q) : Num.std_max a b == Qmax a b.
Proof.
  destruct (std_max_spec a b) as [[H ->]|[H ->]]; symmetry.
  - apply Q.max_r. now apply Qlt_le_weak.
  - now apply Q.max_l.
Qed.

(** The [max(lo, min(x, hi))] idiom of the source is a clamp. *)
Lemma max_min_clamp (lo hi x : Q) :
  Num.std_max lo (Num.std_min x hi) == Num.clamp lo hi x.
Proof.
  unfold Num.clamp. rewrite std_max_Qmax.
  apply Q.max_compat; [reflexivity | apply std_min_Qmin].
Qed.

Lemma max_min_bounds (lo hi x : Q) :
  lo <= hi -> lo <= Num.std_max lo (Num.std_min x hi) <= hi.
Proof.
  intros Hlh.
  destruct (std_min_spec x hi) as [[H ->]|[H ->]];
    [destruct (std_max_spec lo hi) as [[H' ->]|[H' ->]]
    |destruct (std_max_spec lo x) as [[H' ->]|[H' ->]]];
    split; lra.
Qed.

(** ** Floating-point rounding *)

(** Rounding to an integer is off by at most one half. *)
Lemma rne_error (x : Q) : Qabs (inject_Z (IEEE.rne x) - x) <= 1 # 2.
Proof.
  unfold IEEE.rne. pose proof (Qfloor_le x) as Hlo. pose proof (Qlt_floor x) as Hhi.
  rewrite inject_Z_plus in Hhi. change (inject_Z 1) with 1 in Hhi.
  apply Qabs_Qle_condition.
  destruct (Qcompare_spec (x - inject_Z (Qfloor x)) (1 # 2)) as [E|E|E];
    [destruct (Z.even (Qfloor x))| |];
    rewrite ?inject_Z_plus; change (inject_Z 1) with 1; lra.
Qed.

Lemma pow2_pos (e : Z) : 0 < 2 ^ e.
Proof. apply Qpower_0_lt. reflexivity. Qed.

Lemma pow2_add (a b : Z) : 2 ^ (a + b) == 2 ^ a * 2 ^ b.
Proof. apply Qpower_plus. discriminate. Qed.

Lemma pow2_le (a b : Z) : (a <= b)%Z -> 2 ^ a <= 2 ^ b.
Proof. intros H. apply Qpower_le_compat_l; [exact H | lra]. Qed.

Lemma pow2_inject (a : Z) : (0 <= a)%Z -> 2 ^ a == inject_Z (2 ^ a).
Proof. intros H. rewrite Zpower_Qpower by exact H. reflexivity. Qed.

Lemma ilog2_le (x : Q) : ~ x == 0 -> 2 ^ IEEE.ilog2 x <= Qabs x.
Proof.
  intros Hx. unfold IEEE.ilog2.
  destruct (Qle_bool _ _) eqn:E; [now apply Qle_bool_iff in E|].
  destruct x as [n d]. cbn [Qnum Qden Qabs].
  assert (Hn : (0 < Z.abs n)%Z).
  { destruct (Z.eq_dec n 0) as [->|Hn]; [exfalso; apply Hx; reflexivity|lia]. }
  set (a := Z.log2 (Z.abs n)). set (b := Z.log2 (Zpos d)).
  assert (Ha : (0 <= a)%Z) by apply Z.log2_nonneg.
  assert (Hb : (0 <= b)%Z) by apply Z.log2_nonneg.
  destruct (Z.log2_spec (Z.abs n) Hn) as [Ha1 _]. fold a in Ha1.
  destruct (Z.log2_spec (Zpos d) ltac:(lia)) as [_ Hb2]. fold b in Hb2.
  replace (a - b - 1)%Z with (a + - (b + 1))%Z by lia.
  rewrite pow2_add, Qpower_opp, (pow2_inject a Ha), (pow2_inject (b + 1)) by lia.
  rewrite (Qmake_Qdiv (Z.abs n) d).
  rewrite Zle_Qle in Ha1. rewrite Z.add_1_r in *. rewrite Zlt_Qlt in Hb2.
  assert (Hd : 0 < inject_Z (Zpos d)) by (rewrite <- (Zlt_Qlt 0); lia).
  assert (HA : 0 < inject_Z (2 ^ a)).
  { rewrite <- (Zlt_Qlt 0). apply Z.pow_pos_nonneg; lia. }
  set (A := inject_Z (2 ^ a)) in *. set (B := inject_Z (2 ^ Z.succ b)) in *.
  set (N := inject_Z (Z.abs n)) in *. set (D := inject_Z (Zpos d)) in *.
  assert (HB : 0 < B) by lra.
  apply Qle_shift_div_l; [exact Hd|].
  apply Qle_trans with (A * / B * B); [|field_simplify; lra].
  apply Qmult_le_compat_nonneg; split; try lra.
  apply Qmult_le_0_compat; [lra|]. apply Qlt_le_weak, Qinv_lt_0_compat, HB.
Qed.

Lemma round_error (f : IEEE.format) (x : Q) :
  (1 <= IEEE.prec f)%Z -> (3 <= IEEE.emax f)%Z ->
  Qabs x <= 2 ^ (IEEE.emax f - 1) ->
  exists y : Q,
    IEEE.round f x = IEEE.Finite y
    /\ Qabs (y - x) <= 2 ^ (- IEEE.prec f) * Qabs x + 2 ^ (2 - IEEE.emax f - IEEE.prec f).
Proof.
  intros Hp He Hx. unfold IEEE.round.
  pose proof (pow2_pos (- IEEE.prec f)) as HU.
  pose proof (pow2_pos (2 - IEEE.emax f - IEEE.prec f)) as HE.
  pose proof (Qabs_nonneg x) as Hax.
  destruct (Qeq_bool x 0) eqn:E0.
  - apply Qeq_bool_iff in E0. exists 0. split; [reflexivity|].
    setoid_replace (0 - x) with 0 by (rewrite E0; ring).
    change (Qabs 0) with 0.
    apply Qle_trans with (0 + 0); [lra|].
    apply Qplus_le_compat; [apply Qmult_le_0_compat|]; lra.
  - apply Qeq_bool_neq in E0.
    set (e := IEEE.ulp_exponent f x).
    set (m := inject_Z (IEEE.rne (x / 2 ^ e))).
    pose proof (pow2_pos e) as Hs.
    assert (Herr : Qabs (m * 2 ^ e - x) <= 2 ^ (e - 1)).
    { assert (Hx2 : m * 2 ^ e - x == (m - x / 2 ^ e) * 2 ^ e) by (field; lra).
      rewrite Hx2, Qabs_Qmult, (Qabs_pos (2 ^ e)) by lra.
      replace (e - 1)%Z with (-1 + e)%Z by lia. rewrite pow2_add.
      apply Qmult_le_compat_r; [apply rne_error | lra]. }
    assert (Hulp : 2 ^ (e - 1)
                   <= 2 ^ (- IEEE.prec f) * Qabs x + 2 ^ (2 - IEEE.emax f - IEEE.prec f)).
    { unfold e, IEEE.ulp_exponent.
      destruct (Z.max_spec (IEEE.ilog2 x - (IEEE.prec f - 1)) (3 - IEEE.emax f - IEEE.prec f))
        as [[_ ->] | [_ ->]].
      - replace (3 - IEEE.emax f - IEEE.prec f - 1)%Z with (2 - IEEE.emax f - IEEE.prec f)%Z by lia.
        assert (0 <= 2 ^ (- IEEE.prec f) * Qabs x)
          by (apply Qmult_le_0_compat; lra).
        lra.
      - replace (IEEE.ilog2 x - (IEEE.prec f - 1) - 1)%Z with (- IEEE.prec f + IEEE.ilog2 x)%Z by lia.
        rewrite pow2_add.
        apply Qle_trans with (2 ^ (- IEEE.prec f) * Qabs x); [|lra].
        apply Qmult_le_l; [exact HU | apply ilog2_le, E0]. }
    assert (Hy : Qabs (m * 2 ^ e) < 2 ^ IEEE.emax f).
    { assert (H1 : Qabs (m * 2 ^ e) <= Qabs x + Qabs (m * 2 ^ e - x)).
      { setoid_replace (m * 2 ^ e) with (x + (m * 2 ^ e - x)) at 1 by ring.
        apply Qabs_triangle. }
      assert (H2 : 2 ^ (- IEEE.prec f) <= 2 ^ (-1)) by (apply pow2_le; lia).
      assert (H3 : 2 ^ (2 - IEEE.emax f - IEEE.prec f) < 2 ^ (IEEE.emax f - 2))
        by (apply Qpower_lt_compat_l; [lia | lra]).
      assert (H4 : 2 ^ (IEEE.emax f - 1) == 2 * 2 ^ (IEEE.emax f - 2)).
      { replace (IEEE.emax f - 1)%Z with (1 + (IEEE.emax f - 2))%Z by lia.
        now rewrite pow2_add. }
      assert (H5 : 2 ^ IEEE.emax f == 4 * 2 ^ (IEEE.emax f - 2)).
      { replace (IEEE.emax f) with (2 + (IEEE.emax f - 2))%Z at 1 by lia.
        now rewrite pow2_add. }
      assert (H6 : 2 ^ (- IEEE.prec f) * Qabs x <= 2 ^ (-1) * (2 * 2 ^ (IEEE.emax f - 2))).
      { apply Qmult_le_compat_nonneg; split; lra. }
      change (2 ^ (-1)) with (1 # 2) in H6.
      pose proof (pow2_pos (IEEE.emax f - 2)). lra. }
    destruct (Qle_bool (2 ^ IEEE.emax f) (Qabs (m * 2 ^ e))) eqn:Eo.
    + apply Qle_bool_iff in Eo. lra.
    + exists (Qred (m * 2 ^ e)). split; [reflexivity|].
      rewrite Qred_correct. lra.
Qed.

Lemma round32_error (x : Q) :
  Qabs x <= 2 ^ 127 ->
  exists y : Q,
    IEEE.round IEEE.binary32 x = IEEE.Finite y
    /\ Qabs (y - x) <= 2 ^ (-24) * Qabs x + 2 ^ (-150).
Proof. intros H. apply (round_error IEEE.binary32); simpl; try lia; exact H. Qed.

Lemma round64_error (x : Q) :
  Qabs x <= 2 ^ 1023 ->
  exists y : Q,
    IEEE.round IEEE.binary64 x = IEEE.Finite y
    /\ Qabs (y - x) <= 2 ^ (-53) * Qabs x + 2 ^ (-1075).
Proof. intros H. apply (round_error IEEE.binary64); simpl; try lia; exact H. Qed.

Lemma rne_comp (x y : Q) : x == y -> IEEE.rne x = IEEE.rne y.
Proof.
  intros H. unfold IEEE.rne. rewrite (Qfloor_comp _ _ H).
  assert (Hc : (x - inject_Z (Qfloor y) ?= 1 # 2)
               = (y - inject_Z (Qfloor y) ?= 1 # 2))
    by (apply Qcompare_comp; [rewrite H|]; reflexivity).
  rewrite Hc. reflexivity.
Qed.

Lemma rne_Z (k : Z) : IEEE.rne (inject_Z k) = k.
Proof.
  unfold IEEE.rne. rewrite Qfloor_Z.
  assert (Hc : (inject_Z k - inject_Z k ?= 1 # 2) = Lt).
  { rewrite <- Qlt_alt. lra. }
  rewrite Hc. reflexivity.
Qed.

Lemma ilog2_lt (x : Q) (p : Z) : ~ x == 0 -> Qabs x < 2 ^ p -> (IEEE.ilog2 x < p)%Z.
Proof.
  intros Hx Hp. pose proof (ilog2_le x Hx) as Hl.
  apply (Qpower_lt_compat_l_inv 2); lra.
Qed.

Lemma round_Z_exact (f : IEEE.format) (n : Z) :
  (1 <= IEEE.prec f)%Z -> (3 <= IEEE.emax f)%Z -> (IEEE.prec f <= IEEE.emax f)%Z ->
  (Z.abs n < 2 ^ IEEE.prec f)%Z ->
  IEEE.round f (inject_Z n) = IEEE.Finite (Qred (inject_Z n)).
Proof.
  intros Hp He Hpe Hn. unfold IEEE.round.
  destruct (Qeq_bool (inject_Z n) 0) eqn:E0.
  - apply Qeq_bool_iff in E0. change 0 with (inject_Z 0) in E0.
    apply -> inject_Z_injective in E0. subst n. reflexivity.
  - apply Qeq_bool_neq in E0.
    assert (Habs : Qabs (inject_Z n) == inject_Z (Z.abs n)) by reflexivity.
    assert (Hlt : Qabs (inject_Z n) < 2 ^ IEEE.prec f).
    { rewrite Habs, pow2_inject by lia. now rewrite <- Zlt_Qlt. }
    set (e := IEEE.ulp_exponent f (inject_Z n)).
    assert (Hle : (e <= 0)%Z).
    { unfold e, IEEE.ulp_exponent.
      pose proof (ilog2_lt _ _ E0 Hlt). lia. }
    assert (Hq : inject_Z n / 2 ^ e == inject_Z (n * 2 ^ (- e))).
    { rewrite inject_Z_mult, <- (pow2_inject (- e)) by lia.
      rewrite Qpower_opp. reflexivity. }
    rewrite (rne_comp _ _ Hq), rne_Z.
    assert (Hy : inject_Z (n * 2 ^ (- e)) * 2 ^ e == inject_Z n).
    { rewrite inject_Z_mult, <- (pow2_inject (- e)) by lia.
      rewrite Qpower_opp. field. pose proof (pow2_pos e). lra. }
    assert (Ho : Qle_bool (2 ^ IEEE.emax f) (Qabs (inject_Z (n * 2 ^ (- e)) * 2 ^ e))
                 = false).
    { destruct (Qle_bool _ _) eqn:Eo; [|reflexivity].
      apply Qle_bool_iff in Eo. rewrite Hy in Eo.
      pose proof (pow2_le (IEEE.prec f) (IEEE.emax f) Hpe). lra. }
    rewrite Ho. f_equal. apply Qred_complete, Hy.
Qed.

Lemma of_Z32_exact (n : Z) :
  (Z.abs n < 2 ^ 24)%Z -> IEEE.of_Z IEEE.binary32 n = IEEE.Finite (Qred (inject_Z n)).
Proof. intros H. apply round_Z_exact; simpl; lia. Qed.

Lemma of_Z64_exact (n : Z) :
  (Z.abs n < 2 ^ 53)%Z -> IEEE.of_Z IEEE.binary64 n = IEEE.Finite (Qred (inject_Z n)).
Proof. intros H. apply round_Z_exact; simpl; lia. Qed.

Lemma Qabs_le_iff (x y r : Q) : Qabs (x - y) <= r <-> y - r <= x <= y + r.
Proof. rewrite Qabs_Qle_condition. split; intros [H1 H2]; split; lra. Qed.

(** |N/d - N/D| <= 2u (N/D) when d is within uD of D. *)
Lemma div_error (N D d u : Q) :
  0 <= N -> 0 < D -> 0 <= u <= 1 # 4 ->
  Qabs (d - D) <= u * D ->
  0 < d /\ Qabs (N / d - N / D) <= 2 * u * (N / D).
Proof.
  intros HN HD [Hu0 Hu1] Hd. apply Qabs_le_iff in Hd.
  assert (HuD : 0 <= ((1 # 4) - u) * D) by (apply Qmult_le_0_compat; lra).
  assert (Hd0 : 0 < d) by lra.
  split; [exact Hd0|].
  set (S := N / D).
  assert (HS : 0 <= S) by (apply Qle_shift_div_l; lra).
  assert (HSD : N == S * D) by (unfold S; field; lra).
  assert (Hgoal : Qabs (N / d - S) <= 2 * u * S); [|exact Hgoal].
  clearbody S.
  assert (H1 : 0 <= (S - 2 * u * S) * (D + u * D - d)).
  { apply Qmult_le_0_compat; [|lra].
    assert (0 <= S * (1 - 2 * u)) by (apply Qmult_le_0_compat; lra). lra. }
  assert (H2 : 0 <= (S + 2 * u * S) * (d - (D - u * D))).
  { apply Qmult_le_0_compat; [|lra].
    assert (0 <= S * (2 * u)) by (apply Qmult_le_0_compat; lra). lra. }
  assert (H3 : 0 <= S * D * u) by (repeat apply Qmult_le_0_compat; lra).
  assert (H4 : 0 <= S * D * u * u) by (repeat apply Qmult_le_0_compat; lra).
  assert (H5 : 0 <= S * D * u * (1 - 2 * u)) by (repeat apply Qmult_le_0_compat; lra).
  apply Qabs_le_iff. split.
  - apply Qle_shift_div_l; [exact Hd0|]. rewrite HSD. lra.
  - apply Qle_shift_div_r; [exact Hd0|]. rewrite HSD. lra.
Qed.

(** |p s - P S| <= dp * sm + |P| * ds *)
Lemma mul_error (p P s S dp ds sm : Q) :
  Qabs (p - P) <= dp -> Qabs (s - S) <= ds -> Qabs s <= sm ->
  Qabs (p * s - P * S) <= dp * sm + Qabs P * ds.
Proof.
  intros Hp Hs Hsm.
  setoid_replace (p * s - P * S) with ((p - P) * s + P * (s - S)) by ring.
  eapply Qle_trans; [apply Qabs_triangle|]. rewrite !Qabs_Qmult.
  pose proof (Qabs_nonneg (p - P)). pose proof (Qabs_nonneg s).
  pose proof (Qabs_nonneg P). pose proof (Qabs_nonneg (s - S)).
  apply Qplus_le_compat; apply Qmult_le_compat_nonneg; split; lra.
Qed.

Lemma eta32_small : 0 < eta32 /\ eta32 <= 1 # 1000000000000000000.
Proof. split; vm_compute; reflexivity || discriminate. Qed.

Lemma Qabs_bound (x b : Q) : - b <= x <= b -> Qabs x <= b.
Proof. intros H. now apply Qabs_Qle_condition. Qed.

Lemma Qabs_lower (x : Q) : - Qabs x <= x <= Qabs x.
Proof. apply Qabs_Qle_condition. lra. Qed.

Section QuantizeChain.
Variables ER bl wl a v0 p d s t r : Q.
Hypothesis HER : 0 <= ER <= 65535.
Hypothesis Hbl : 0 <= bl.
Hypothesis Hwl : wl <= 65535.
Hypothesis HD : 1 <= wl - bl.
Hypothesis HS : ER <= 32 * (wl - bl).
Hypothesis Ha : 0 <= a <= 65535.
Hypothesis Hv : Qabs (v0 - a) <= 1 # 256.
Hypothesis Hp : Qabs (p - (v0 + - bl)) <= u32 * Qabs (v0 + - bl) + eta32.
Hypothesis Hd : Qabs (d - (wl + - bl)) <= u32 * Qabs (wl + - bl) + eta32.
Hypothesis Hs : Qabs (s - ER / d) <= u32 * Qabs (ER / d) + eta32.
Hypothesis Ht : Qabs (t - p * s) <= u32 * Qabs (p * s) + eta32.
Hypothesis Hr : Qabs (r - (t + (1 # 2))) <= u32 * Qabs (t + (1 # 2)) + eta32.

Let D := wl - bl.
Let S := ER / D.
Let P := a - bl.
Let E := P * S.

Lemma chain_d : 0 < d /\ Qabs (ER / d - S) <= 4 * u32 * S /\ 0 <= S <= 32.
Proof.
  destruct eta32_small as [He0 He1].
  assert (HDabs : Qabs (wl + - bl) == D).
  { unfold D. rewrite Qabs_pos by lra. ring. }
  rewrite HDabs in Hd.
  assert (Hd' : Qabs (d - D) <= (2 * u32) * D).
  { setoid_replace (wl + - bl) with D in Hd by (unfold D; ring).
    unfold u32 in *. unfold D in *. lra. }
  destruct (div_error ER D d (2 * u32)) as [Hd0 Hq];
    [lra | unfold D; lra | unfold u32; lra | exact Hd' |].
  split; [exact Hd0|]. split.
  - fold S in Hq. lra.
  - unfold S. split.
    + apply Qle_shift_div_l; unfold D; lra.
    + apply Qle_shift_div_r; unfold D; lra.
Qed.

Lemma chain_s : Qabs (s - S) <= 6 * u32 * S + eta32 /\ Qabs s <= 33.
Proof.
  destruct eta32_small as [He0 He1].
  destruct chain_d as (Hd0 & Hq & HS0 & HS1).
  assert (Hq' := Hq). apply Qabs_le_iff in Hq'.
  assert (HSu : 0 <= u32 * S) by (apply Qmult_le_0_compat; [unfold u32|]; lra).
  assert (Hqabs : Qabs (ER / d) <= S + 4 * u32 * S).
  { apply Qabs_bound. lra. }
  assert (Huq : u32 * Qabs (ER / d) <= 2 * (u32 * S)).
  { assert (u32 * Qabs (ER / d) <= u32 * (S + 4 * u32 * S))
      by (apply Qmult_le_l; [reflexivity | exact Hqabs]).
    assert (0 <= u32 * S * ((1#4) - u32))
      by (apply Qmult_le_0_compat; [|unfold u32]; lra).
    unfold u32 in *. lra. }
  assert (H1 : Qabs (s - S) <= 6 * u32 * S + eta32).
  { setoid_replace (s - S) with ((s - ER / d) + (ER / d - S)) by ring.
    eapply Qle_trans; [apply Qabs_triangle|]. lra. }
  split; [exact H1|].
  apply Qabs_le_iff in H1. apply Qabs_bound. unfold u32 in *. lra.
Qed.

Lemma chain_p : Qabs (p - P) <= 1 # 127 /\ Qabs P <= 65535.
Proof.
  destruct eta32_small as [He0 He1].
  apply Qabs_le_iff in Hv.
  assert (Hb : Qabs (v0 + - bl) <= 65536).
  { apply Qabs_bound. lra. }
  assert (Hu : u32 * Qabs (v0 + - bl) <= 1 # 256).
  { setoid_replace (1 # 256) with (u32 * 65536) by reflexivity.
    apply Qmult_le_l; [reflexivity | exact Hb]. }
  split.
  - apply Qabs_le_iff in Hp. apply Qabs_le_iff. unfold P. lra.
  - apply Qabs_bound. unfold P. lra.
Qed.

Lemma chain_r :
  Qabs (r - (E + (1 # 2))) <= (3 # 10) + (1 # 1000000) * Qabs E.
Proof.
  destruct eta32_small as [He0 He1].
  destruct chain_d as (Hd0 & _ & HS0 & HS1).
  destruct chain_s as (Hs1 & Hs2).
  destruct chain_p as (Hp1 & Hp2).
  assert (HE : Qabs E == Qabs P * S).
  { unfold E. rewrite Qabs_Qmult, (Qabs_pos S) by lra. reflexivity. }
  pose proof (Qabs_nonneg P) as HP0.
  pose proof (Qabs_nonneg E) as HE0.
  assert (Hps : Qabs (p * s - E)
                <= (1 # 127) * 33 + Qabs P * (6 * u32 * S + eta32)).
  { unfold E. now apply mul_error. }
  assert (Hpe : Qabs P * eta32 <= 65535 * eta32)
    by (apply Qmult_le_compat_r; lra).
  assert (Hps' : Qabs (p * s - E) <= (27 # 100) + 6 * u32 * Qabs E).
  { rewrite HE.
    setoid_replace (Qabs P * (6 * u32 * S + eta32))
      with (6 * u32 * (Qabs P * S) + Qabs P * eta32) in Hps by ring.
    unfold u32 in *. lra. }
  assert (Hpsabs : Qabs (p * s) <= Qabs E + (27 # 100) + 6 * u32 * Qabs E).
  { setoid_replace (p * s) with (E + (p * s - E)) at 1 by ring.
    eapply Qle_trans; [apply Qabs_triangle|]. lra. }
  assert (Hups : u32 * Qabs (p * s)
                 <= u32 * (Qabs E + (27 # 100) + 6 * u32 * Qabs E))
    by (apply Qmult_le_l; [reflexivity | exact Hpsabs]).
  assert (Hte : Qabs (t - E) <= (28 # 100) + 8 * u32 * Qabs E).
  { setoid_replace (t - E) with ((t - p * s) + (p * s - E)) by ring.
    eapply Qle_trans; [apply Qabs_triangle|]. unfold u32 in *. lra. }
  assert (Htabs : Qabs (t + (1 # 2)) <= Qabs E + 1 + 8 * u32 * Qabs E).
  { setoid_replace (t + (1 # 2)) with (E + ((t - E) + (1 # 2))) by ring.
    eapply Qle_trans; [apply Qabs_triangle|].
    assert (Qabs (t - E + (1 # 2)) <= Qabs (t - E) + (1 # 2)).
    { eapply Qle_trans; [apply Qabs_triangle|]. rewrite (Qabs_pos (1 # 2)); lra. }
    lra. }
  assert (Hut : u32 * Qabs (t + (1 # 2))
                <= u32 * (Qabs E + 1 + 8 * u32 * Qabs E))
    by (apply Qmult_le_l; [reflexivity | exact Htabs]).
  setoid_replace (r - (E + (1 # 2))) with ((r - (t + (1 # 2))) + (t - E)) by ring.
  eapply Qle_trans; [apply Qabs_triangle|]. unfold u32 in *. lra.
Qed.

End QuantizeChain.

(** ** Exposure value *)

(** C10: for every frame metadata the computed EV is
    [log2(a^2 / seconds) - log2(iso / 100)], where [a] is the first aperture
    of the camera when its aperture list is not empty and 1.8 otherwise; the
    computation always yields a value, also for an empty aperture list. *)
Theorem calcEv_formula {L : Libm} (cameraMetadata : RawCameraMetadata)
  (metadata : RawImageMetadata) :
  calcEv cameraMetadata metadata =
  Some (exposureValue (hd 1.8 (apertures cameraMetadata))
          (inject_Z (exposureTime metadata) / 1000000000)
          (inject_Z (iso metadata))).
Proof.
  unfold calcEv, exposureValue.
  destruct (apertures cameraMetadata) as [|a rest]; simpl; reflexivity.
Qed.

Lemma calcEv_empty_apertures {L : Libm} (cameraMetadata : RawCameraMetadata)
  (metadata : RawImageMetadata) :
  apertures cameraMetadata = [] ->
  calcEv cameraMetadata metadata =
  Some (exposureValue 1.8 (inject_Z (exposureTime metadata) / 1000000000)
          (inject_Z (iso metadata))).
Proof.
  intros E. unfold calcEv, exposureValue. rewrite E. reflexivity.
Qed.

(** ** Shadow estimation *)

(** C8: for every histogram and EV the estimated shadow lift is
    [pow(2, keyValue / avgLuminance)] clamped to [[1, 32]], with
    [keyValue = 1.03 - 6 / (6 + log10(10^EV + 1))]; so the estimate lies in
    [[1, 32]]. *)
Theorem estimateShadows_clamped {L : Libm} (histogram : list Q) (ev : Q)
  (nightMode : bool) :
  let keyValue := getShadowKeyValue ev nightMode in
  keyValue = 1.03 - 6 / (6 + log10 (pow 10 ev + 1))
  /\ estimateShadows histogram keyValue
     == Num.clamp 1 32 (pow 2 (keyValue / avgLuminance histogram))
  /\ 1 <= estimateShadows histogram keyValue <= 32.
Proof.
  intros keyValue. split; [reflexivity|]. split.
  - unfold estimateShadows. apply max_min_clamp.
  - unfold estimateShadows. apply max_min_bounds. lra.
Qed.

(** Whatever key value is passed, the shadow estimate stays in range. *)
Lemma estimateShadows_range {L : Libm} (histogram : list Q) (keyValue : Q) :
  1 <= estimateShadows histogram keyValue <= 32.
Proof.
  unfold estimateShadows. apply max_min_bounds. lra.
Qed.

(** ** Denoise-weight selection *)

Lemma Qabs_cases (x : Q) :
  (0 <= x /\ Qabs x == x) \/ (x <= 0 /\ Qabs x == - x).
Proof.
  destruct (Qlt_le_dec x 0) as [H|H].
  - right. split; [lra|]. apply Qabs_neg. lra.
  - left. split; trivial. now apply Qabs_pos.
Qed.

(** Replace every absolute value of the goal by its two linear cases. *)
Ltac qabs_cases :=
  repeat match goal with
         | |- context [Qabs ?x] =>
             let E := fresh "E" in
             let S := fresh "S" in
             let q := fresh "q" in
             destruct (Qabs_cases x) as [[S E]|[S E]];
             revert E; generalize (Qabs x); intros q E
         end;
  intros.

(** Case analysis on an index of the six-entry table: [tac] is run for each
    entry, and an index past the table is refuted by its bound. *)
Tactic Notation "each_entry" ident(i) tactic3(tac) :=
  destruct i as [|i]; [tac|
  destruct i as [|i]; [tac|
  destruct i as [|i]; [tac|
  destruct i as [|i]; [tac|
  destruct i as [|i]; [tac|
  destruct i as [|i]; [tac|try lia]]]]]].

(** Compare distances to concrete entries of the table. *)
Ltac table_distances :=
  first [ lia | unfold signalDistance; simpl nth; qabs_cases; try lra ].

Lemma nearest_fold (s init : Q) (w0 k : nat) :
  NearestState s init w0 k
    (fold_left (nearest_step s) (seq 0 k) (init, w0)).
Proof.
  induction k as [|k IH].
  - apply nearest_untouched. intros i Hi. lia.
  - rewrite seq_S, fold_left_app. simpl.
    destruct IH as [Hall | w Hw Hlt Hmin Hfirst];
      unfold nearest_step; fold (signalDistance s k).
    + destruct (ltb_spec (signalDistance s k) init) as [Hk|Hk].
      * apply nearest_updated; trivial; [lia| |].
        -- intros i Hi. destruct (Nat.eq_dec i k) as [->|Hne]; [lra|].
           assert (Hik : (i < k)%nat) by lia. specialize (Hall i Hik). lra.
        -- intros i Hi. specialize (Hall i Hi). lra.
      * apply nearest_untouched.
        intros i Hi. destruct (Nat.eq_dec i k) as [->|Hne]; [lra|].
        apply Hall. lia.
    + destruct (ltb_spec (signalDistance s k) (signalDistance s w)) as [Hk|Hk].
      * apply nearest_updated; [lia|lra| |].
        -- intros i Hi. destruct (Nat.eq_dec i k) as [->|Hne]; [lra|].
           assert (Hik : (i < k)%nat) by lia. specialize (Hmin i Hik). lra.
        -- intros i Hi. specialize (Hmin i Hi). lra.
      * apply nearest_updated; trivial; [lia|].
        intros i Hi. destruct (Nat.eq_dec i k) as [->|Hne]; [lra|].
        apply Hmin. lia.
Qed.

Lemma estimateDenoiseWeights_state (s : Q) :
  NearestState s 100000 5 6
    (fold_left (nearest_step s) (seq 0 (List.length WEIGHTS))
       (100000, (List.length WEIGHTS - 1)%nat)).
Proof. exact (nearest_fold s 100000 5 6). Qed.

(** The index the loop ends with is inside the table. *)
Lemma estimateDenoiseWeights_index_bound (s : Q) :
  (estimateDenoiseWeights_index s < 6)%nat.
Proof.
  unfold estimateDenoiseWeights_index.
  destruct (estimateDenoiseWeights_state s); simpl; lia.
Qed.

(** For a level that is not far below the table (within 100000 of its lowest
    entry), the loop ends at a nearest entry, the first of them. *)
Lemma estimateDenoiseWeights_index_nearest (s : Q) :
  0.0001 - 100000 < s ->
  let w := estimateDenoiseWeights_index s in
  (forall j, (j < 6)%nat -> signalDistance s w <= signalDistance s j)
  /\ (forall j, (j < w)%nat -> signalDistance s w < signalDistance s j).
Proof.
  intros Hs w. unfold w, estimateDenoiseWeights_index.
  destruct (estimateDenoiseWeights_state s) as [Hall | w' Hw Hlt Hmin Hfirst];
    simpl.
  - assert (H0 := Hall 0%nat ltac:(lia)).
    assert (H5 := Hall 5%nat ltac:(lia)).
    split; intros j Hj.
    + revert H0 H5. each_entry j table_distances.
    + revert H0 H5. each_entry j table_distances.
  - now split.
Qed.

(** A level so far below the table that no entry is within 100000 leaves the
    loop at its initial index, the last row. *)
Lemma estimateDenoiseWeights_far_below (s : Q) :
  s <= 0.0001 - 100000 -> estimateDenoiseWeights s = [1; 1; 0; 0].
Proof.
  intros Hs. unfold estimateDenoiseWeights, estimateDenoiseWeights_index.
  destruct (estimateDenoiseWeights_state s) as [Hall | w Hw Hlt Hmin Hfirst];
    simpl; [reflexivity|].
  exfalso. revert Hlt. clear Hmin Hfirst. each_entry w table_distances.
Qed.

Lemma WEIGHTS_attenuation (r : list Q) :
  In r WEIGHTS ->
  attenuates_more [12; 4; 2; 1] r /\ attenuates_more r [1; 1; 0; 0].
Proof.
  unfold WEIGHTS. simpl.
  intros [<-|[<-|[<-|[<-|[<-|[<-|[]]]]]]];
    split; repeat constructor; lra.
Qed.

(** C5: for every normalized signal level (a level that is not negative)
    strictly below the lowest entry of the signal-level table the automatic
    selection returns the highest-attenuation row of the 6x4 weight table,
    strictly above the highest entry it returns the lowest-attenuation row,
    and in general it returns the row of a nearest table entry. *)
Theorem estimateDenoiseWeights_nearest (signalLevel : Q) :
  0 <= signalLevel ->
  (signalLevel < 0.0001 -> estimateDenoiseWeights signalLevel = [12; 4; 2; 1])
  /\ (0.05 < signalLevel -> estimateDenoiseWeights signalLevel = [1; 1; 0; 0])
  /\ (exists w,
         (w < 6)%nat
         /\ estimateDenoiseWeights signalLevel = nth w WEIGHTS []
         /\ forall j, (j < 6)%nat ->
                      signalDistance signalLevel w
                      <= signalDistance signalLevel j)
  /\ (forall r, In r WEIGHTS ->
                attenuates_more [12; 4; 2; 1] r
                /\ attenuates_more r [1; 1; 0; 0]).
Proof.
  intros Hs.
  assert (Hnear : 0.0001 - 100000 < signalLevel) by lra.
  destruct (estimateDenoiseWeights_index_nearest signalLevel Hnear)
    as [Hmin Hfirst].
  assert (Hw := estimateDenoiseWeights_index_bound signalLevel).
  unfold estimateDenoiseWeights.
  cbv zeta in Hmin, Hfirst. revert Hmin Hfirst Hw.
  generalize (estimateDenoiseWeights_index signalLevel) as w.
  intros w Hmin Hfirst Hw.
  repeat split.
  - intros Hlow.
    assert (H0 := Hmin 0%nat ltac:(lia)).
    revert H0. clear Hmin Hfirst.
    each_entry w (try reflexivity; table_distances).
  - intros Hhigh.
    assert (H5 := Hmin 5%nat ltac:(lia)).
    revert H5. clear Hmin Hfirst.
    each_entry w (try reflexivity; table_distances).
  - exists w. now repeat split.
  - now apply WEIGHTS_attenuation.
  - now apply WEIGHTS_attenuation.
Qed.

Lemma estimateDenoiseWeights_nearest_witness :
  estimateDenoiseWeights 0.00005 = [12; 4; 2; 1]
  /\ estimateDenoiseWeights 0.06 = [1; 1; 0; 0].
Proof.
  split.
  - apply (estimateDenoiseWeights_nearest 0.00005); lra.
  - apply (estimateDenoiseWeights_nearest 0.06); lra.
Defined.

(** ** The input of the spatial denoiser *)

Lemma trunc_nonneg (x : Q) : 0 <= x -> Num.trunc x = Qfloor x.
Proof.
  intros H. unfold Num.trunc.
  destruct (ltb_spec x 0) as [H'|H']; [lra|reflexivity].
Qed.

Lemma IEEE_std_min_Finite (a b : Q) :
  IEEE.std_min (IEEE.Finite a) (IEEE.Finite b) = IEEE.Finite (Num.std_min a b).
Proof.
  unfold IEEE.std_min, Num.std_min. cbn [IEEE.ltb].
  destruct (Num.ltb b a); reflexivity.
Qed.

Lemma IEEE_std_max_Finite (a b : Q) :
  IEEE.std_max (IEEE.Finite a) (IEEE.Finite b) = IEEE.Finite (Num.std_max a b).
Proof.
  unfold IEEE.std_max, Num.std_max. cbn [IEEE.ltb].
  destruct (Num.ltb a b); reflexivity.
Qed.

(** The last step: a value within 3/10 (and a millionth of its size) of
    [E + 1/2], clamped and truncated, is within one of [E] clamped. *)
Lemma quantize_near (ER : Z) (hi E r : Q) :
  (0 <= ER <= 65535)%Z ->
  hi == inject_Z ER ->
  Qabs (r - (E + (1 # 2))) <= (3 # 10) + (1 # 1000000) * Qabs E ->
  let out := Num.to_uint16 (Num.std_max 0 (Num.std_min r hi)) in
  (0 <= out <= ER)%Z
  /\ Qabs (inject_Z out - Num.clamp 0 (inject_Z ER) E) < 1.
Proof.
  intros [Hlo Hhi] Hhi' Hr out.
  assert (HERlo : 0 <= inject_Z ER) by (rewrite <- (Zle_Qle 0); exact Hlo).
  assert (HERhi : inject_Z ER <= 65535)
    by (change 65535 with (inject_Z 65535); rewrite <- Zle_Qle; exact Hhi).
  set (c := Num.std_max 0 (Num.std_min r hi)) in *.
  assert (Hc : 0 <= c <= hi) by (apply max_min_bounds; lra).
  assert (Hclamp : c == Qmax 0 (Qmin r hi)) by apply max_min_clamp.
  pose proof (Qfloor_le c) as Hf1. pose proof (Qlt_floor c) as Hf2.
  rewrite inject_Z_plus in Hf2. change (inject_Z 1) with 1 in Hf2.
  assert (Hf0 : (0 <= Qfloor c)%Z).
  { change 0%Z with (Qfloor 0). apply Qfloor_resp_le. lra. }
  assert (Hf3 : (Qfloor c <= ER)%Z).
  { rewrite <- (Qfloor_Z ER). apply Qfloor_resp_le. lra. }
  assert (Hout : out = Qfloor c).
  { unfold out, Num.to_uint16. rewrite trunc_nonneg by lra.
    apply Z.mod_small. lia. }
  rewrite Hout. split; [lia|].
  unfold Num.clamp.
  apply Qabs_le_iff in Hr.
  destruct (Q.min_spec r hi) as [[Hm1 Hm2]|[Hm1 Hm2]];
    rewrite Hm2 in Hclamp;
    [destruct (Q.max_spec 0 r) as [[Hx1 Hx2]|[Hx1 Hx2]]
    |destruct (Q.max_spec 0 hi) as [[Hx1 Hx2]|[Hx1 Hx2]]];
    rewrite Hx2 in Hclamp;
    (destruct (Q.min_spec E (inject_Z ER)) as [[He1 He2]|[He1 He2]];
     rewrite He2;
     [destruct (Q.max_spec 0 E) as [[Hy1 Hy2]|[Hy1 Hy2]]
     |destruct (Q.max_spec 0 (inject_Z ER)) as [[Hy1 Hy2]|[Hy1 Hy2]]];
     rewrite Hy2;
     apply Qabs_Qlt_condition;
     (destruct (Qlt_le_dec E 0) as [Hs|Hs];
      [rewrite (Qabs_neg E) in Hr by lra | rewrite (Qabs_pos E) in Hr by lra];
      split; lra)).
Qed.

(** A pixel value stored for the wavelet stage is within one of its exact
    normalized value. *)
Lemma normalizePixel_near {C : Config} (v0 a : Q) (blackLevel : list Q)
  (whiteLevel : Q) (c : Z) :
  let bl := nth (Z.to_nat c) blackLevel 0 in
  (0 <= EXPANDED_RANGE <= 65535)%Z ->
  0 <= bl -> whiteLevel <= 65535 -> 1 <= whiteLevel - bl ->
  inject_Z EXPANDED_RANGE <= 32 * (whiteLevel - bl) ->
  0 <= a <= 65535 ->
  Qabs (v0 - a) <= 1 # 256 ->
  let out := normalizePixel (IEEE.Finite v0) blackLevel whiteLevel c in
  (0 <= out <= EXPANDED_RANGE)%Z
  /\ Qabs (inject_Z out - normalizedValue a bl whiteLevel) < 1.
Proof.
  intros bl HER Hbl Hwl HD HS Ha Hv out.
  assert (Hbig : forall x, Qabs x <= 4294967296 -> Qabs x <= 2 ^ 127).
  { intros x Hx. eapply Qle_trans; [exact Hx|]. vm_compute. discriminate. }
  assert (HERlo : 0 <= inject_Z EXPANDED_RANGE)
    by (rewrite <- (Zle_Qle 0); lia).
  assert (HERhi : inject_Z EXPANDED_RANGE <= 65535)
    by (change 65535 with (inject_Z 65535); rewrite <- Zle_Qle; lia).
  set (ER := Qred (inject_Z EXPANDED_RANGE)).
  assert (HERq : ER == inject_Z EXPANDED_RANGE) by apply Qred_correct.
  assert (Hv' := Hv). apply Qabs_le_iff in Hv'.
  destruct (round32_error (v0 + - bl)) as (p & Ep & Hp).
  { apply Hbig, Qabs_bound. fold bl. lra. }
  destruct (round32_error (whiteLevel + - bl)) as (d & Ed & Hd).
  { apply Hbig, Qabs_bound. lra. }
  assert (Hchain_d := chain_d ER bl whiteLevel d).
  destruct Hchain_d as (Hd0 & Hq & HS0 & HS1);
    [rewrite HERq; lra | exact HD | rewrite HERq; exact HS | exact Hd |].
  destruct (round32_error (ER / d)) as (s & Es & Hs).
  { apply Hbig, Qabs_bound. apply Qabs_le_iff in Hq. unfold u32 in Hq.
    split; lra. }
  assert (Hchain_s := chain_s ER bl whiteLevel d s).
  destruct Hchain_s as (Hs1 & Hs2);
    [rewrite HERq; lra | exact HD | rewrite HERq; exact HS
    | exact Hd | exact Hs |].
  assert (Hchain_p := chain_p ER bl whiteLevel a v0 p).
  destruct Hchain_p as (Hp1 & Hp2);
    [rewrite HERq; lra | exact Hbl | exact Hwl | rewrite HERq; exact HS
    | exact Ha | exact Hv | exact Hp |].
  destruct (round32_error (p * s)) as (t & Et & Ht).
  { apply Hbig. rewrite Qabs_Qmult.
    assert (Hpabs : Qabs p <= 65536).
    { apply Qabs_le_iff in Hp1. apply Qabs_Qle_condition in Hp2.
      apply Qabs_bound. lra. }
    apply Qle_trans with (65536 * 33); [|lra].
    apply Qmult_le_compat_nonneg; split;
      first [apply Qabs_nonneg | assumption]. }
  destruct (round32_error (t + 0.5)) as (r & Er & Hr).
  { setoid_replace (t + 0.5) with (t + (1 # 2)) by ring. apply Hbig.
    assert (Hpsabs : Qabs (p * s) <= 65536 * 33).
    { rewrite Qabs_Qmult.
      assert (Hpabs : Qabs p <= 65536).
      { apply Qabs_le_iff in Hp1. apply Qabs_Qle_condition in Hp2.
        apply Qabs_bound. lra. }
      apply Qmult_le_compat_nonneg; split;
        first [apply Qabs_nonneg | assumption]. }
    assert (Hueta := eta32_small).
    assert (Hups : u32 * Qabs (p * s) <= u32 * (65536 * 33))
      by (apply Qmult_le_l; [reflexivity | exact Hpsabs]).
    apply Qabs_le_iff in Ht. apply Qabs_Qle_condition in Hpsabs.
    apply Qabs_bound. unfold u32 in *. lra. }
  setoid_replace (t + 0.5) with (t + (1 # 2)) in Hr by ring.
  assert (Hchain := chain_r ER bl whiteLevel a v0 p d s t r).
  assert (Hfinal :
            Qabs (r - ((a - bl) * (ER / (whiteLevel - bl)) + (1 # 2)))
            <= (3 # 10)
               + (1 # 1000000) * Qabs ((a - bl) * (ER / (whiteLevel - bl)))).
  { apply Hchain; try assumption; rewrite ?HERq; try assumption; lra. }
  assert (Hd1 : Qeq_bool d 0 = false).
  { destruct (Qeq_bool d 0) eqn:E0; [|reflexivity].
    apply Qeq_bool_iff in E0. lra. }
  assert (Hout : out
                 = Num.to_uint16 (Num.std_max 0 (Num.std_min r ER))).
  { unfold out, normalizePixel. fold bl.
    unfold IEEE.sub. cbn [IEEE.opp IEEE.add].
    rewrite Ep, Ed. rewrite of_Z32_exact by lia. fold ER.
    cbn [IEEE.div]. rewrite Hd1, Es. cbn [IEEE.mul]. rewrite Et.
    cbn [IEEE.add]. rewrite Er.
    rewrite IEEE_std_min_Finite, IEEE_std_max_Finite. reflexivity. }
  rewrite Hout.
  destruct (quantize_near EXPANDED_RANGE ER
              ((a - bl) * (ER / (whiteLevel - bl))) r HER HERq Hfinal)
    as [Hrange Hnear].
  split; [exact Hrange|].
  unfold normalizedValue, rescaled.
  assert (HE : (a - bl) * (inject_Z EXPANDED_RANGE / (whiteLevel - bl))
               == (a - bl) * (ER / (whiteLevel - bl)))
    by (rewrite HERq; reflexivity).
  unfold Num.clamp in *. rewrite HE. exact Hnear.
Qed.

(** With exactly one frame in [processFrames] the reference branch is
    taken as well: the accumulator is not read. *)
Lemma denoiseInput_single_frame {C : Config} (name : string) (reference : Buffer Z)
  (fuseOutput : Buffer Q) (blackLevel : list Q) (whiteLevel : Q) (x y c : Z) :
  buf_at (denoiseInput [name] reference fuseOutput blackLevel whiteLevel) x y c
  = normalizePixel (IEEE.of_Z IEEE.binary32 (buf_at reference x y c))
      blackLevel whiteLevel c.
Proof. unfold denoiseInput. simpl. reflexivity. Qed.

(** The value handed to [normalizePixel] on either branch is within
    [2^-8] of the exact one. *)
Lemma reference_pixel_exact (v : Z) :
  (0 <= v <= 65535)%Z ->
  exists v0 : Q,
    IEEE.of_Z IEEE.binary32 v = IEEE.Finite v0
    /\ Qabs (v0 - inject_Z v) <= 1 # 256.
Proof.
  intros Hv. exists (Qred (inject_Z v)). split; [apply of_Z32_exact; lia|].
  rewrite Qred_correct. setoid_replace (inject_Z v - inject_Z v) with 0 by ring.
  discriminate.
Qed.

Lemma averaged_pixel_near (fuse : Q) (n : nat) :
  (0 < n)%nat -> (Z.of_nat n < 2 ^ 24)%Z ->
  0 <= fuse <= 65535 * inject_Z (Z.of_nat n) ->
  exists v0 : Q,
    IEEE.div IEEE.binary32 (IEEE.Finite fuse)
      (IEEE.of_Z IEEE.binary32 (Z.of_nat n)) = IEEE.Finite v0
    /\ 0 <= fuse / inject_Z (Z.of_nat n) <= 65535
    /\ Qabs (v0 - fuse / inject_Z (Z.of_nat n)) <= 1 # 256.
Proof.
  intros Hn Hn24 Hfuse.
  assert (Hnq : 0 < inject_Z (Z.of_nat n)) by (rewrite <- (Zlt_Qlt 0); lia).
  set (nq := Qred (inject_Z (Z.of_nat n))).
  assert (Hnq' : nq == inject_Z (Z.of_nat n)) by apply Qred_correct.
  assert (Ha : 0 <= fuse / inject_Z (Z.of_nat n) <= 65535).
  { split; [apply Qle_shift_div_l | apply Qle_shift_div_r]; lra. }
  rewrite of_Z32_exact by lia. fold nq. cbn [IEEE.div].
  assert (Hn0 : Qeq_bool nq 0 = false).
  { destruct (Qeq_bool nq 0) eqn:E0; [|reflexivity].
    apply Qeq_bool_iff in E0. lra. }
  rewrite Hn0.
  assert (Heq : fuse / nq == fuse / inject_Z (Z.of_nat n))
    by (rewrite Hnq'; reflexivity).
  destruct (round32_error (fuse / nq)) as (v0 & Ev & Hv).
  { rewrite Heq. eapply Qle_trans; [apply Qabs_bound|].
    - instantiate (1 := 65535). lra.
    - vm_compute. discriminate. }
  exists v0. split; [exact Ev|]. split; [exact Ha|].
  rewrite Heq in Hv.
  assert (Habs : Qabs (fuse / inject_Z (Z.of_nat n)) <= 65535)
    by (apply Qabs_bound; lra).
  assert (Hu : u32 * Qabs (fuse / inject_Z (Z.of_nat n)) <= u32 * 65535)
    by (apply Qmult_le_l; [reflexivity | exact Habs]).
  destruct eta32_small as [_ He].
  eapply Qle_trans; [exact Hv|]. unfold u32 in *. lra.
Qed.

(** C2 (as amended): with at least two companion frames each output pixel is
    the accumulated sum divided by the number of companion frames,
    black-level-subtracted and rescaled into the output range in single
    precision, rounded and clamped: an integer in [[0, EXPANDED_RANGE]] that
    differs by less than 1 from the exact normalized value
    [clamp((sum / n - blackLevel) * EXPANDED_RANGE / (whiteLevel -
    blackLevel), 0, EXPANDED_RANGE)]; with no companion frame the same holds
    for the reference pixel.  The data is 16-bit: pixel values, levels and
    [EXPANDED_RANGE] lie in [[0, 65535]], the white level is at least one
    above the black level and the rescaling factor is at most 32. *)
Theorem denoiseInput_value {C : Config} (processFrames : list string)
  (reference : Buffer Z) (fuseOutput : Buffer Q) (blackLevel : list Q)
  (whiteLevel : Q) (x y c : Z) :
  let bl := nth (Z.to_nat c) blackLevel 0 in
  let out :=
    buf_at (denoiseInput processFrames reference fuseOutput blackLevel whiteLevel)
      x y c in
  let n := inject_Z (Z.of_nat (List.length processFrames)) in
  (0 <= EXPANDED_RANGE <= 65535)%Z ->
  0 <= bl -> whiteLevel <= 65535 -> 1 <= whiteLevel - bl ->
  inject_Z EXPANDED_RANGE <= 32 * (whiteLevel - bl) ->
  (processFrames = [] ->
   (0 <= buf_at reference x y c <= 65535)%Z ->
   (0 <= out <= EXPANDED_RANGE)%Z
   /\ Qabs (inject_Z out
            - normalizedValue (inject_Z (buf_at reference x y c)) bl whiteLevel)
      < 1)
  /\ ((2 <= List.length processFrames)%nat ->
      (Z.of_nat (List.length processFrames) < 2 ^ 24)%Z ->
      0 <= buf_at fuseOutput x y c <= 65535 * n ->
      (0 <= out <= EXPANDED_RANGE)%Z
      /\ Qabs (inject_Z out
               - normalizedValue (buf_at fuseOutput x y c / n) bl whiteLevel)
         < 1).
Proof.
  intros bl out n HER Hbl Hwl HD HS. unfold out, denoiseInput. split.
  - intros -> Hv. cbn [List.length Nat.leb buf_at].
    destruct (reference_pixel_exact _ Hv) as (v0 & Ev & Hv0). rewrite Ev.
    apply normalizePixel_near; try assumption.
    split; [rewrite <- (Zle_Qle 0) | change 65535 with (inject_Z 65535);
                                       rewrite <- Zle_Qle]; lia.
  - intros Hlen Hn24 Hfuse.
    destruct (Nat.leb_spec (List.length processFrames) 1) as [Hle|Hgt]; [lia|].
    cbn [buf_at].
    destruct (averaged_pixel_near (buf_at fuseOutput x y c)
                (List.length processFrames)) as (v0 & Ev & Ha & Hv0);
      [lia | exact Hn24 | exact Hfuse |].
    rewrite Ev. apply normalizePixel_near; assumption.
Qed.

Lemma denoiseInput_value_witness :
  let out0 :=
    buf_at (denoiseInput (C:=sampleConfig) [] (samplePlanes 875)
              (sampleAccumulator 0) [64; 64; 64; 64] 1023) 0 0 0 in
  let out2 :=
    buf_at (denoiseInput (C:=sampleConfig) ["f1"; "f2"]%string
              (samplePlanes 1000) (sampleAccumulator 1800) [64; 64; 64; 64]
              1023) 0 0 0 in
  (out0 = 13856%Z
   /\ Qabs (inject_Z out0 - normalizedValue (C:=sampleConfig) 875 64 1023) < 1)
  /\ (out2 = 14283%Z
      /\ Qabs (inject_Z out2
               - normalizedValue (C:=sampleConfig) (1800 / 2) 64 1023) < 1).
Proof.
  intros out0 out2.
  assert (HER : (0 <= @EXPANDED_RANGE sampleConfig <= 65535)%Z)
    by (vm_compute; split; discriminate).
  pose proof (denoiseInput_value (C:=sampleConfig) [] (samplePlanes 875)
                (sampleAccumulator 0) [64; 64; 64; 64] 1023 0 0 0 HER) as H0.
  pose proof (denoiseInput_value (C:=sampleConfig) ["f1"; "f2"]%string
                (samplePlanes 1000) (sampleAccumulator 1800) [64; 64; 64; 64]
                1023 0 0 0 HER) as H2.
  split; (split; [vm_compute; reflexivity|]).
  - apply H0; try (vm_compute; discriminate); try reflexivity.
    vm_compute. split; discriminate.
  - apply H2; try (vm_compute; discriminate).
    + simpl. lia.
    + vm_compute. reflexivity.
    + vm_compute. split; discriminate.
Defined.

(** The claim C2 as stated fails.  With no companion frame, a reference
    pixel of 1, black level 0 and white level 1023 (range 16384), the stored
    value is 16, not the normalized value 16384/1023.  With one companion
    frame whose fusion left 900 in the accumulator (reference pixel 1000,
    black level 64), the stored value is the one of the reference pixel,
    15991, and more than 1000 away from the normalized value of the
    accumulated sum divided by one. *)
Lemma denoiseInput_not_exact :
  (buf_at (denoiseInput (C:=sampleConfig) [] (samplePlanes 1)
             (sampleAccumulator 0) [0; 0; 0; 0] 1023) 0 0 0 = 16%Z
   /\ ~ inject_Z 16 == normalizedValue (C:=sampleConfig) 1 0 1023)
  /\ (buf_at (denoiseInput (C:=sampleConfig) ["f1"]%string (samplePlanes 1000)
                (sampleAccumulator 900) [64; 64; 64; 64] 1023) 0 0 0
      = 15991%Z
      /\ normalizedValue (C:=sampleConfig) (900 / 1) 64 1023 < 14283).
Proof.
  repeat split.
  - intros E. vm_compute in E. discriminate E.
Qed.

(** ** The trace monad *)

Lemma bind_ret_l {A B : Type} (a : A) (k : A -> M B) : bind (ret a) k = k a.
Proof. unfold bind, ret. destruct (k a). reflexivity. Qed.

Lemma bind_returned {A B : Type} (m : M A) (k : A -> M B) (t : Trace) (a : A) :
  m = (t, Returned a) -> bind m k = (t ++ fst (k a), snd (k a)).
Proof. intros ->. unfold bind. destruct (k a). reflexivity. Qed.

Lemma bind_raised {A B : Type} (m : M A) (k : A -> M B) (t : Trace) (e : Exn) :
  m = (t, Raised e) -> bind m k = (t, Raised e).
Proof. intros ->. reflexivity. Qed.

Lemma bind_returned_inv {A B : Type} (m : M A) (k : A -> M B) (t : Trace)
  (b : B) :
  bind m k = (t, Returned b) ->
  exists t1 a t2,
    m = (t1, Returned a) /\ k a = (t2, Returned b) /\ t = t1 ++ t2.
Proof.
  unfold bind. destruct m as [t1 [a|e|]]; try discriminate.
  destruct (k a) as [t2 r] eqn:E. intros [= <- ->].
  now exists t1, a, t2.
Qed.

Lemma lift_bind {A B : Type} (o : Outcome A) (k : A -> M B) :
  bind (lift o) k =
  match o with
  | Returned a => k a
  | Raised e => ([], Raised e)
  | Undefined => ([], Undefined)
  end.
Proof. destruct o; trivial. apply (bind_ret_l a k). Qed.

(** Reading the exposure value never fails. *)
Lemma deref_calcEv {L : Libm} (cameraMetadata : RawCameraMetadata)
  (metadata : RawImageMetadata) :
  deref (calcEv cameraMetadata metadata)
  = ret (exposureValue (hd 1.8 (apertures cameraMetadata))
           (inject_Z (exposureTime metadata) / 1000000000)
           (inject_Z (iso metadata))).
Proof.
  unfold calcEv, exposureValue.
  destruct (apertures cameraMetadata) as [|a rest]; reflexivity.
Qed.

(** Simplify a monadic computation: exposure values, returns, lifted
    outcomes. *)
Ltac monad_simpl :=
  repeat first [ rewrite deref_calcEv
               | rewrite bind_ret_l
               | rewrite lift_bind ];
  cbv beta.

(** ** Temporal fusion *)





(** ** Frame registrar *)

Lemma registerImage2_loop_returns {K : Kernels} (levels : list (Image Z * Image Z))
  (warpMatrix : Mat) :
  exists m, registerImage2_loop levels warpMatrix = Returned m.
Proof.
  revert warpMatrix.
  induction levels as [|[cur ref] rest IH]; intros warpMatrix; simpl.
  - now exists warpMatrix.
  - destruct (findTransformECC cur ref warpMatrix) as [w|]; simpl.
    + apply IH.
    + now exists [].
Qed.

Lemma registerImage2_loop_throws {K : Kernels} (levels : list (Image Z * Image Z))
  (warpMatrix : Mat) :
  SolverThrows levels warpMatrix ->
  registerImage2_loop levels warpMatrix = Returned [].
Proof.
  induction 1 as [cur ref rest warpMatrix Hthrow
                 |cur ref rest warpMatrix w Hok Hrest IH]; simpl.
  - rewrite Hthrow. reflexivity.
  - rewrite Hok. simpl. exact IH.
Qed.

(** Image registration never lets an exception escape. *)
Lemma registerImage2_never_raises {K : Kernels} (referenceBuffer toAlignBuffer : Image Z) :
  exists m, registerImage2 referenceBuffer toAlignBuffer = Returned m.
Proof. apply registerImage2_loop_returns. Qed.

(** [prepareHdr] returns null when registration yields the empty matrix. *)
Lemma prepareHdr_empty_registration {L : Libm} {C : Config} {K : Kernels}
  (cameraMetadata : RawCameraMetadata) (settings : PostProcessSettings)
  (reference underexposed : RawImageBuffer) (scale : Q)
  (refImage underImage : RawData) (warpMatrix : Mat) :
  hdrLoadPair cameraMetadata reference underexposed
  = ret (scale, refImage, underImage) ->
  registerImage2 (previewBuffer refImage) (previewBuffer underImage)
  = Returned warpMatrix ->
  Mat_empty warpMatrix = true ->
  prepareHdr cameraMetadata settings reference underexposed
  = ([], Returned None).
Proof.
  intros Hload Hreg Hempty. unfold prepareHdr.
  rewrite Hload. monad_simpl. cbn [fst snd].
  rewrite Hreg, Hempty. reflexivity.
Qed.

(** C4: for every pair of preview images, if the iterative homography
    solver throws at any pyramid level, image registration returns the empty
    matrix (which is not the identity homography) and raises nothing; HDR
    preparation, the caller, returns no result on the empty matrix. *)
Theorem registerImage2_solver_exception {L : Libm} {C : Config} {K : Kernels}
  (referenceBuffer toAlignBuffer : Image Z) :
  SolverThrows (registerImage2_levels referenceBuffer toAlignBuffer) Mat_eye3 ->
  registerImage2 referenceBuffer toAlignBuffer = Returned []
  /\ Mat_empty [] = true
  /\ [] <> Mat_eye3
  /\ forall (cameraMetadata : RawCameraMetadata) (settings : PostProcessSettings)
            (reference underexposed : RawImageBuffer) (scale : Q)
            (refImage underImage : RawData),
       hdrLoadPair cameraMetadata reference underexposed
       = ret (scale, refImage, underImage) ->
       previewBuffer refImage = referenceBuffer ->
       previewBuffer underImage = toAlignBuffer ->
       prepareHdr cameraMetadata settings reference underexposed
       = ([], Returned None).
Proof.
  intros Hthrows.
  assert (Hreg : registerImage2 referenceBuffer toAlignBuffer = Returned []).
  { unfold registerImage2. now apply registerImage2_loop_throws. }
  repeat split; trivial.
  - discriminate.
  - intros cameraMetadata settings reference underexposed scale refImage
      underImage Hload Href Hunder.
    apply (prepareHdr_empty_registration cameraMetadata settings reference
             underexposed scale refImage underImage []); trivial.
    now rewrite Href, Hunder.
Qed.

(** ** HDR preparation *)

Lemma trimmedGhostMap_interior (ghostMap : Image Z) :
  (64 <= cols ghostMap)%Z -> (64 <= rows ghostMap)%Z ->
  trimmedGhostMap ghostMap = Returned (interior32 ghostMap).
Proof.
  intros Hc Hr. unfold trimmedGhostMap, Mat_roi, interior32.
  replace ((0 <=? 32) && (0 <=? cols ghostMap - 64)
           && (32 + (cols ghostMap - 64) <=? cols ghostMap)
           && (0 <=? 32) && (0 <=? rows ghostMap - 64)
           && (32 + (rows ghostMap - 64) <=? rows ghostMap))%Z with true;
    [reflexivity|].
  symmetry. repeat (apply andb_true_intro; split); apply Z.leb_le; lia.
Qed.

Lemma hdrError_interior (ghostMap : Image Z) :
  (64 <= cols ghostMap)%Z -> (64 <= rows ghostMap)%Z ->
  hdrError ghostMap = Returned (interiorGhostError ghostMap).
Proof.
  intros Hc Hr. unfold hdrError.
  now rewrite trimmedGhostMap_interior.
Qed.

(** C6: for every reference/underexposed pair that registers, HDR
    preparation takes the mean ghost error over the interior crop (32 pixels
    removed on each side); when that mean exceeds the tolerance 0.0001 it
    returns null, and it returns an HDR layer only when the mean is within
    the tolerance. *)
Theorem prepareHdr_error_gate {L : Libm} {C : Config} {K : Kernels}
  (cameraMetadata : RawCameraMetadata) (settings : PostProcessSettings)
  (reference underexposed : RawImageBuffer) (scale : Q)
  (refImage underImage : RawData) (warpMatrix : Mat) :
  hdrLoadPair cameraMetadata reference underexposed
  = ret (scale, refImage, underImage) ->
  registerImage2 (previewBuffer refImage) (previewBuffer underImage)
  = Returned warpMatrix ->
  Mat_empty warpMatrix = false ->
  let ghostMap :=
    fst (hdrGhostMaps refImage underImage (Mat_inv warpMatrix)
           (getBlackLevel cameraMetadata (metadata underexposed))
           (getWhiteLevel cameraMetadata (metadata underexposed)) scale) in
  (64 <= cols ghostMap)%Z -> (64 <= rows ghostMap)%Z ->
  hdrError ghostMap = Returned (interiorGhostError ghostMap)
  /\ MAX_HDR_ERROR = 0.0001
  /\ (MAX_HDR_ERROR < interiorGhostError ghostMap ->
      prepareHdr cameraMetadata settings reference underexposed
      = ([], Returned None))
  /\ (forall (t : Trace) (layer : HdrMetadata),
        prepareHdr cameraMetadata settings reference underexposed
        = (t, Returned (Some layer)) ->
        interiorGhostError ghostMap <= MAX_HDR_ERROR).
Proof.
  intros Hload Hreg Hempty ghostMap Hc Hr.
  assert (Herr := hdrError_interior ghostMap Hc Hr).
  assert (Hgate :
    forall P : M (option HdrMetadata) -> Prop,
      (MAX_HDR_ERROR < interiorGhostError ghostMap -> P (ret None)) ->
      (interiorGhostError ghostMap <= MAX_HDR_ERROR -> forall r, P r) ->
      P (prepareHdr cameraMetadata settings reference underexposed)).
  { intros P Hreject Haccept. unfold prepareHdr.
    rewrite Hload. monad_simpl. cbn [fst snd].
    rewrite Hreg, Hempty. fold ghostMap. rewrite Herr. monad_simpl.
    destruct (ltb_spec MAX_HDR_ERROR (interiorGhostError ghostMap)) as [Hhigh|Hlow].
    - now apply Hreject.
    - apply Haccept. now apply Qnot_lt_le. }
  repeat split; trivial.
  - intros Hhigh. apply Hgate.
    + reflexivity.
    + intros Hlow. exfalso. apply (Qlt_not_le _ _ Hhigh Hlow).
  - intros t layer. apply Hgate.
    + discriminate.
    + intros Hlow r _. exact Hlow.
Qed.

Lemma registerImage2_solver_exception_witness :
  registerImage2
    (K:=sampleKernels (fun _ => None) (fun _ _ => 0%Z) 0 dng_ok)
    sampleImage sampleImage
  = Returned [].
Proof.
  apply (registerImage2_solver_exception (L:=sampleLibm) (C:=sampleConfig)
           (K:=sampleKernels (fun _ => None) (fun _ _ => 0%Z) 0 dng_ok)
           sampleImage sampleImage).
  unfold registerImage2_levels. simpl.
  apply throws_here. reflexivity.
Defined.

Lemma prepareHdr_error_gate_witness :
  prepareHdr (L:=sampleLibm) (C:=sampleConfig)
    (K:=sampleKernels (fun w => Some w) (fun _ _ => 1%Z) 0 dng_ok)
    (sampleCamera [1.8]) (sampleSettings 1 0 false)
    (sampleRawImage (sampleMetadata 10000000 100 (1, 1, 1)) 132)
    (sampleRawImage (sampleMetadata 2500000 100 (1, 1, 1)) 132)
  = ([], Returned None).
Proof.
  refine
    (proj1 (proj2 (proj2
       (prepareHdr_error_gate (L:=sampleLibm) (C:=sampleConfig)
          (K:=sampleKernels (fun w => Some w) (fun _ _ => 1%Z) 0 dng_ok)
          (sampleCamera [1.8]) (sampleSettings 1 0 false)
          (sampleRawImage (sampleMetadata 10000000 100 (1, 1, 1)) 132)
          (sampleRawImage (sampleMetadata 2500000 100 (1, 1, 1)) 132)
          _ _ _ _ eq_refl eq_refl eq_refl _ _))) _).
  - vm_compute. discriminate.
  - vm_compute. discriminate.
  - vm_compute. reflexivity.
Defined.

(** ** The pipeline: fatal input errors *)

Lemma emit_bind {B : Type} (e : Event) (k : unit -> M B) :
  bind (emit e) k = (e :: fst (k tt), snd (k tt)).
Proof. unfold bind, emit. destruct (k tt). reflexivity. Qed.

Lemma createSrgbMatrix_zero {K : Kernels} (cameraMetadata : RawCameraMetadata)
  (md : RawImageMetadata) (v : Vec3f) :
  vec_max v <= 0 ->
  createSrgbMatrix cameraMetadata md v
  = Raised (InvalidState "Camera white balance vector is zero").
Proof.
  intros Hzero. unfold createSrgbMatrix. destruct v as [[a0 a1] a2].
  destruct (ltb_spec 0 (vec_max (a0, a1, a2))) as [Hpos|Hnot];
    [lra|reflexivity].
Qed.

Lemma chooseSrgbMatrix_zero {K : Kernels} (cameraMetadata : RawCameraMetadata)
  (md : RawImageMetadata) (settings : PostProcessSettings) :
  vec_max (asShot md) <= 0 ->
  temperature settings <= 0 -> tint settings <= 0 ->
  chooseSrgbMatrix cameraMetadata md settings
  = Raised (InvalidState "Camera white balance vector is zero").
Proof.
  intros Hzero Htemp Htint. unfold chooseSrgbMatrix.
  destruct (ltb_spec 0 (temperature settings)); [lra|].
  destruct (ltb_spec 0 (tint settings)); [lra|].
  simpl. now apply createSrgbMatrix_zero.
Qed.

Lemma calcHistogram_zero {K : Kernels} (cameraMetadata : RawCameraMetadata)
  (buffer : RawImageBuffer) (cumulative : bool) (downscale : Z) :
  vec_max (asShot (metadata buffer)) <= 0 ->
  calcHistogram cameraMetadata buffer cumulative downscale
  = throw (InvalidState "Camera white balance vector is zero").
Proof.
  intros Hzero. unfold calcHistogram. cbv zeta.
  rewrite lift_bind, createSrgbMatrix_zero by assumption. reflexivity.
Qed.

Lemma createPreview_zero {K : Kernels} (rawBuffer : RawImageBuffer)
  (cameraMetadata : RawCameraMetadata) (settings : PostProcessSettings) :
  vec_max (asShot (metadata rawBuffer)) <= 0 ->
  temperature settings <= 0 -> tint settings <= 0 ->
  createPreview rawBuffer 2 cameraMetadata settings
  = throw (InvalidState "Camera white balance vector is zero").
Proof.
  intros Hzero Htemp Htint. unfold createPreview.
  cbn [Z.eqb Pos.eqb negb andb]. cbv zeta.
  rewrite lift_bind, chooseSrgbMatrix_zero by assumption. reflexivity.
Qed.

(** A preview that is rendered has a colour transform: the as-shot vector
    is usable or a colour temperature is set. *)
Lemma createPreview_returned {K : Kernels} (rawBuffer : RawImageBuffer)
  (cameraMetadata : RawCameraMetadata) (settings : PostProcessSettings)
  (t : Trace) (preview : Image Z) :
  createPreview rawBuffer 2 cameraMetadata settings = (t, Returned preview) ->
  exists color,
    chooseSrgbMatrix cameraMetadata (metadata rawBuffer) settings
    = Returned color.
Proof.
  unfold createPreview. cbn [Z.eqb Pos.eqb negb andb]. cbv zeta.
  rewrite lift_bind.
  destruct (chooseSrgbMatrix cameraMetadata (metadata rawBuffer) settings)
    as [color|e|]; try discriminate.
  intros _. now exists color.
Qed.

Lemma estimateBlackWhitePoint_zero {K : Kernels} (rawBuffer : RawImageBuffer)
  (cameraMetadata : RawCameraMetadata) (settings : PostProcessSettings) :
  vec_max (asShot (metadata rawBuffer)) <= 0 ->
  temperature settings <= 0 -> tint settings <= 0 ->
  estimateBlackWhitePoint rawBuffer cameraMetadata settings
  = throw (InvalidState "Camera white balance vector is zero").
Proof.
  intros Hzero Htemp Htint. unfold estimateBlackWhitePoint. cbv zeta.
  rewrite createPreview_zero by assumption. reflexivity.
Qed.

(** A zero as-shot vector stops [process] before the preview is written,
    whenever the as-shot vector is consulted: the shadows are to be
    estimated, or no colour temperature is set. *)
Lemma processFusion_zero_white_balance {L : Libm} {C : Config} {K : Kernels}
  (rawContainer : RawContainer) (underexposedImages : list RawImageBuffer)
  (referenceFrame : string) (referenceRawBuffer : RawImageBuffer)
  (outputPath : string) :
  vec_max (asShot (metadata referenceRawBuffer)) <= 0 ->
  shadows (getPostProcessSettings rawContainer) < 0
  \/ (temperature (getPostProcessSettings rawContainer) <= 0
      /\ tint (getPostProcessSettings rawContainer) <= 0) ->
  processFusion rawContainer underexposedImages referenceFrame
    referenceRawBuffer outputPath
  = throw (InvalidState "Camera white balance vector is zero").
Proof.
  intros Hzero Hcase. unfold processFusion, estimateUnset. cbn [getPostProcessSettings getCameraMetadata removeFrame].
  set (settings := getPostProcessSettings rawContainer) in *.
  destruct (ltb_spec (shadows settings) 0) as [Hshadows|Hshadows].
  - monad_simpl. rewrite calcHistogram_zero by assumption. reflexivity.
  - destruct Hcase as [Hneg|[Htemp Htint]]; [contradiction|].
    monad_simpl.
    destruct (Num.ltb (blacks settings) 0 || Num.ltb (whitePoint settings) 0).
    + rewrite estimateBlackWhitePoint_zero by assumption. reflexivity.
    + monad_simpl. rewrite createPreview_zero by assumption. reflexivity.
Qed.

(** C7 (as amended): when no frame is present, or the reference frame
    cannot be loaded, [process] reports the error exactly once through
    [onError] and returns without writing anything and without raising; so
    does [process] on a path whose container holds no frame.  A zero
    as-shot white-balance vector of the reference frame is not reported:
    where the pipeline consults it (the shadows are to be estimated, or
    neither colour temperature nor tint is set), [process] raises
    [InvalidState] to its caller before anything is written, and calls
    [onError] not at all. *)
Theorem process_fatal_input {L : Libm} {C : Config} {K : Kernels}
  (rawContainer c1 : RawContainer) (underexposedImages : list RawImageBuffer)
  (outputPath : string) :
  removeUnderexposed rawContainer = ret (c1, underexposedImages) ->
  (getFrames c1 = [] ->
   process rawContainer outputPath
   = ([onProgressUpdate 0; onError "No frames found"; onCompleted],
      Returned tt))
  /\ (forall (referenceFrame : string) (rest : list string),
        getFrames c1 = referenceFrame :: rest ->
        loadFrame c1 referenceFrame = None ->
        process rawContainer outputPath
        = ([onProgressUpdate 0; onError "Invalid reference frames";
            onCompleted],
           Returned tt))
  /\ (forall (referenceFrame : string) (rest : list string)
             (referenceRawBuffer : RawImageBuffer),
        getFrames c1 = referenceFrame :: rest ->
        loadFrame c1 referenceFrame = Some referenceRawBuffer ->
        vec_max (asShot (metadata referenceRawBuffer)) <= 0 ->
        shadows (getPostProcessSettings c1) < 0
        \/ (temperature (getPostProcessSettings c1) <= 0
            /\ tint (getPostProcessSettings c1) <= 0) ->
        process rawContainer outputPath
        = ([onProgressUpdate 0],
           Raised (InvalidState "Camera white balance vector is zero")))
  /\ (getFrames rawContainer = [] ->
      process_path rawContainer outputPath
      = ([onError "No frames found"], Returned tt)).
Proof.
  intros Hremove.
  assert (Hpath : getFrames rawContainer = [] ->
                  process_path rawContainer outputPath
                  = ([onError "No frames found"], Returned tt)).
  { intros Hframes. unfold process_path. rewrite Hframes. reflexivity. }
  unfold process.
  rewrite emit_bind, Hremove, bind_ret_l. cbn [fst snd].
  split; [|split; [|split; [|exact Hpath]]].
  - intros Hframes. rewrite Hframes. reflexivity.
  - intros referenceFrame rest Hframes Hload. rewrite Hframes.
    cbn [Num.is_empty Num.at_index nth_error deref].
    rewrite bind_ret_l, Hload. reflexivity.
  - intros referenceFrame rest referenceRawBuffer Hframes Hload Hzero Hcase.
    rewrite Hframes. cbn [Num.is_empty Num.at_index nth_error deref].
    rewrite bind_ret_l, Hload.
    rewrite processFusion_zero_white_balance by assumption. reflexivity.
Qed.

Lemma process_fatal_input_witness :
  process (L:=sampleLibm) (C:=sampleConfig) (K:=sampleKernelsDng dng_ok)
    (sampleBurst (sampleSettings 1 0 false) (1, 1, 1) []) "out.jpg"
  = ([onProgressUpdate 0; onError "No frames found"; onCompleted], Returned tt)
  /\ process (L:=sampleLibm) (C:=sampleConfig) (K:=sampleKernelsDng dng_ok)
       (sampleBurst (sampleSettings 1 0 false) (1, 1, 1) [("frame"%string, None)]) "out.jpg"
     = ([onProgressUpdate 0; onError "Invalid reference frames"; onCompleted],
        Returned tt)
  /\ process (L:=sampleLibm) (C:=sampleConfig) (K:=sampleKernelsDng dng_ok)
       (sampleBurst (sampleSettings 1 0 false) (0, 0, 0) [("frame"%string, Some [])]) "out.jpg"
     = ([onProgressUpdate 0],
        Raised (InvalidState "Camera white balance vector is zero")).
Proof.
  split; [|split].
  - apply (process_fatal_input (L:=sampleLibm) (C:=sampleConfig)
             (K:=sampleKernelsDng dng_ok)
             (sampleBurst (sampleSettings 1 0 false) (1, 1, 1) []) _ _
             "out.jpg" eq_refl).
    reflexivity.
  - apply (proj1 (proj2
             (process_fatal_input (L:=sampleLibm) (C:=sampleConfig)
                (K:=sampleKernelsDng dng_ok)
                (sampleBurst (sampleSettings 1 0 false) (1, 1, 1) [("frame"%string, None)]) _ _
                "out.jpg" eq_refl))
             "frame"%string []); reflexivity.
  - apply (proj1 (proj2 (proj2
             (process_fatal_input (L:=sampleLibm) (C:=sampleConfig)
                (K:=sampleKernelsDng dng_ok)
                (sampleBurst (sampleSettings 1 0 false) (0, 0, 0) [("frame"%string, Some [])]) _ _
                "out.jpg" eq_refl)))
             "frame"%string []
             (sampleRawImage (sampleMetadata 10000000 100 (0, 0, 0)) 8));
      try reflexivity.
    + vm_compute. discriminate.
    + right. split; vm_compute; discriminate.
Defined.

(** The claim C7 as stated fails for the zero white-balance vector: on a
    capture of one frame whose as-shot vector is zero, [process] raises
    [InvalidState] to its caller and never calls [onError]. *)
Lemma process_zero_white_balance_raises :
  let r :=
    process (L:=sampleLibm) (C:=sampleConfig) (K:=sampleKernelsDng dng_ok)
      (sampleBurst (sampleSettings 1 0 false) (0, 0, 0) [("frame"%string, Some [])]) "out.jpg" in
  snd r = Raised (InvalidState "Camera white balance vector is zero")
  /\ error_reports (fst r) = 0%nat
  /\ fst r = [onProgressUpdate 0].
Proof.
  vm_compute. repeat split.
Qed.

(** ** The pipeline: a failed DNG write *)

Lemma try_catch_caught {A : Type} (body : M A) (catches : Exn -> bool)
  (handler : Exn -> M A) (t : Trace) (e : Exn) :
  body = (t, Raised e) -> catches e = true ->
  try_catch body catches handler = (t ++ fst (handler e), snd (handler e)).
Proof.
  intros -> Hcatch. unfold try_catch. rewrite Hcatch.
  destruct (handler e). reflexivity.
Qed.

Lemma try_catch_uncaught {A : Type} (body : M A) (catches : Exn -> bool)
  (handler : Exn -> M A) (t : Trace) (e : Exn) :
  body = (t, Raised e) -> catches e = false ->
  try_catch body catches handler = (t, Raised e).
Proof. intros -> Hcatch. unfold try_catch. now rewrite Hcatch. Qed.

(** Peel the binds of a computation that returned. *)
Ltac invert_binds H :=
  repeat (apply bind_returned_inv in H;
          let t1 := fresh "t" in
          let a := fresh "a" in
          let t2 := fresh "t" in
          let Hm := fresh "Hm" in
          let Ht := fresh "Ht" in
          destruct H as (t1 & a & t2 & Hm & H & Ht)).

(** What the fusion stage leaves behind when it completes: the settings it
    rendered the preview with (so a colour transform exists for them), and a
    progress helper that starts at zero. *)
Lemma processFusion_returned {L : Libm} {C : Config} {K : Kernels}
  (rawContainer : RawContainer) (underexposedImages : list RawImageBuffer)
  (referenceFrame : string) (referenceRawBuffer : RawImageBuffer)
  (outputPath : string) (t : Trace) (fused : Fused) :
  processFusion rawContainer underexposedImages referenceFrame
    referenceRawBuffer outputPath = (t, Returned fused) ->
  mStart (fusedProgress fused) = 0%Z
  /\ exists color,
       chooseSrgbMatrix (getCameraMetadata rawContainer)
         (metadata referenceRawBuffer) (fusedSettings fused)
       = Returned color.
Proof.
  unfold processFusion.
  cbn [getCameraMetadata getPostProcessSettings removeFrame].
  intros Hrun.
  apply bind_returned_inv in Hrun.
  destruct Hrun as (ts & settings & t' & Hsettings & Hrun & ->).
  apply bind_returned_inv in Hrun.
  destruct Hrun as (tp & preview & t'' & Hpreview & Hrun & ->).
  destruct (GetBasePath outputPath) as [basePath filename].
  invert_binds Hrun. injection Hrun as _ <-. cbn [fusedProgress fusedSettings].
  split; [reflexivity|].
  now apply (createPreview_returned _ _ _ tp preview).
Qed.

(** A DNG write that fails with a [std::runtime_error] is caught: the DNG
    stage returns, and [process] goes on with post-processing. *)
Lemma process_dng_failure_caught {L : Libm} {C : Config} {K : Kernels}
  (rawContainer c1 : RawContainer) (underexposedImages : list RawImageBuffer)
  (outputPath referenceFrame : string) (rest : list string)
  (referenceRawBuffer : RawImageBuffer) (t1 tw : Trace) (fused : Fused)
  (rawImage : Image Z) (e : Exn) :
  removeUnderexposed rawContainer = ret (c1, underexposedImages) ->
  getFrames c1 = referenceFrame :: rest ->
  loadFrame c1 referenceFrame = Some referenceRawBuffer ->
  processFusion c1 underexposedImages referenceFrame referenceRawBuffer
    outputPath = (t1, Returned fused) ->
  dng (getPostProcessSettings c1) = true ->
  BuildRawImage (firstn 4 (fusedOutput fused))
    (cropOffset (width referenceRawBuffer ÷ 2))
    (cropOffset (height referenceRawBuffer ÷ 2)) = ret rawImage ->
  WriteDng rawImage (getCameraMetadata c1) (dngFileName outputPath)
  = (tw, Raised e) ->
  is_std_runtime_error e = true ->
  let output :=
    processOutput (removeFrame c1 referenceFrame) referenceRawBuffer fused
      outputPath in
  processDng (removeFrame c1 referenceFrame) referenceRawBuffer
    (fusedOutput fused) outputPath = (tw, Returned tt)
  /\ process rawContainer outputPath
     = (onProgressUpdate 0 :: t1 ++ tw ++ fst output, snd output).
Proof.
  intros Hremove Hframes Hload Hfusion Hdng Hbuild Hwrite Hcaught output.
  assert (Hstage :
    processDng (removeFrame c1 referenceFrame) referenceRawBuffer
      (fusedOutput fused) outputPath = (tw, Returned tt)).
  { unfold processDng. cbn [getPostProcessSettings getCameraMetadata removeFrame].
    rewrite Hdng, Hbuild, bind_ret_l.
    rewrite (try_catch_caught _ _ _ _ _ Hwrite Hcaught).
    cbn [fst snd ret]. now rewrite app_nil_r. }
  split; [exact Hstage|].
  unfold process.
  rewrite emit_bind, Hremove, bind_ret_l. cbn [fst snd].
  rewrite Hframes. cbn [Num.is_empty Num.at_index nth_error deref].
  rewrite bind_ret_l, Hload.
  rewrite (bind_returned _ _ _ _ Hfusion).
  rewrite (bind_returned _ _ _ _ Hstage). cbn [fst snd]. reflexivity.
Qed.

(** An exception of another class is not caught: it leaves [process], and
    neither post-processing nor completion follows. *)
Lemma process_dng_failure_uncaught {L : Libm} {C : Config} {K : Kernels}
  (rawContainer c1 : RawContainer) (underexposedImages : list RawImageBuffer)
  (outputPath referenceFrame : string) (rest : list string)
  (referenceRawBuffer : RawImageBuffer) (t1 tw : Trace) (fused : Fused)
  (rawImage : Image Z) (e : Exn) :
  removeUnderexposed rawContainer = ret (c1, underexposedImages) ->
  getFrames c1 = referenceFrame :: rest ->
  loadFrame c1 referenceFrame = Some referenceRawBuffer ->
  processFusion c1 underexposedImages referenceFrame referenceRawBuffer
    outputPath = (t1, Returned fused) ->
  dng (getPostProcessSettings c1) = true ->
  BuildRawImage (firstn 4 (fusedOutput fused))
    (cropOffset (width referenceRawBuffer ÷ 2))
    (cropOffset (height referenceRawBuffer ÷ 2)) = ret rawImage ->
  WriteDng rawImage (getCameraMetadata c1) (dngFileName outputPath)
  = (tw, Raised e) ->
  is_std_runtime_error e = false ->
  process rawContainer outputPath = (onProgressUpdate 0 :: t1 ++ tw, Raised e).
Proof.
  intros Hremove Hframes Hload Hfusion Hdng Hbuild Hwrite Hforeign.
  unfold process.
  rewrite emit_bind, Hremove, bind_ret_l. cbn [fst snd].
  rewrite Hframes. cbn [Num.is_empty Num.at_index nth_error deref].
  rewrite bind_ret_l, Hload.
  rewrite (bind_returned _ _ _ _ Hfusion).
  assert (Hstage :
    processDng (removeFrame c1 referenceFrame) referenceRawBuffer
      (fusedOutput fused) outputPath = (tw, Raised e)).
  { unfold processDng. cbn [getPostProcessSettings getCameraMetadata removeFrame].
    rewrite Hdng, Hbuild, bind_ret_l.
    now apply try_catch_uncaught. }
  rewrite (bind_raised _ _ _ _ Hstage). reflexivity.
Qed.

(** C9: a failure of the DNG write is not always caught inside [process].
    The handler around [util::WriteDng] catches [std::runtime_error] only,
    and the DNG SDK reports a file it cannot open or write with an exception
    of its own class.  On a capture of three frames whose settings ask for
    a DNG file, with a DNG write that fails this way, the exception leaves
    [process]: the preview is the only file written, post-processing does
    not run, the rendered image is not written and completion is never
    signalled. *)
Theorem process_dng_failure_escapes :
  let r :=
    process (L:=sampleLibm) (C:=sampleConfig)
      (K:=sampleKernelsDng dng_throws_other)
      (sampleBurst (sampleSettings 1 0 true) (1, 1, 1)
         [("f0"%string, Some []); ("f1"%string, Some []);
          ("f2"%string, Some [])])
      "/sdcard/out.jpg" in
  snd r = Raised foreign_exception
  /\ map is_output (fst r) = [false; true; false; false; false; false]
  /\ last (fst r) onCompleted = onProgressUpdate 75.
Proof.
  vm_compute. repeat split.
Qed.

(** ** The weights of the wavelet stage *)

(** With the spatial denoise level 0 the inverse transform receives the
    all-zero weight vector. *)
Lemma denoiseWeights_off (signalAverage : Q) :
  denoiseWeights 0 signalAverage = ret [0; 0; 0; 0].
Proof. unfold denoiseWeights. simpl. reflexivity. Qed.

(** A chosen level selects a row of the table, in reverse order. *)
Lemma denoiseWeights_chosen (level : Z) (signalAverage : Q) :
  (0 < level)%Z ->
  denoiseWeights level signalAverage
  = ret (nth (Z.to_nat (6 - Z.min level 5)) WEIGHTS []).
Proof.
  intros Hpos. unfold denoiseWeights.
  destruct (Z.ltb_spec level 0) as [Hneg|_]; [lia|].
  destruct (Z.eqb_spec level 0) as [Hzero|_]; [lia|].
  change (Z.of_nat (List.length WEIGHTS)) with 6%Z.
  change (6 - 1)%Z with 5%Z.
  rewrite Z.max_l by lia.
  assert (Hrow : (1 <= Z.min level 5 <= 5)%Z) by lia.
  revert Hrow. generalize (Z.min level 5). intros i Hi.
  assert (Hcases : i = 1%Z \/ i = 2%Z \/ i = 3%Z \/ i = 4%Z \/ i = 5%Z) by lia.
  destruct Hcases as [->|[->|[->|[->| ->]]]]; reflexivity.
Qed.

(** * Part III: further properties of the code

    Properties of the loaders, estimators and helpers that the pipeline
    uses, read off the source. *)

(** ** Edge extension and the wavelet pyramid *)

Lemma trunc_comp (x y : Q) : x == y -> Num.trunc x = Num.trunc y.
Proof.
  intros E. unfold Num.trunc, Num.ltb.
  rewrite (Qcompare_comp _ _ E 0 0 (Qeq_refl 0)).
  rewrite (Qfloor_comp _ _ E), (Qceiling_comp _ _ E). reflexivity.
Qed.

Lemma trunc_inject_Z (z : Z) : Num.trunc (inject_Z z) = z.
Proof.
  unfold Num.trunc. rewrite Qfloor_Z, Qceiling_Z.
  destruct (Num.ltb (inject_Z z) 0); reflexivity.
Qed.

(** The padding [T * ceil(half / T) - half] is the distance of [half] to the
    next multiple of [T]. *)
Lemma extension_exact (T half : Z) :
  (0 < T)%Z ->
  Num.trunc (inject_Z T * Num.ceil (inject_Z half / inject_Z T) - inject_Z half)
  = ((- half) mod T)%Z.
Proof.
  intros HT. unfold Num.ceil, Qceiling.
  assert (E : - (inject_Z half / inject_Z T) == inject_Z (- half) / inject_Z T).
  { rewrite inject_Z_opp. field. intros H.
    unfold Qeq in H. simpl in H. lia. }
  rewrite (Qfloor_comp _ _ E), <- Zdiv_Qdiv.
  rewrite <- inject_Z_mult.
  unfold Qminus. rewrite <- inject_Z_opp, <- inject_Z_plus, trunc_inject_Z.
  pose proof (Z.div_mod (- half) T ltac:(lia)). lia.
Qed.

Lemma cropOffset_mod {C : Config} (rawSize : Z) :
  (0 <= EXTEND_EDGE_AMOUNT)%Z ->
  cropOffset rawSize = ((- rawSize) mod 2 ^ EXTEND_EDGE_AMOUNT)%Z.
Proof.
  intros HE. unfold cropOffset. apply extension_exact.
  apply Z.pow_pos_nonneg; lia.
Qed.

Lemma pad_multiple (T half : Z) :
  (0 < T)%Z ->
  ((half + (- half) mod T) mod T = 0 /\ 0 <= (- half) mod T < T)%Z.
Proof.
  intros HT. split; [|apply Z.mod_pos_bound; exact HT].
  rewrite Z.add_mod_idemp_r by lia.
  replace (half + - half)%Z with 0%Z by lia. apply Z.mod_0_l. lia.
Qed.

Lemma loadRawImage_size {C : Config} {K : Kernels} (raw : RawImageBuffer)
  (cameraMetadata : RawCameraMetadata) (scalePreview : Q) :
  let r := loadRawImage raw cameraMetadata true scalePreview in
  buf_width (rawBuffer r) = (width raw ÷ 2 + cropOffset (width raw ÷ 2))%Z
  /\ buf_height (rawBuffer r) = (height raw ÷ 2 + cropOffset (height raw ÷ 2))%Z
  /\ cols (previewBuffer r) = buf_width (rawBuffer r)
  /\ rows (previewBuffer r) = buf_height (rawBuffer r).
Proof.
  unfold loadRawImage, cropOffset.
  cbn [rawBuffer previewBuffer buf_width buf_height rows cols].
  repeat split; reflexivity.
Qed.

(** X1: with [extendEdges] set (and [0 <= EXTEND_EDGE_AMOUNT < 31], so that
    [T = 2^EXTEND_EDGE_AMOUNT] is an [int]), [loadRawImage] pads each
    half-resolution plane up to the next multiple of [T]: the width
    and the height of the planes (and of the preview) are multiples of [T],
    at least the half size and less than [T] above it. *)
Theorem loadRawImage_extended {C : Config} {K : Kernels}
  (raw : RawImageBuffer) (cameraMetadata : RawCameraMetadata)
  (scalePreview : Q) :
  (0 <= EXTEND_EDGE_AMOUNT < 31)%Z ->
  let T := (2 ^ EXTEND_EDGE_AMOUNT)%Z in
  let r := loadRawImage raw cameraMetadata true scalePreview in
  let w := buf_width (rawBuffer r) in
  let h := buf_height (rawBuffer r) in
  (w mod T = 0 /\ width raw ÷ 2 <= w < width raw ÷ 2 + T)%Z
  /\ (h mod T = 0 /\ height raw ÷ 2 <= h < height raw ÷ 2 + T)%Z
  /\ cols (previewBuffer r) = w /\ rows (previewBuffer r) = h.
Proof.
  intros [HE _] T r w h.
  destruct (loadRawImage_size raw cameraMetadata scalePreview)
    as (Hw & Hh & Hc & Hr).
  fold r in Hw, Hh, Hc, Hr. fold w in Hw, Hc. fold h in Hh, Hr.
  assert (HT : (0 < T)%Z) by (apply Z.pow_pos_nonneg; lia).
  assert (Hpad : forall half, (((half + (- half) mod T) mod T = 0)
                               /\ 0 <= (- half) mod T < T)%Z)
    by (intros half; apply pad_multiple; exact HT).
  rewrite (cropOffset_mod _ HE) in Hw. rewrite (cropOffset_mod _ HE) in Hh.
  fold T in Hw, Hh.
  destruct (Hpad (width raw ÷ 2)%Z) as [Hw0 Hw1].
  destruct (Hpad (height raw ÷ 2)%Z) as [Hh0 Hh1].
  rewrite Hw, Hh. repeat split; try assumption; lia.
Qed.

Lemma loadRawImage_extended_witness :
  let r :=
    loadRawImage (C:=sampleConfig) (K:=sampleKernelsDng dng_ok)
      (sampleRawImage (sampleMetadata 10000000 100 (1, 1, 1)) 4000)
      (sampleCamera [1.8]) true 1 in
  (0 <= @EXTEND_EDGE_AMOUNT sampleConfig < 31)%Z
  /\ buf_width (rawBuffer r) = 2048%Z
  /\ (buf_width (rawBuffer r) mod 64 = 0)%Z.
Proof.
  intros r.
  assert (HE : (0 <= @EXTEND_EDGE_AMOUNT sampleConfig < 31)%Z)
    by (vm_compute; split; [discriminate | reflexivity]).
  split; [exact HE|]. split; [vm_compute; reflexivity|].
  exact (proj1 (proj1 (loadRawImage_extended (C:=sampleConfig)
                         (K:=sampleKernelsDng dng_ok)
                         (sampleRawImage (sampleMetadata 10000000 100 (1, 1, 1))
                            4000)
                         (sampleCamera [1.8]) 1 HE))).
Defined.

Lemma createWaveletBuffers_from_length (levels : nat) (w h : Z) :
  List.length (createWaveletBuffers_from levels w h) = levels.
Proof.
  revert w h. induction levels as [|n IH]; intros w h; simpl;
    [reflexivity | rewrite IH; reflexivity].
Qed.

Lemma createWaveletBuffers_from_nth (levels : nat) :
  forall (w h : Z) (k : nat),
    (k < levels)%nat ->
    nth k (createWaveletBuffers_from levels w h) (0, 0)%Z
    = (w ÷ 2 ^ Z.of_nat (S k), h ÷ 2 ^ Z.of_nat (S k))%Z.
Proof.
  induction levels as [|n IH]; intros w h k Hk; [lia|].
  destruct k as [|k]; simpl createWaveletBuffers_from; simpl nth.
  - reflexivity.
  - rewrite IH by lia.
    assert (Hpow : (2 ^ Z.of_nat (S k) <> 0)%Z)
      by (apply Z.pow_nonzero; lia).
    rewrite !Z.quot_quot by (assumption || lia).
    replace (2 * 2 ^ Z.of_nat (S k))%Z with (2 ^ Z.of_nat (S (S k)))%Z;
      [reflexivity|].
    rewrite (Nat2Z.inj_succ (S k)), Z.pow_succ_r by lia. reflexivity.
Qed.

(** X2: [createWaveletBuffers] allocates one buffer per wavelet level, and
    the buffer of level [k] (counted from 0) has the size of the input
    divided by [2^(k+1)], each division discarding the remainder. *)
Theorem createWaveletBuffers_levels {C : Config} (w h : Z) :
  List.length (createWaveletBuffers w h) = WAVELET_LEVELS
  /\ forall k : nat,
       (k < WAVELET_LEVELS)%nat ->
       nth k (createWaveletBuffers w h) (0, 0)%Z
       = (w ÷ 2 ^ Z.of_nat (S k), h ÷ 2 ^ Z.of_nat (S k))%Z.
Proof.
  unfold createWaveletBuffers. split.
  - apply createWaveletBuffers_from_length.
  - intros k Hk. apply createWaveletBuffers_from_nth. exact Hk.
Qed.

Lemma quot_pow2_exact (W T : Z) (e k : Z) :
  (0 <= k <= e)%Z -> T = (2 ^ e)%Z -> (W mod T = 0)%Z ->
  (2 ^ k * (W ÷ 2 ^ k) = W)%Z.
Proof.
  intros Hk -> Hmod.
  assert (Hpos : (0 < 2 ^ k)%Z) by (apply Z.pow_pos_nonneg; lia).
  assert (HT : (0 < 2 ^ e)%Z) by (apply Z.pow_pos_nonneg; lia).
  symmetry. apply Z.quot_exact; [lia|].
  apply Z.rem_divide; [lia|].
  apply Z.divide_trans with (2 ^ e)%Z.
  - exists (2 ^ (e - k))%Z. rewrite <- Z.pow_add_r by lia. f_equal. lia.
  - apply Z.mod_divide; [lia | exact Hmod].
Qed.

(** X3: when the wavelet levels do not exceed the edge extension
    ([WAVELET_LEVELS <= EXTEND_EDGE_AMOUNT < 31]), the wavelet buffers allocated
    for a frame loaded with extended edges halve exactly at every level:
    level [k] times [2^(k+1)] gives back the padded size, nothing is
    discarded. *)
Theorem createWaveletBuffers_exact {C : Config} {K : Kernels}
  (raw : RawImageBuffer) (cameraMetadata : RawCameraMetadata)
  (scalePreview : Q) (k : nat) :
  (Z.of_nat WAVELET_LEVELS <= EXTEND_EDGE_AMOUNT < 31)%Z ->
  (k < WAVELET_LEVELS)%nat ->
  let r := loadRawImage raw cameraMetadata true scalePreview in
  let W := buf_width (rawBuffer r) in
  let H := buf_height (rawBuffer r) in
  let level := nth k (createWaveletBuffers W H) (0, 0)%Z in
  (2 ^ Z.of_nat (S k) * fst level = W /\ 2 ^ Z.of_nat (S k) * snd level = H)%Z.
Proof.
  intros [HL _] Hk r W H level.
  assert (HE : (0 <= EXTEND_EDGE_AMOUNT)%Z) by lia.
  assert (HT : (0 < 2 ^ EXTEND_EDGE_AMOUNT)%Z) by (apply Z.pow_pos_nonneg; lia).
  destruct (loadRawImage_size raw cameraMetadata scalePreview)
    as (Hw & Hh & _).
  fold r in Hw, Hh. fold W in Hw. fold H in Hh.
  rewrite (cropOffset_mod _ HE) in Hw. rewrite (cropOffset_mod _ HE) in Hh.
  assert (HW : (W mod 2 ^ EXTEND_EDGE_AMOUNT = 0)%Z)
    by (rewrite Hw; apply pad_multiple; exact HT).
  assert (HH : (H mod 2 ^ EXTEND_EDGE_AMOUNT = 0)%Z)
    by (rewrite Hh; apply pad_multiple; exact HT).
  unfold level, createWaveletBuffers.
  rewrite (createWaveletBuffers_from_nth WAVELET_LEVELS W H k Hk).
  cbn [fst snd]. split.
  - apply quot_pow2_exact with (T := (2 ^ EXTEND_EDGE_AMOUNT)%Z)
                               (e := EXTEND_EDGE_AMOUNT); [lia|reflexivity|exact HW].
  - apply quot_pow2_exact with (T := (2 ^ EXTEND_EDGE_AMOUNT)%Z)
                               (e := EXTEND_EDGE_AMOUNT); [lia|reflexivity|exact HH].
Qed.

Lemma createWaveletBuffers_exact_witness :
  let r :=
    loadRawImage (C:=sampleConfig) (K:=sampleKernelsDng dng_ok)
      (sampleRawImage (sampleMetadata 10000000 100 (1, 1, 1)) 4000)
      (sampleCamera [1.8]) true 1 in
  let level :=
    nth 3 (createWaveletBuffers (C:=sampleConfig) (buf_width (rawBuffer r))
             (buf_height (rawBuffer r))) (0, 0)%Z in
  (Z.of_nat (@WAVELET_LEVELS sampleConfig)
   <= @EXTEND_EDGE_AMOUNT sampleConfig < 31)%Z
  /\ (3 < @WAVELET_LEVELS sampleConfig)%nat
  /\ level = (128, 128)%Z
  /\ (2 ^ 4 * fst level = 2048)%Z.
Proof.
  intros r level.
  assert (HL : (Z.of_nat (@WAVELET_LEVELS sampleConfig)
                <= @EXTEND_EDGE_AMOUNT sampleConfig < 31)%Z)
    by (vm_compute; split; [discriminate | reflexivity]).
  assert (Hk : (3 < @WAVELET_LEVELS sampleConfig)%nat) by (vm_compute; lia).
  split; [exact HL|]. split; [exact Hk|]. split; [vm_compute; reflexivity|].
  exact (proj1 (createWaveletBuffers_exact (C:=sampleConfig)
                  (K:=sampleKernelsDng dng_ok)
                  (sampleRawImage (sampleMetadata 10000000 100 (1, 1, 1)) 4000)
                  (sampleCamera [1.8]) 1 3 HL Hk)).
Defined.

(** ** The Bayer mosaic of the DNG file *)

(** The mosaic before the crop: even rows interleave planes 0 and 1, odd rows
    planes 2 and 3. *)
Lemma BuildRawImage_returns (c0 c1 c2 c3 : Image Z) (cropX cropY : Z) :
  (0 <= cropX <= cols c1)%Z ->
  (0 <= cropY <= rows c0)%Z ->
  BuildRawImage [c0; c1; c2; c3] cropX cropY
  = ret (mkImage (rows c0 * 2 - cropY * 2) (cols c1 * 2 - cropX * 2)
           (fun r c =>
              let Y := (r + cropY)%Z in
              let X := (c + cropX)%Z in
              if Z.even Y then
                if Z.even X then pixel c0 (Y ÷ 2) (X ÷ 2)
                else pixel c1 (Y ÷ 2) (X ÷ 2)
              else
                if Z.even X then pixel c2 (Y ÷ 2) (X ÷ 2)
                else pixel c3 (Y ÷ 2) (X ÷ 2))).
Proof.
  intros HX HY. unfold BuildRawImage.
  cbn [Num.at_index nth_error deref]. rewrite !bind_ret_l.
  unfold Mat_roi. cbn [rows cols pixel].
  replace ((0 <=? cropX) && (0 <=? cols c1 * 2 - cropX * 2)
           && (cropX + (cols c1 * 2 - cropX * 2) <=? cols c1 * 2)
           && (0 <=? cropY) && (0 <=? rows c0 * 2 - cropY * 2)
           && (cropY + (rows c0 * 2 - cropY * 2) <=? rows c0 * 2))%Z
    with true; [reflexivity|].
  symmetry. repeat (apply andb_true_intro; split); apply Z.leb_le; lia.
Qed.

(** X4: for four planes of one size and a crop that fits
    ([0 <= cropX <= cols], [0 <= cropY <= rows]), [BuildRawImage] returns
    the mosaic of twice the plane size less the crop on both sides, in which
    the pixel at mosaic position [(Y, X) = (y + cropY, x + cropX)] is the
    pixel [(Y / 2, X / 2)] of plane [2 * (Y mod 2) + X mod 2]: even rows
    interleave planes 0 and 1, odd rows planes 2 and 3. *)
Theorem BuildRawImage_mosaic (c0 c1 c2 c3 : Image Z) (cropX cropY : Z) :
  Forall (fun p => rows p = rows c0 /\ cols p = cols c0) [c1; c2; c3] ->
  (0 <= cropX <= cols c0)%Z ->
  (0 <= cropY <= rows c0)%Z ->
  exists img : Image Z,
    BuildRawImage [c0; c1; c2; c3] cropX cropY = ret img
    /\ rows img = (rows c0 * 2 - cropY * 2)%Z
    /\ cols img = (cols c0 * 2 - cropX * 2)%Z
    /\ forall y x : Z,
         (0 <= y < rows img)%Z -> (0 <= x < cols img)%Z ->
         pixel img y x
         = pixel
             (nth (Z.to_nat (2 * ((y + cropY) mod 2) + (x + cropX) mod 2))
                [c0; c1; c2; c3] c0)
             ((y + cropY) / 2) ((x + cropX) / 2).
Proof.
  intros Hsize HX HY.
  assert (Hc1 : cols c1 = cols c0)
    by (inversion Hsize as [|? ? [_ Hc] _]; exact Hc).
  eexists. split; [apply BuildRawImage_returns; rewrite ?Hc1; assumption|].
  cbn [rows cols pixel]. split; [reflexivity|].
  split; [rewrite Hc1; reflexivity|].
  intros y x Hy Hx. cbv zeta.
  rewrite !Z.quot_div_nonneg by lia.
  rewrite !Zeven_mod.
  pose proof (Z.mod_pos_bound (y + cropY) 2 ltac:(lia)) as HYm.
  pose proof (Z.mod_pos_bound (x + cropX) 2 ltac:(lia)) as HXm.
  assert (HYc : ((y + cropY) mod 2 = 0 \/ (y + cropY) mod 2 = 1)%Z) by lia.
  assert (HXc : ((x + cropX) mod 2 = 0 \/ (x + cropX) mod 2 = 1)%Z) by lia.
  destruct HYc as [-> | ->], HXc as [-> | ->]; reflexivity.
Qed.

Lemma BuildRawImage_mosaic_witness :
  let plane (v : Z) := mkImage 2 2 (fun r c => (v + 10 * r + c)%Z) in
  exists img : Image Z,
    BuildRawImage [plane 0%Z; plane 100%Z; plane 200%Z; plane 300%Z] 1 0
    = ret img
    /\ rows img = 4%Z /\ cols img = 2%Z
    /\ pixel img 1 0 = 300%Z.
Proof.
  intros plane.
  assert (Hsize : Forall (fun p => rows p = rows (plane 0%Z)
                                   /\ cols p = cols (plane 0%Z))
                    [plane 100%Z; plane 200%Z; plane 300%Z])
    by (repeat constructor).
  assert (HX : (0 <= 1 <= cols (plane 0%Z))%Z) by (simpl; lia).
  assert (HY : (0 <= 0 <= rows (plane 0%Z))%Z) by (simpl; lia).
  destruct (BuildRawImage_mosaic (plane 0%Z) (plane 100%Z) (plane 200%Z)
              (plane 300%Z) 1 0 Hsize HX HY) as (img & Himg & Hr & Hc & Hpx).
  exists img. split; [exact Himg|]. split; [exact Hr|]. split; [exact Hc|].
  apply Hpx; rewrite ?Hr, ?Hc; simpl; lia.
Defined.

(** X5: the crop [process] applies before writing the DNG file.  For four
    planes of the padded size of [loadRawImage], [BuildRawImage] with the
    offsets [process] computes returns a mosaic of exactly twice the
    half-resolution size of the reference frame.  [loadRawImage] hands
    [deinterleave_raw] half of each offset as the margin.  Along an axis
    whose offset is even the crop starts where the margin ends: the pixel
    [v] of the mosaic is the pixel [v / 2 + margin] of a plane of parity
    [v mod 2], so the padding is undone.  Along an axis whose offset is odd
    the crop starts one pixel later: the pixel [v] is the pixel
    [(v + 1) / 2 + margin] of a plane of the other parity. *)
Theorem BuildRawImage_process_crop {C : Config} {K : Kernels}
  (raw : RawImageBuffer) (cameraMetadata : RawCameraMetadata)
  (scalePreview : Q) (c0 c1 c2 c3 : Image Z) :
  (0 <= EXTEND_EDGE_AMOUNT < 31)%Z ->
  (0 <= width raw)%Z -> (0 <= height raw)%Z ->
  Forall
    (fun p =>
       rows p = buf_height
                  (rawBuffer (loadRawImage raw cameraMetadata true scalePreview))
       /\ cols p = buf_width
                     (rawBuffer
                        (loadRawImage raw cameraMetadata true scalePreview)))
    [c0; c1; c2; c3] ->
  let offsetX := cropOffset (width raw ÷ 2) in
  let offsetY := cropOffset (height raw ÷ 2) in
  let axis (offset v : Z) : Z * Z :=
    if Z.even offset then ((v mod 2)%Z, (v / 2 + offset ÷ 2)%Z)
    else ((1 - v mod 2)%Z, ((v + 1) / 2 + offset ÷ 2)%Z) in
  buf_at (rawBuffer (loadRawImage raw cameraMetadata true scalePreview))
  = fst (deinterleave_raw raw cameraMetadata (offsetX ÷ 2)%Z (offsetY ÷ 2)%Z
           scalePreview)
  /\ exists img : Image Z,
       BuildRawImage [c0; c1; c2; c3] offsetX offsetY = ret img
       /\ cols img = (width raw ÷ 2 * 2)%Z
       /\ rows img = (height raw ÷ 2 * 2)%Z
       /\ forall y x : Z,
            (0 <= y < rows img)%Z -> (0 <= x < cols img)%Z ->
            pixel img y x
            = pixel
                (nth (Z.to_nat (2 * fst (axis offsetY y) + fst (axis offsetX x)))
                   [c0; c1; c2; c3] c0)
                (snd (axis offsetY y)) (snd (axis offsetX x)).
Proof.
  intros [HE _] Hw Hh Hsize offsetX offsetY axis.
  split; [reflexivity|].
  assert (Hrows : rows c0 = buf_height
              (rawBuffer (loadRawImage raw cameraMetadata true scalePreview)))
    by (inversion Hsize as [|? ? [Hr _] _]; exact Hr).
  assert (Hcols : cols c1 = buf_width
              (rawBuffer (loadRawImage raw cameraMetadata true scalePreview))).
  { inversion Hsize as [|? ? _ Hrest]. inversion Hrest as [|? ? [_ Hc] _].
    exact Hc. }
  destruct (loadRawImage_size raw cameraMetadata scalePreview) as (HW & HH & _).
  cbv zeta in HW, HH. fold offsetX in HW. fold offsetY in HH.
  assert (HT : (0 < 2 ^ EXTEND_EDGE_AMOUNT)%Z) by (apply Z.pow_pos_nonneg; lia).
  assert (Hhw : (0 <= width raw ÷ 2)%Z) by (apply Z.quot_pos; lia).
  assert (Hhh : (0 <= height raw ÷ 2)%Z) by (apply Z.quot_pos; lia).
  pose proof (Z.mod_pos_bound (- (width raw ÷ 2)) _ HT) as Hcx.
  pose proof (Z.mod_pos_bound (- (height raw ÷ 2)) _ HT) as Hcy.
  rewrite <- (cropOffset_mod _ HE) in Hcx. rewrite <- (cropOffset_mod _ HE) in Hcy.
  fold offsetX in Hcx. fold offsetY in Hcy.
  assert (Haxis : forall offset v : Z,
             (0 <= offset)%Z -> (0 <= v)%Z ->
             fst (axis offset v) = ((v + offset) mod 2)%Z
             /\ snd (axis offset v) = ((v + offset) ÷ 2)%Z
             /\ (0 <= fst (axis offset v) <= 1)%Z).
  { intros offset v Ho Hv. unfold axis.
    rewrite !Z.quot_div_nonneg by lia.
    pose proof (Z.div_mod offset 2 ltac:(lia)) as Do.
    pose proof (Z.mod_pos_bound offset 2 ltac:(lia)) as Bo.
    pose proof (Z.div_mod v 2 ltac:(lia)) as Dv.
    pose proof (Z.mod_pos_bound v 2 ltac:(lia)) as Bv.
    rewrite Zeven_mod.
    destruct (Z.eqb_spec (offset mod 2) 0) as [E|E]; cbn [fst snd].
    - replace (v + offset)%Z with (v + (offset / 2) * 2)%Z by lia.
      rewrite Z.mod_add, Z.div_add by lia. lia.
    - replace (v + offset)%Z with ((v + 1) + (offset / 2) * 2)%Z by lia.
      rewrite Z.mod_add, Z.div_add by lia.
      assert (Hv2 : (v mod 2 = 0 \/ v mod 2 = 1)%Z) by lia.
      destruct Hv2 as [Ev|Ev].
      + replace (v + 1)%Z with (1 + (v / 2) * 2)%Z by lia.
        rewrite Z.mod_add by lia. rewrite Ev. cbn. lia.
      + replace (v + 1)%Z with (0 + (v / 2 + 1) * 2)%Z by lia.
        rewrite Z.mod_add by lia. rewrite Ev. cbn. lia. }
  eexists. split; [|split; [|split]].
  - apply BuildRawImage_returns.
    + rewrite Hcols, HW. lia.
    + rewrite Hrows, HH. lia.
  - cbn [rows cols]. rewrite Hcols, HW. lia.
  - cbn [rows cols]. rewrite Hrows, HH. lia.
  - cbn [rows cols pixel]. intros y x Hy Hx. cbv zeta.
    destruct (Haxis offsetY y ltac:(lia) ltac:(lia)) as (Ey1 & Ey2 & By).
    destruct (Haxis offsetX x ltac:(lia) ltac:(lia)) as (Ex1 & Ex2 & Bx).
    rewrite Ey2, Ex2. rewrite !Zeven_mod, <- Ey1, <- Ex1.
    assert (HYc : (fst (axis offsetY y) = 0 \/ fst (axis offsetY y) = 1)%Z)
      by lia.
    assert (HXc : (fst (axis offsetX x) = 0 \/ fst (axis offsetX x) = 1)%Z)
      by lia.
    destruct HYc as [-> | ->], HXc as [-> | ->]; reflexivity.
Qed.

Lemma BuildRawImage_process_crop_witness :
  let plane (v : Z) := mkImage 2048 2048 (fun r c => (v + 10000 * r + c)%Z) in
  (exists img : Image Z,
     BuildRawImage [plane 0%Z; plane 1%Z; plane 2%Z; plane 3%Z]
       (cropOffset (C:=sampleConfig) 2000) (cropOffset (C:=sampleConfig) 2000)
     = ret img
     /\ cropOffset (C:=sampleConfig) 2000 = 48%Z
     /\ cols img = 4000%Z /\ rows img = 4000%Z
     /\ pixel img 0 0 = (0 + 10000 * 24 + 24)%Z)
  /\ (exists img : Image Z,
        BuildRawImage [plane 0%Z; plane 1%Z; plane 2%Z; plane 3%Z]
          (cropOffset (C:=sampleConfig) 2001) (cropOffset (C:=sampleConfig) 2000)
        = ret img
        /\ cropOffset (C:=sampleConfig) 2001 = 47%Z
        /\ cols img = 4002%Z /\ rows img = 4000%Z
        /\ pixel img 0 0 = (1 + 10000 * 24 + 23)%Z).
Proof.
  intros plane.
  assert (HE : (0 <= @EXTEND_EDGE_AMOUNT sampleConfig < 31)%Z)
    by (vm_compute; split; [discriminate | reflexivity]).
  split.
  - pose (raw := sampleRawImage (sampleMetadata 10000000 100 (1, 1, 1)) 4000).
    destruct (BuildRawImage_process_crop (C:=sampleConfig)
                (K:=sampleKernelsDng dng_ok) raw (sampleCamera [1.8]) 1
                (plane 0%Z) (plane 1%Z) (plane 2%Z) (plane 3%Z) HE)
      as (_ & img & Himg & Hc & Hr & Hpx);
      [vm_compute; discriminate | vm_compute; discriminate
      | repeat constructor |].
    exists img. split; [exact Himg|]. split; [vm_compute; reflexivity|].
    split; [exact Hc|]. split; [exact Hr|].
    rewrite (Hpx 0%Z 0%Z) by (rewrite ?Hr, ?Hc; vm_compute; split; congruence).
    vm_compute. reflexivity.
  - pose (raw := {| width := 4002; height := 4000;
                    metadata := sampleMetadata 10000000 100 (1, 1, 1);
                    data := data (sampleRawImage
                                    (sampleMetadata 10000000 100 (1, 1, 1)) 8) |}).
    destruct (BuildRawImage_process_crop (C:=sampleConfig)
                (K:=sampleKernelsDng dng_ok) raw (sampleCamera [1.8]) 1
                (plane 0%Z) (plane 1%Z) (plane 2%Z) (plane 3%Z) HE)
      as (_ & img & Himg & Hc & Hr & Hpx);
      [vm_compute; discriminate | vm_compute; discriminate
      | repeat constructor |].
    exists img. split; [exact Himg|]. split; [vm_compute; reflexivity|].
    split; [exact Hc|]. split; [exact Hr|].
    rewrite (Hpx 0%Z 0%Z) by (rewrite ?Hr, ?Hc; vm_compute; split; congruence).
    vm_compute. reflexivity.
Defined.

(** ** Paths and strings *)

Lemma length_append (s1 s2 : string) :
  String.length (s1 ++ s2) = (String.length s1 + String.length s2)%nat.
Proof. induction s1 as [|a s1 IH]; simpl; [reflexivity | rewrite IH; reflexivity]. Qed.

Lemma substring_all (s : string) (m : nat) :
  (String.length s <= m)%nat -> substring 0 m s = s.
Proof.
  revert m. induction s as [|a s IH]; intros m Hm.
  - destruct m; reflexivity.
  - destruct m as [|m]; simpl in Hm; [lia|].
    simpl. rewrite IH by lia. reflexivity.
Qed.

Lemma substring_append_prefix (p s : string) :
  substring 0 (String.length p) (p ++ s) = p.
Proof.
  induction p as [|a p IH]; simpl.
  - destruct s; reflexivity.
  - rewrite IH. reflexivity.
Qed.

Lemma substring_append_skip (p s : string) (m : nat) :
  substring (String.length p) m (p ++ s) = substring 0 m s.
Proof. induction p as [|a p IH]; simpl; [reflexivity | exact IH]. Qed.

Lemma substring_split (s : string) (n : nat) :
  (n <= String.length s)%nat ->
  s = (substring 0 n s ++ substring n (String.length s - n) s)%string.
Proof.
  revert n. induction s as [|a s IH]; intros n Hn.
  - destruct n; reflexivity.
  - destruct n as [|n].
    + simpl. rewrite substring_all by lia. reflexivity.
    + simpl in Hn. simpl. rewrite <- IH by lia. reflexivity.
Qed.

Lemma substring_after (p r : string) (c : ascii) (m : nat) :
  substring (S (String.length p)) m (p ++ String c r) = substring 0 m r.
Proof. induction p as [|a p IH]; simpl; [reflexivity | exact IH]. Qed.

(** [find_last_of] splits a string at the last occurrence of the
    character. *)
Lemma find_last_of_split (s : string) (c : ascii) (i : nat) :
  find_last_of s c = Some i ->
  exists p r : string,
    s = (p ++ String c r)%string /\ String.length p = i
    /\ find_last_of r c = None.
Proof.
  revert i. induction s as [|a s IH]; intros i H; simpl in H; [discriminate|].
  destruct (find_last_of s c) as [j|] eqn:E.
  - injection H as <-. destruct (IH j eq_refl) as (p & r & -> & Hp & Hr).
    exists (String a p), r. simpl. rewrite Hp. repeat split. exact Hr.
  - destruct (Ascii.eqb_spec a c) as [->|Hne]; [|discriminate].
    injection H as <-. exists EmptyString, s. repeat split. exact E.
Qed.

Lemma find_last_of_append (p r : string) (c : ascii) :
  find_last_of r c = None ->
  find_last_of (p ++ String c r) c = Some (String.length p).
Proof.
  intros Hr. induction p as [|a p IH]; simpl.
  - rewrite Hr, Ascii.eqb_refl. reflexivity.
  - rewrite IH. reflexivity.
Qed.

(** X6: [GetBasePath] splits a path at its last slash: the file name it
    returns contains no slash, and the base path, a slash and the file name
    give back the path.  A path without a slash has the empty base path and
    is its own file name. *)
Theorem GetBasePath_join (path : string) :
  let '(basePath, filename) := GetBasePath path in
  find_last_of filename "/" = None
  /\ match find_last_of path "/" with
     | None => basePath = EmptyString /\ filename = path
     | Some index =>
         path = (basePath ++ "/" ++ filename)%string
         /\ String.length basePath = index
     end.
Proof.
  unfold GetBasePath.
  destruct (find_last_of path "/") as [index|] eqn:E.
  - destruct (find_last_of_split _ _ _ E) as (p & r & -> & Hp & Hr).
    subst index. rewrite substring_append_prefix, substring_after.
    rewrite substring_all by (rewrite length_append; simpl; lia).
    repeat split. exact Hr.
  - repeat split. exact E.
Qed.

(** X7: the DNG file [process] writes is named after the output path with
    everything from its last dot on replaced by [.dng]; a path without a dot
    gets [.dng] appended.  The dot is searched in the whole path, so a dot in
    a directory name counts when the file name has none. *)
Theorem dngFileName_extension (stem ext : string) :
  find_last_of ext "." = None ->
  dngFileName (stem ++ "." ++ ext) = (stem ++ ".dng")%string
  /\ dngFileName ext = (ext ++ ".dng")%string.
Proof.
  intros Hext. unfold dngFileName. split.
  - change (stem ++ "." ++ ext)%string with (stem ++ String "." ext)%string.
    rewrite (find_last_of_append stem ext "." Hext).
    rewrite substring_append_prefix. reflexivity.
  - rewrite Hext. reflexivity.
Qed.

Lemma dngFileName_extension_witness :
  find_last_of "2020/IMG_0001" "." = None
  /\ dngFileName "/sdcard/photos.2020/IMG_0001" = "/sdcard/photos.dng"%string
  /\ dngFileName "/sdcard/IMG_0001.jpg" = "/sdcard/IMG_0001.dng"%string.
Proof.
  split; [reflexivity|]. split.
  - exact (proj1 (dngFileName_extension "/sdcard/photos" "2020/IMG_0001"
                    eq_refl)).
  - exact (proj1 (dngFileName_extension "/sdcard/IMG_0001" "jpg" eq_refl)).
Defined.

(** X8: [EndsWith] holds exactly when the string is some prefix followed by
    the ending; in particular every string ends with the empty ending and a
    string shorter than the ending never does. *)
Theorem EndsWith_spec (str ending : string) :
  EndsWith str ending = true
  <-> exists prefix : string, str = (prefix ++ ending)%string.
Proof.
  unfold EndsWith. split.
  - destruct (Nat.leb_spec (String.length ending) (String.length str))
      as [Hle|Hlt]; [|discriminate].
    intros H. apply String.eqb_eq in H.
    exists (substring 0 (String.length str - String.length ending) str).
    rewrite (substring_split str (String.length str - String.length ending))
      at 1 by lia.
    replace (String.length str - (String.length str - String.length ending))%nat
      with (String.length ending) by lia.
    rewrite H. reflexivity.
  - intros [prefix ->]. rewrite length_append.
    destruct (Nat.leb_spec (String.length ending)
                (String.length prefix + String.length ending)) as [_|Hlt]; [|lia].
    replace (String.length prefix + String.length ending - String.length ending)%nat
      with (String.length prefix) by lia.
    rewrite substring_append_skip, substring_all by lia.
    apply String.eqb_refl.
Qed.

(** ** Exposure values of a capture *)

Lemma calcEv_total {L : Libm} (cameraMetadata : RawCameraMetadata)
  (metadata : RawImageMetadata) :
  exists ev : Q, calcEv cameraMetadata metadata = Some ev.
Proof.
  unfold calcEv. destruct (apertures cameraMetadata) as [|a rest]; simpl;
    eexists; reflexivity.
Qed.

Lemma findFrame_In (c : RawContainer) (name : string) :
  In name (getFrames c) <-> exists f, findFrame c name = Some f.
Proof.
  unfold getFrames, findFrame. induction (storedFrames c) as [|[n f] l IH]; simpl.
  - split; [intros [] | intros [f H]; discriminate].
  - destruct (String.eqb_spec n name) as [->|Hne].
    + split; [intros _; now exists f | intros _; now left].
    + rewrite <- IH. split; [intros [H|H]; [contradiction | exact H] | now right].
Qed.

Lemma getFrame_In (c : RawContainer) (name : string) :
  In name (getFrames c) -> exists frame, getFrame c name = Some frame.
Proof.
  intros H. apply findFrame_In in H. destruct H as [f Hf].
  unfold getFrame. rewrite Hf. simpl. eexists; reflexivity.
Qed.

Lemma frameEv_In {L : Libm} (c : RawContainer) (name : string) :
  In name (getFrames c) -> exists ev, frameEv c name = Some ev.
Proof.
  intros H. destruct (getFrame_In c name H) as [frame Hf].
  unfold frameEv. rewrite Hf. apply calcEv_total.
Qed.

Lemma getMinEv_step_frameEv {L : Libm} (c : RawContainer) (minEv ev : Q)
  (name : string) :
  frameEv c name = Some ev ->
  getMinEv_step c minEv name = ret (if Num.ltb ev minEv then ev else minEv).
Proof.
  unfold frameEv, getMinEv_step. destruct (getFrame c name) as [frame|];
    [|discriminate].
  intros H. cbn [deref]. rewrite bind_ret_l, H. cbn [deref].
  rewrite bind_ret_l. reflexivity.
Qed.

(** The loop of [getMinEv] keeps the least exposure value seen so far. *)
Lemma getMinEv_loop_spec {L : Libm} (c : RawContainer) (names : list string) :
  forall minEv : Q,
    (forall name, In name names -> In name (getFrames c)) ->
    exists m : Q,
      getMinEv_loop c minEv names = ret m
      /\ m <= minEv
      /\ (forall name ev, In name names -> frameEv c name = Some ev -> m <= ev)
      /\ (m = minEv \/ exists name, In name names /\ frameEv c name = Some m).
Proof.
  induction names as [|name rest IH]; intros minEv Hin.
  - exists minEv. simpl. repeat split.
    + apply Qle_refl.
    + intros ? ? [].
    + now left.
  - destruct (frameEv_In c name (Hin name (or_introl eq_refl))) as [ev Hev].
    simpl getMinEv_loop. rewrite (getMinEv_step_frameEv c minEv ev name Hev).
    rewrite bind_ret_l.
    destruct (IH (if Num.ltb ev minEv then ev else minEv))
      as (m & Hm & Hle & Hall & Hatt).
    { intros n Hn. apply Hin. now right. }
    exists m. split; [exact Hm|].
    assert (Hstep : (if Num.ltb ev minEv then ev else minEv) <= minEv
                    /\ (if Num.ltb ev minEv then ev else minEv) <= ev).
    { destruct (ltb_spec ev minEv) as [Hlt|Hge]; split;
        try apply Qle_refl; try (apply Qlt_le_weak; exact Hlt).
      apply Qnot_lt_le. exact Hge. }
    destruct Hstep as [Hs1 Hs2].
    split; [eapply Qle_trans; eassumption|]. split.
    + intros n e [<-|Hn] He.
      * rewrite Hev in He. injection He as <-. eapply Qle_trans; eassumption.
      * eapply Hall; eassumption.
    + destruct Hatt as [->|(n & Hn & He)].
      * destruct (Num.ltb ev minEv); [right | now left].
        exists name. split; [now left | exact Hev].
      * right. exists n. split; [now right | exact He].
Qed.

(** X9: [getMinEv] always returns, for every container, the least of 100000
    and the exposure values of the stored frames: the result is at most
    100000 and at most the EV of every frame, and it is 100000 (the initial
    value, returned for an empty container) or the EV of some frame. *)
Theorem getMinEv_minimum {L : Libm} (c : RawContainer) :
  exists m : Q,
    getMinEv c = ret m
    /\ m <= 100000
    /\ (forall name ev,
          In name (getFrames c) -> frameEv c name = Some ev -> m <= ev)
    /\ (m = 100000
        \/ exists name, In name (getFrames c) /\ frameEv c name = Some m).
Proof.
  unfold getMinEv. apply getMinEv_loop_spec. intros name H. exact H.
Qed.

(** ** Moving the underexposed frames out of the container *)

Lemma find_filter_name {A : Type} (g : string -> bool) (name : string)
  (l : list (string * A)) :
  find (fun f => String.eqb (fst f) name) (filter (fun f => g (fst f)) l)
  = if g name then find (fun f => String.eqb (fst f) name) l else None.
Proof.
  induction l as [|[n a] l IH]; simpl.
  - destruct (g name); reflexivity.
  - destruct (g n) eqn:Hg; simpl.
    + destruct (String.eqb_spec n name) as [->|Hne].
      * rewrite Hg. reflexivity.
      * exact IH.
    + destruct (String.eqb_spec n name) as [->|Hne].
      * rewrite Hg in *. exact IH.
      * exact IH.
Qed.

Lemma filter_filter {A : Type} (p q : A -> bool) (l : list A) :
  filter p (filter q l) = filter (fun x => p x && q x) l.
Proof.
  induction l as [|a l IH]; simpl; [reflexivity|].
  destruct (q a); simpl.
  - rewrite andb_true_r. destruct (p a); rewrite IH; reflexivity.
  - rewrite andb_false_r. exact IH.
Qed.

Lemma map_fst_filter {A : Type} (g : string -> bool) (l : list (string * A)) :
  map fst (filter (fun f => g (fst f)) l) = filter g (map fst l).
Proof.
  induction l as [|[n a] l IH]; simpl; [reflexivity|].
  destruct (g n); simpl; rewrite IH; reflexivity.
Qed.

Lemma existsb_eqb_In (name : string) (l : list string) :
  existsb (String.eqb name) l = true <-> In name l.
Proof.
  rewrite existsb_exists. split.
  - intros (x & Hx & E). apply String.eqb_eq in E. now subst.
  - intros H. exists name. split; [exact H | apply String.eqb_refl].
Qed.

Lemma keep_moved (g : string -> bool) (done : list string) (name x : string) :
  g name = true ->
  negb (String.eqb x name) && negb (existsb (String.eqb x) done && g x)
  = negb (existsb (String.eqb x) (done ++ [name]) && g x).
Proof.
  intros Hg. rewrite existsb_app. simpl existsb. rewrite orb_false_r.
  destruct (String.eqb_spec x name) as [->|Hne].
  - rewrite Hg, orb_true_r. reflexivity.
  - rewrite orb_false_r. reflexivity.
Qed.

Lemma keep_unmoved (g : string -> bool) (done : list string) (name x : string) :
  g name = false ->
  negb (existsb (String.eqb x) done && g x)
  = negb (existsb (String.eqb x) (done ++ [name]) && g x).
Proof.
  intros Hg. rewrite existsb_app. simpl existsb. rewrite orb_false_r.
  destruct (String.eqb_spec x name) as [->|Hne].
  - rewrite Hg, !andb_false_r. reflexivity.
  - rewrite orb_false_r. reflexivity.
Qed.

Lemma removedFrom_findFrame {L : Libm} (c0 : RawContainer) (refEv : Q)
  (done : list string) (st : RawContainer * list RawImageBuffer)
  (name : string) :
  removedFrom c0 refEv done st -> ~ In name done ->
  findFrame (fst st) name = findFrame c0 name.
Proof.
  intros (_ & _ & Hs & _) Hnot. unfold findFrame. rewrite Hs.
  rewrite (find_filter_name
             (fun n => negb (existsb (String.eqb n) done && movedOut c0 refEv n))).
  destruct (existsb (String.eqb name) done) eqn:E.
  - apply existsb_eqb_In in E. contradiction.
  - reflexivity.
Qed.

Lemma removeUnderexposed_step_spec {L : Libm} (c0 : RawContainer) (refEv : Q)
  (done : list string) (st : RawContainer * list RawImageBuffer)
  (name : string) :
  removedFrom c0 refEv done st -> ~ In name done -> In name (getFrames c0) ->
  exists st',
    removeUnderexposed_step refEv st name = ret st'
    /\ removedFrom c0 refEv (done ++ [name]) st'.
Proof.
  intros Hinv Hnot Hin.
  pose proof (removedFrom_findFrame c0 refEv done st name Hinv Hnot) as Hfind.
  destruct Hinv as (Hcam & Hset & Hs & Hu).
  destruct st as [c' u]. cbn [fst snd] in *.
  assert (HgetF : getFrame c' name = getFrame c0 name)
    by (unfold getFrame; rewrite Hfind; reflexivity).
  assert (Hload : loadFrame c' name = loadFrame c0 name)
    by (unfold loadFrame; rewrite Hfind; reflexivity).
  destruct (getFrame_In c0 name Hin) as [frame Hframe].
  destruct (calcEv_total (getCameraMetadata c0) (metadata frame)) as [ev Hev].
  assert (Hfev : frameEv c0 name = Some ev)
    by (unfold frameEv; rewrite Hframe; exact Hev).
  unfold removeUnderexposed_step.
  rewrite HgetF, Hframe. cbn [deref]. rewrite bind_ret_l.
  rewrite Hcam, Hev. cbn [deref]. rewrite bind_ret_l. rewrite Hload.
  assert (Hmoved : movedOut c0 refEv name
                   = match loadFrame c0 name with
                     | Some _ => Num.ltb 1 (ev - refEv)
                     | None => false
                     end)
    by (unfold movedOut; rewrite Hfev; reflexivity).
  assert (Himage : flat_map (movedImage c0 refEv) (done ++ [name])
                   = u ++ movedImage c0 refEv name)
    by (rewrite flat_map_app, Hu; simpl; rewrite app_nil_r; reflexivity).
  destruct (Num.ltb 1 (ev - refEv)) eqn:Hlt;
    [destruct (loadFrame c0 name) as [raw|] eqn:Hraw|].
  - (* moved out *)
    eexists. split; [reflexivity|].
    unfold removedFrom. cbn [fst snd removeFrame getCameraMetadata
                             getPostProcessSettings storedFrames].
    repeat split; try assumption.
    + rewrite Hs, filter_filter. apply filter_ext. intros f.
      apply keep_moved. exact Hmoved.
    + rewrite Himage. unfold movedImage. rewrite Hmoved, Hraw. reflexivity.
  - (* does not load *)
    exists (c', u). split; [reflexivity|].
    unfold removedFrom. cbn [fst snd]. repeat split; try assumption.
    + rewrite Hs. apply filter_ext. intros f. apply keep_unmoved. exact Hmoved.
    + rewrite Himage. unfold movedImage. rewrite Hmoved, app_nil_r.
      reflexivity.
  - (* within one stop *)
    assert (Hm : movedOut c0 refEv name = false)
      by (rewrite Hmoved; destruct (loadFrame c0 name); reflexivity).
    exists (c', u). split; [reflexivity|].
    unfold removedFrom. cbn [fst snd]. repeat split; try assumption.
    + rewrite Hs. apply filter_ext. intros f. apply keep_unmoved. exact Hm.
    + rewrite Himage. unfold movedImage. rewrite Hm, app_nil_r.
      reflexivity.
Qed.

Lemma removeUnderexposed_loop_spec {L : Libm} (c0 : RawContainer) (refEv : Q)
  (names : list string) :
  forall (done : list string) (st : RawContainer * list RawImageBuffer),
    removedFrom c0 refEv done st ->
    NoDup (done ++ names) ->
    (forall name, In name names -> In name (getFrames c0)) ->
    exists st',
      removeUnderexposed_loop refEv st names = ret st'
      /\ removedFrom c0 refEv (done ++ names) st'.
Proof.
  induction names as [|name rest IH]; intros done st Hinv Hnd Hin.
  - exists st. rewrite app_nil_r. split; [reflexivity | exact Hinv].
  - assert (Hnot : ~ In name done).
    { intros Hd. apply NoDup_remove_2 in Hnd. apply Hnd.
      apply in_or_app. now left. }
    destruct (removeUnderexposed_step_spec c0 refEv done st name Hinv Hnot
                (Hin name (or_introl eq_refl))) as (st1 & Hstep & Hinv1).
    simpl removeUnderexposed_loop. rewrite Hstep, bind_ret_l.
    destruct (IH (done ++ [name]) st1 Hinv1) as (st' & Hloop & Hinv').
    + rewrite <- app_assoc. exact Hnd.
    + intros n Hn. apply Hin. now right.
    + exists st'. split; [exact Hloop|]. rewrite <- app_assoc in Hinv'.
      exact Hinv'.
Qed.

Lemma removeUnderexposed_spec {L : Libm} (c : RawContainer) (refEv : Q) :
  NoDup (getFrames c) -> isHdr c = true -> getMinEv c = ret refEv ->
  exists (c' : RawContainer) (u : list RawImageBuffer),
    removeUnderexposed c = ret (c', u)
    /\ getFrames c'
       = filter (fun name => negb (movedOut c refEv name)) (getFrames c)
    /\ u = flat_map (movedImage c refEv) (getFrames c)
    /\ getCameraMetadata c' = getCameraMetadata c
    /\ getPostProcessSettings c' = getPostProcessSettings c.
Proof.
  intros Hnd Hhdr Hmin. unfold removeUnderexposed. rewrite Hhdr, Hmin, bind_ret_l.
  destruct (removeUnderexposed_loop_spec c refEv (getFrames c) [] (c, []))
    as ([c' u] & Hloop & Hcam & Hset & Hs & Hu).
  - unfold removedFrom. cbn [fst snd]. repeat split.
    simpl. induction (storedFrames c) as [|f l IHl]; simpl;
      [reflexivity | f_equal; exact IHl].
  - exact Hnd.
  - intros name H. exact H.
  - cbn [fst snd app] in *. exists c', u. split; [exact Hloop|].
    repeat split; try assumption.
    unfold getFrames. rewrite Hs.
    rewrite <- (map_fst_filter (fun name => negb (movedOut c refEv name))).
    f_equal. apply filter_ext_in. intros f Hf.
    assert (E : existsb (String.eqb (fst f)) (getFrames c) = true).
    { apply existsb_eqb_In. unfold getFrames. apply in_map. exact Hf. }
    rewrite E. reflexivity.
Qed.

(** X10: for an HDR capture whose frames have distinct names, the first
    block of [process] always returns, and it moves out of the container
    exactly the frames that can be loaded and whose exposure value is more
    than one stop above the minimum [getMinEv] returns: the container keeps
    the other frames, in their order, and the list of underexposed images
    holds the moved frames, in their order.  The loop visits the frame names
    the container had when the loop started. *)
Theorem removeUnderexposed_partition {L : Libm} (c : RawContainer) :
  NoDup (getFrames c) ->
  isHdr c = true ->
  exists (refEv : Q) (c' : RawContainer) (u : list RawImageBuffer),
    getMinEv c = ret refEv
    /\ removeUnderexposed c = ret (c', u)
    /\ getFrames c'
       = filter (fun name => negb (movedOut c refEv name)) (getFrames c)
    /\ u = flat_map (movedImage c refEv) (getFrames c)
    /\ getCameraMetadata c' = getCameraMetadata c
    /\ getPostProcessSettings c' = getPostProcessSettings c.
Proof.
  intros Hnd Hhdr.
  destruct (getMinEv_loop_spec c (getFrames c) 100000 (fun _ H => H))
    as (refEv & Hmin & _).
  exists refEv.
  destruct (removeUnderexposed_spec c refEv Hnd Hhdr Hmin) as (c' & u & H).
  exists c', u. split; [exact Hmin | exact H].
Qed.

Lemma removeUnderexposed_partition_witness :
  NoDup (getFrames sampleHdrCapture)
  /\ isHdr sampleHdrCapture = true
  /\ exists (refEv : Q) (c' : RawContainer) (u : list RawImageBuffer),
       getMinEv (L:=sampleLibm) sampleHdrCapture = ret refEv
       /\ removeUnderexposed (L:=sampleLibm) sampleHdrCapture = ret (c', u)
       /\ getFrames c'
          = filter (fun name => negb (movedOut (L:=sampleLibm) sampleHdrCapture
                                        refEv name))
              (getFrames sampleHdrCapture)
       /\ u = flat_map (movedImage (L:=sampleLibm) sampleHdrCapture refEv)
                (getFrames sampleHdrCapture)
       /\ getCameraMetadata c' = getCameraMetadata sampleHdrCapture
       /\ getPostProcessSettings c' = getPostProcessSettings sampleHdrCapture.
Proof.
  assert (Hnd : NoDup (getFrames sampleHdrCapture)).
  { repeat constructor; simpl; intuition discriminate. }
  split; [exact Hnd|]. split; [reflexivity|].
  exact (removeUnderexposed_partition (L:=sampleLibm) sampleHdrCapture Hnd
           eq_refl).
Defined.

(** X11: in an HDR capture with distinct frame names, a frame of least
    exposure value stays in the container (when that value is at most
    100001, the initial minimum plus one stop): the removal of underexposed
    frames never empties such a capture, so the reference frame [process]
    picks next exists. *)
Theorem removeUnderexposed_keeps_least {L : Libm} (c : RawContainer)
  (name : string) (ev : Q) :
  NoDup (getFrames c) ->
  isHdr c = true ->
  In name (getFrames c) ->
  frameEv c name = Some ev ->
  (forall name' ev',
     In name' (getFrames c) -> frameEv c name' = Some ev' -> ev <= ev') ->
  ev <= 100001 ->
  exists (c' : RawContainer) (u : list RawImageBuffer),
    removeUnderexposed c = ret (c', u)
    /\ In name (getFrames c')
    /\ Num.is_empty (getFrames c') = false.
Proof.
  intros Hnd Hhdr Hin Hev Hleast Hbound.
  destruct (getMinEv_loop_spec c (getFrames c) 100000 (fun _ H => H))
    as (refEv & Hmin & Hle & Hall & Hatt).
  destruct (removeUnderexposed_spec c refEv Hnd Hhdr Hmin)
    as (c' & u & Hrem & Hframes & _).
  exists c', u. split; [exact Hrem|].
  assert (Hstay : In name (getFrames c')).
  { rewrite Hframes. apply filter_In. split; [exact Hin|].
    unfold movedOut. rewrite Hev.
    destruct (loadFrame c name); [|reflexivity].
    destruct (ltb_spec 1 (ev - refEv)) as [Hlt|_]; [|reflexivity].
    exfalso. destruct Hatt as [->|(n0 & Hn0 & He0)].
    - lra.
    - pose proof (Hleast n0 refEv Hn0 He0). lra. }
  split; [exact Hstay|].
  destruct (getFrames c'); [contradiction | reflexivity].
Qed.

Lemma removeUnderexposed_keeps_least_witness :
  exists (c' : RawContainer) (u : list RawImageBuffer),
    removeUnderexposed (L:=sampleLibm) sampleHdrCapture = ret (c', u)
    /\ In "f0"%string (getFrames c')
    /\ Num.is_empty (getFrames c') = false.
Proof.
  apply (removeUnderexposed_keeps_least (L:=sampleLibm) sampleHdrCapture "f0"
           (match frameEv (L:=sampleLibm) sampleHdrCapture "f0" with
            | Some ev => ev
            | None => 0
            end)).
  - repeat constructor; simpl; intuition discriminate.
  - reflexivity.
  - simpl. now left.
  - vm_compute. reflexivity.
  - intros name' ev' Hin Hev.
    simpl in Hin. destruct Hin as [<-|[<-|[<-|[]]]];
      vm_compute in Hev; injection Hev as <-; vm_compute; discriminate.
  - vm_compute. discriminate.
Defined.

(** ** Black and white point *)

Lemma scan_until_In (stop : Z -> bool) (indices : list Z) (otherwise : Z) :
  scan_until stop indices otherwise = otherwise
  \/ In (scan_until stop indices otherwise) indices.
Proof.
  induction indices as [|i rest IH]; simpl; [now left|].
  destruct (stop i); [right; now left|].
  destruct IH as [IH|IH]; [now left | right; now right].
Qed.

Lemma range_In (lo hi x : Z) : In x (Num.range lo hi) -> (lo <= x < hi)%Z.
Proof.
  unfold Num.range. rewrite in_map_iff. intros (k & <- & Hk).
  apply in_seq in Hk. lia.
Qed.

Lemma scan_until_bounds (stop : Z -> bool) (lo hi otherwise : Z)
  (indices : list Z) :
  (forall x, In x indices -> (lo <= x < hi)%Z) ->
  (lo <= otherwise < hi)%Z ->
  (lo <= scan_until stop indices otherwise < hi)%Z.
Proof.
  intros Hsub Ho.
  destruct (scan_until_In stop indices otherwise) as [->|H]; [exact Ho|].
  apply Hsub in H. exact H.
Qed.

(** X12: whatever the preview histogram is, [estimateBlackWhitePoint]
    returns a black point in [[0, 17/255]] and a white point in
    [[3/4, 255/256]]: the black point scan stops at bin 18 at the latest and
    the white point scan at bin 191, so the black point is always below the
    white point. *)
Theorem estimateBlackWhitePoint_range {K : Kernels} (raw : RawImageBuffer)
  (cameraMetadata : RawCameraMetadata) (settings : PostProcessSettings)
  (t : Trace) (blackPoint whitePoint : Q) :
  estimateBlackWhitePoint raw cameraMetadata settings
  = (t, Returned (blackPoint, whitePoint)) ->
  0 <= blackPoint <= 17 / 255
  /\ 3 / 4 <= whitePoint <= 255 / 256
  /\ blackPoint < whitePoint.
Proof.
  intros H. unfold estimateBlackWhitePoint in H.
  apply bind_returned_inv in H. destruct H as (t1 & preview & t2 & _ & H & _).
  cbv zeta in H. unfold ret in H.
  change (Num.trunc (0.07 * inject_Z 256 + 0.5)) with 18%Z in H.
  change (Num.trunc (0.75 * inject_Z 256 + 0.5)) with 192%Z in H.
  change (Z.max 1 18) with 18%Z in H.
  change (Z.min (256 - 2) (192 - 1)) with 191%Z in H.
  change (256 - 1)%Z with 255%Z in H.
  match type of H with
  | context [inject_Z (scan_until ?stop ?l ?o - 1)] =>
      pose proof (scan_until_bounds stop 1 19 o l) as Hblack;
      revert H Hblack; generalize (scan_until stop l o)
  end.
  intros black H Hblack.
  match type of H with
  | context [inject_Z (scan_until ?stop ?l ?o + 1)] =>
      pose proof (scan_until_bounds stop 191 255 o l) as Hwhite;
      revert H Hwhite; generalize (scan_until stop l o)
  end.
  intros white H Hwhite.
  assert (Hbb : (1 <= black < 19)%Z).
  { apply Hblack; [|lia]. intros x Hx. apply range_In in Hx. lia. }
  assert (Hwb : (191 <= white < 255)%Z).
  { apply Hwhite; [|lia]. intros x Hx. apply in_rev, range_In in Hx. lia. }
  clear Hblack Hwhite.
  injection H as _ Hb Hw.
  subst blackPoint whitePoint.
  unfold Qle, Qlt, Qdiv, Qmult, Qinv. simpl. lia.
Qed.

Lemma estimateBlackWhitePoint_range_witness :
  exists (t : Trace) (blackPoint whitePoint : Q),
    estimateBlackWhitePoint (K:=sampleKernelsDng dng_ok)
      (sampleRawImage (sampleMetadata 10000000 100 (1, 1, 1)) 64)
      (sampleCamera [1.8]) (sampleSettings 1 0 false)
    = (t, Returned (blackPoint, whitePoint))
    /\ 0 <= blackPoint <= 17 / 255
    /\ 3 / 4 <= whitePoint <= 255 / 256
    /\ blackPoint < whitePoint.
Proof.
  destruct (estimateBlackWhitePoint (K:=sampleKernelsDng dng_ok)
              (sampleRawImage (sampleMetadata 10000000 100 (1, 1, 1)) 64)
              (sampleCamera [1.8]) (sampleSettings 1 0 false))
    as [t [[blackPoint whitePoint]|e|]] eqn:E.
  - exists t, blackPoint, whitePoint. split; [reflexivity|].
    exact (estimateBlackWhitePoint_range _ _ _ _ _ _ E).
  - exfalso. vm_compute in E. discriminate.
  - exfalso. vm_compute in E. discriminate.
Defined.

(** ** The cumulative histogram *)

Lemma cumulative_from_ge (h : list Q) :
  forall acc : Q,
    Forall (fun x => 0 <= x) h ->
    Forall (fun x => acc <= x) (cumulative_from acc h).
Proof.
  induction h as [|x h IH]; intros acc Hpos; simpl; [constructor|].
  inversion Hpos as [|? ? Hx Hh]; subst. constructor.
  - lra.
  - apply Forall_impl with (P := fun y => acc + x <= y); [intros; lra|].
    apply IH. exact Hh.
Qed.

Lemma cumulative_from_nondecreasing (h : list Q) :
  forall acc : Q,
    Forall (fun x => 0 <= x) h -> nondecreasing (cumulative_from acc h).
Proof.
  induction h as [|x h IH]; intros acc Hpos; simpl; [exact I|].
  inversion Hpos as [|? ? Hx Hh]; subst.
  specialize (IH (acc + x) Hh).
  pose proof (cumulative_from_ge h (acc + x) Hh) as Hge.
  destruct h as [|y h]; simpl in *; [exact I|].
  inversion Hge; subst. split; assumption.
Qed.

Lemma nondecreasing_le_last (l : list Q) (d : Q) :
  nondecreasing l -> Forall (fun x => x <= last l d) l.
Proof.
  induction l as [|x l IH]; intros Hnd; [constructor|].
  destruct l as [|y l].
  - constructor; [simpl; lra | constructor].
  - destruct Hnd as [Hxy Hnd]. specialize (IH Hnd).
    change (last (x :: y :: l) d) with (last (y :: l) d).
    constructor; [|exact IH].
    inversion IH; subst. lra.
Qed.

Lemma cumulative_from_last_pos (h : list Q) :
  forall acc : Q,
    0 <= acc ->
    Forall (fun x => 0 <= x) h -> Exists (fun x => 0 < x) h ->
    0 < last (cumulative_from acc h) 0.
Proof.
  induction h as [|x h IH]; intros acc Hacc Hpos Hex; [inversion Hex|].
  inversion Hpos as [|? ? Hx Hh]; subst. simpl cumulative_from.
  destruct h as [|y h].
  - simpl. inversion Hex as [? ? H0|? ? H0]; subst; [lra | inversion H0].
  - change (last (acc + x :: cumulative_from (acc + x) (y :: h)) 0)
      with (last (cumulative_from (acc + x) (y :: h)) 0).
    inversion Hex as [? ? H0|? ? H0]; subst.
    + pose proof (cumulative_from_ge (y :: h) (acc + x) Hh) as Hge.
      pose proof (cumulative_from_nondecreasing (y :: h) (acc + x) Hh) as Hnd.
      apply nondecreasing_le_last with (d := 0) in Hnd.
      simpl cumulative_from in *. inversion Hge; subst. inversion Hnd; subst.
      lra.
    + apply IH; [lra | exact Hh | exact H0].
Qed.

Lemma nondecreasing_scaled (l : list Q) (s : Q) :
  0 < s -> nondecreasing l -> nondecreasing (map (fun x => x / s) l).
Proof.
  intros Hs. induction l as [|x l IH]; intros Hnd; [exact I|].
  destruct l as [|y l]; [exact I|].
  destruct Hnd as [Hxy Hnd]. split; [|apply IH; exact Hnd].
  apply Qmult_le_compat_r; [exact Hxy|].
  apply Qlt_le_weak, Qinv_lt_0_compat. exact Hs.
Qed.

Lemma last_map {A B : Type} (f : A -> B) (l : list A) (d : A) :
  last (map f l) (f d) = f (last l d).
Proof.
  induction l as [|x l IH]; [reflexivity|].
  destruct l as [|y l]; [reflexivity|]. exact IH.
Qed.

Lemma last_default {A : Type} (l : list A) (d d' : A) :
  l <> [] -> last l d = last l d'.
Proof.
  induction l as [|x l IH]; intros Hne; [contradiction|].
  destruct l as [|y l]; [reflexivity|]. apply IH. discriminate.
Qed.

(** X13: when the sensor counts are not negative and not all zero, the
    cumulative histogram [calcHistogram] returns is a distribution function:
    its entries never decrease, lie in [[0, 1]], and the last one is 1. *)
Theorem calcHistogram_cumulative {K : Kernels}
  (cameraMetadata : RawCameraMetadata) (buffer : RawImageBuffer)
  (downscale : Z) (t : Trace) (histogram : list Q) :
  calcHistogram cameraMetadata buffer true downscale
  = (t, Returned histogram) ->
  (forall m, Forall (fun n => (0 <= n)%Z)
               (measure_image buffer cameraMetadata downscale m)) ->
  (forall m, Exists (fun n => (0 < n)%Z)
               (measure_image buffer cameraMetadata downscale m)) ->
  nondecreasing histogram
  /\ Forall (fun x => 0 <= x <= 1) histogram
  /\ last histogram 0 == 1.
Proof.
  intros H Hnonneg Hsome. unfold calcHistogram in H. cbv zeta in H.
  rewrite lift_bind in H.
  destruct (createSrgbMatrix cameraMetadata (metadata buffer)
              (asShot (metadata buffer))) as [color|e|]; try discriminate.
  unfold ret in H. injection H as _ <-.
  specialize (Hnonneg (Mat_product (snd color) (snd (fst color)))).
  specialize (Hsome (Mat_product (snd color) (snd (fst color)))).
  revert Hnonneg Hsome.
  generalize (measure_image buffer cameraMetadata downscale
                (Mat_product (snd color) (snd (fst color)))).
  intros counts Hnonneg Hsome.
  assert (Hpos : Forall (fun x => 0 <= x) (map inject_Z counts)).
  { apply Forall_map. eapply Forall_impl; [|exact Hnonneg].
    intros n Hn. simpl in Hn. rewrite Zle_Qle in Hn. exact Hn. }
  assert (Hex : Exists (fun x => 0 < x) (map inject_Z counts)).
  { apply Exists_map. eapply Exists_impl; [|exact Hsome].
    intros n Hn. simpl in Hn. rewrite Zlt_Qlt in Hn. exact Hn. }
  set (sums := cumulative_from 0 (map inject_Z counts)).
  pose proof (cumulative_from_nondecreasing _ 0 Hpos) as Hnd. fold sums in Hnd.
  pose proof (cumulative_from_ge _ 0 Hpos) as Hge. fold sums in Hge.
  pose proof (cumulative_from_last_pos _ 0 (Qle_refl 0) Hpos Hex) as Hlast.
  fold sums in Hlast.
  pose proof (nondecreasing_le_last sums 0 Hnd) as Hle.
  assert (Hinv : 0 < / last sums 0) by (apply Qinv_lt_0_compat; exact Hlast).
  split; [apply nondecreasing_scaled; assumption|]. split.
  - apply Forall_map. rewrite Forall_forall in *. intros x Hx.
    specialize (Hge x Hx). specialize (Hle x Hx). simpl in Hge. split.
    + apply Qle_shift_div_l; [exact Hlast | lra].
    + apply Qle_shift_div_r; [exact Hlast | lra].
  - assert (Hne : map (fun x => x / last sums 0) sums <> []).
    { destruct sums; [simpl in Hlast; lra | discriminate]. }
    rewrite (last_default _ 0 (0 / last sums 0) Hne).
    rewrite (last_map (fun x => x / last sums 0)).
    field. lra.
Qed.

Lemma calcHistogram_cumulative_witness :
  exists (t : Trace) (histogram : list Q),
    calcHistogram (K:=sampleKernelsDng dng_ok) (sampleCamera [1.8])
      (sampleRawImage (sampleMetadata 10000000 100 (1, 1, 1)) 64) true 4
    = (t, Returned histogram)
    /\ nondecreasing histogram
    /\ Forall (fun x => 0 <= x <= 1) histogram
    /\ last histogram 0 == 1.
Proof.
  destruct (calcHistogram (K:=sampleKernelsDng dng_ok) (sampleCamera [1.8])
              (sampleRawImage (sampleMetadata 10000000 100 (1, 1, 1)) 64)
              true 4) as [t [histogram|e|]] eqn:E.
  - exists t, histogram. split; [reflexivity|].
    apply (calcHistogram_cumulative _ _ _ _ _ E).
    + intros m. change (Forall (fun n => (0 <= n)%Z) (repeat 1%Z 256)).
      apply Forall_forall. intros n Hn. apply repeat_spec in Hn. subst. lia.
    + intros m. change (Exists (fun n => (0 < n)%Z) (repeat 1%Z 256)).
      apply Exists_cons_hd. lia.
  - exfalso. vm_compute in E. discriminate.
  - exfalso. vm_compute in E. discriminate.
Defined.

(** ** Attenuation weights *)

(** X14: for every spatial denoise level and signal level, [denoise] obtains
    a row of four attenuation weights and never reads outside the weight
    table: automatic selection (a negative level) yields a table row, level 0
    yields zeros, and a positive level [i] yields row [6 - min(i, 5)], one of
    the rows 1 to 5, so the strongest row 0 can only be selected
    automatically. *)
Theorem denoiseWeights_total (spatialDenoiseLevel : Z) (signalAverage : Q) :
  exists weights : list Q,
    denoiseWeights spatialDenoiseLevel signalAverage = ret weights
    /\ List.length weights = 4%nat
    /\ ((0 < spatialDenoiseLevel)%Z ->
        exists row : nat,
          (1 <= row <= 5)%nat /\ weights = nth row WEIGHTS []
          /\ Z.of_nat row = (6 - Z.min spatialDenoiseLevel 5)%Z).
Proof.
  unfold denoiseWeights.
  destruct (Z.ltb_spec spatialDenoiseLevel 0) as [Hneg|Hnn].
  - eexists. split; [reflexivity|]. split; [|lia].
    unfold estimateDenoiseWeights.
    pose proof (estimateDenoiseWeights_index_bound signalAverage) as Hb.
    revert Hb. generalize (estimateDenoiseWeights_index signalAverage).
    intros w Hw. change (List.length WEIGHTS) with 6%nat in Hw.
    do 6 (destruct w as [|w]; [reflexivity|]). lia.
  - destruct (Z.eqb_spec spatialDenoiseLevel 0) as [Hzero|Hpos].
    + eexists. split; [reflexivity|]. split; [reflexivity | lia].
    + change (Z.of_nat (List.length WEIGHTS)) with 6%Z.
      change (6 - 1)%Z with 5%Z.
      rewrite Z.max_l by lia.
      assert (Hrow : (1 <= Z.min spatialDenoiseLevel 5 <= 5)%Z) by lia.
      revert Hrow. generalize (Z.min spatialDenoiseLevel 5). intros i Hi.
      assert (Hcases : i = 1%Z \/ i = 2%Z \/ i = 3%Z \/ i = 4%Z \/ i = 5%Z)
        by lia.
      destruct Hcases as [->|[->|[->|[->| ->]]]];
        (eexists; split; [reflexivity|]; split; [reflexivity|]; intros _).
      * exists 5%nat. repeat split; lia.
      * exists 4%nat. repeat split; lia.
      * exists 3%nat. repeat split; lia.
      * exists 2%nat. repeat split; lia.
      * exists 1%nat. repeat split; lia.
Qed.

(** ** Progress reports of the fusion loop *)

Lemma fuseFrame_step {L : Libm} {C : Config} {K : Kernels}
  (rawContainer : RawContainer) (reference : RawData) (method : FuseMethod)
  (thresholdBuffer : list Q) (patchSize : Z) (fuseOutput : Buffer Q)
  (p : ImageProgressHelper) (name : string) (percent : Z) :
  loadFrame rawContainer name <> None ->
  IEEE.to_int (fusedProgressValue p (mCurImage p + 1)) = Some percent ->
  exists fused : Buffer Q,
    fuseFrame rawContainer reference method thresholdBuffer patchSize
      (fuseOutput, p) name
    = ([onProgressUpdate percent], Returned (fused, advanced p 1)).
Proof.
  intros Hload Hpercent. unfold fuseFrame, nextFusedImage.
  destruct (loadFrame rawContainer name) as [frame|]; [|contradiction].
  rewrite Hpercent. eexists. reflexivity.
Qed.

Lemma fuseFrames_trace {L : Libm} {C : Config} {K : Kernels}
  (rawContainer : RawContainer) (reference : RawData) (method : FuseMethod)
  (thresholdBuffer : list Q) (patchSize : Z) (names : list string) :
  forall (fuseOutput : Buffer Q) (p : ImageProgressHelper),
    (forall name, In name names -> loadFrame rawContainer name <> None) ->
    (forall k, (1 <= k <= List.length names)%nat ->
               IEEE.to_int (fusedProgressValue p (mCurImage p + Z.of_nat k))
               <> None) ->
    exists fused : Buffer Q,
      fuseFrames rawContainer reference method thresholdBuffer patchSize
        (fuseOutput, p) names
      = (map (fun k =>
                onProgressUpdate (fusedPercent p (mCurImage p + Z.of_nat k)))
           (seq 1 (List.length names)),
         Returned (fused, advanced p (Z.of_nat (List.length names)))).
Proof.
  induction names as [|name rest IH]; intros fuseOutput p Hload Hdef.
  - exists fuseOutput. simpl. unfold ret, advanced. destruct p; simpl.
    rewrite Z.add_0_r. reflexivity.
  - assert (Hfirst : IEEE.to_int (fusedProgressValue p (mCurImage p + 1))
                     = Some (fusedPercent p (mCurImage p + 1))).
    { unfold fusedPercent. specialize (Hdef 1%nat). cbn [List.length] in Hdef.
      change (Z.of_nat 1) with 1%Z in Hdef.
      destruct (IEEE.to_int (fusedProgressValue p (mCurImage p + 1)));
        [reflexivity|]. exfalso. apply Hdef; [lia | reflexivity]. }
    destruct (fuseFrame_step rawContainer reference method thresholdBuffer
                patchSize fuseOutput p name _ (Hload name (or_introl eq_refl))
                Hfirst)
      as (fused1 & Hstep).
    destruct (IH fused1 (advanced p 1)) as (fused & Hrest).
    { intros n Hn. apply Hload. now right. }
    { intros k Hk. unfold advanced, fusedProgressValue.
      cbn [mStart mPerImageIncrement mCurImage].
      replace (mCurImage p + 1 + Z.of_nat k)%Z
        with (mCurImage p + Z.of_nat (S k))%Z by lia.
      apply (Hdef (S k)). cbn [List.length]. lia. }
    exists fused. simpl fuseFrames.
    rewrite (bind_returned _ _ _ _ Hstep), Hrest. cbn [fst snd app].
    cbn [List.length seq map]. f_equal.
    + f_equal. rewrite <- (seq_shift (List.length rest) 1), map_map.
      apply map_ext. intros k.
      unfold advanced, fusedPercent, fusedProgressValue.
      cbn [mStart mPerImageIncrement mCurImage].
      replace (mCurImage p + 1 + Z.of_nat k)%Z
        with (mCurImage p + Z.of_nat (S k))%Z by lia.
      reflexivity.
    + unfold advanced. cbn [mStart mNumImages mPerImageIncrement mCurImage].
      do 3 f_equal. lia.
Qed.

Lemma eta64_small :
  0 < 2 ^ (-1075) /\ 2 ^ (-1075) <= 1 # 1000000000000000000000000000000.
Proof. split; [apply pow2_pos|]. vm_compute. discriminate. Qed.

Lemma u64_small : 0 < 2 ^ (-53) /\ 2 ^ (-53) <= 1 # 9000000000000000.
Proof. split; [apply pow2_pos|]. vm_compute. discriminate. Qed.

Lemma Qfloor_unique (y : Q) (m : Z) :
  inject_Z m <= y -> y < inject_Z m + 1 -> Qfloor y = m.
Proof.
  intros H1 H2.
  assert (A : (m <= Qfloor y)%Z).
  { rewrite <- (Qfloor_Z m). apply Qfloor_resp_le. exact H1. }
  assert (B : (Qfloor y < m + 1)%Z).
  { rewrite Zlt_Qlt. eapply Qle_lt_trans; [apply Qfloor_le|].
    rewrite inject_Z_plus. exact H2. }
  lia.
Qed.

(** The value the double computation of the k-th report reaches is within
    [1 # 10^12] of [75 k / n]. *)
Lemma progress_value (n k : Z) :
  (0 < k <= n)%Z -> (n < 2 ^ 31)%Z ->
  exists y : Q,
    (let f := IEEE.binary64 in
     IEEE.add f (IEEE.of_Z f 0)
       (IEEE.mul f (IEEE.div f (IEEE.Finite 75) (IEEE.of_Z f n)) (IEEE.of_Z f k)))
    = IEEE.Finite y
    /\ Qabs (y - inject_Z (75 * k) / inject_Z n) <= 1 # 1000000000000.
Proof.
  intros Hk Hn. cbv zeta.
  rewrite (of_Z64_exact n), (of_Z64_exact k) by lia.
  change (IEEE.of_Z IEEE.binary64 0) with (IEEE.Finite 0).
  pose proof (Qred_correct (inject_Z n)) as En.
  pose proof (Qred_correct (inject_Z k)) as Ek.
  set (N := Qred (inject_Z n)) in *. set (Kq := Qred (inject_Z k)) in *.
  assert (HN : 1 <= N <= 2147483648).
  { rewrite En. split.
    - change 1 with (inject_Z 1). rewrite <- Zle_Qle. lia.
    - change 2147483648 with (inject_Z 2147483648). rewrite <- Zle_Qle. lia. }
  assert (HK : 1 <= Kq <= N).
  { rewrite Ek, En. split.
    - change 1 with (inject_Z 1). rewrite <- Zle_Qle. lia.
    - rewrite <- Zle_Qle. lia. }
  assert (EX : inject_Z (75 * k) / inject_Z n == 75 / N * Kq).
  { rewrite inject_Z_mult, <- En, <- Ek. change (inject_Z 75) with 75.
    field. lra. }
  clearbody N Kq.
  set (a := 75 / N).
  assert (Ha : (1 # 100000000) <= a <= 75).
  { unfold a. split.
    - apply Qle_shift_div_l; lra.
    - apply Qle_shift_div_r; lra. }
  assert (HaK : (1 # 100000000) <= a * Kq <= 75).
  { split.
    - assert (0 <= a * (Kq - 1)) by (apply Qmult_le_0_compat; lra).
      assert (E : a * (Kq - 1) == a * Kq - a) by ring.
      rewrite E in H. lra.
    - assert (E : a * Kq == 75 * (Kq / N)) by (unfold a; field; lra).
      rewrite E.
      assert (Kq / N <= 1) by (apply Qle_shift_div_r; lra). lra. }
  unfold IEEE.div.
  assert (EN0 : Qeq_bool N 0 = false).
  { destruct (Qeq_bool N 0) eqn:E; [|reflexivity].
    apply Qeq_bool_eq in E. lra. }
  rewrite EN0. fold a.
  destruct u64_small as [Hu0 Hu]. destruct eta64_small as [He0 He].
  set (u := 2 ^ (-53)) in *. set (eta := 2 ^ (-1075)) in *.
  assert (Hbig : 1000 <= 2 ^ 1023) by (vm_compute; discriminate).
  destruct (round64_error a) as (y0 & E0 & B0).
  { rewrite Qabs_pos by lra. lra. }
  rewrite E0. cbn [IEEE.mul].
  rewrite (Qabs_pos a) in B0 by lra. fold u eta in B0.
  apply Qabs_le_iff in B0.
  assert (P1 : 0 <= (y0 - (a - u * a - eta)) * Kq)
    by (apply Qmult_le_0_compat; lra).
  assert (P2 : 0 <= ((a + u * a + eta) - y0) * Kq)
    by (apply Qmult_le_0_compat; lra).
  assert (P3 : 0 <= u * (75 - a * Kq)) by (apply Qmult_le_0_compat; lra).
  assert (P4 : 0 <= eta * (N - Kq)) by (apply Qmult_le_0_compat; lra).
  assert (P5 : 0 <= eta * (2147483648 - N)) by (apply Qmult_le_0_compat; lra).
  assert (P6 : 0 <= u * (a * Kq)) by (apply Qmult_le_0_compat; lra).
  set (X := a * Kq) in *.
  assert (B1 : X - (1 # 100000000000000) <= y0 * Kq <= X + (1 # 100000000000000)).
  { assert (Q1 : (y0 - (a - u * a - eta)) * Kq == y0 * Kq - X + u * X + eta * Kq)
      by (unfold X; ring).
    assert (Q2 : ((a + u * a + eta) - y0) * Kq == X + u * X + eta * Kq - y0 * Kq)
      by (unfold X; ring).
    rewrite Q1 in P1. rewrite Q2 in P2.
    assert (Q3 : u * (75 - X) == 75 * u - u * X) by ring.
    rewrite Q3 in P3.
    assert (Q4 : eta * (N - Kq) == eta * N - eta * Kq) by ring.
    rewrite Q4 in P4.
    assert (Q5 : eta * (2147483648 - N) == 2147483648 * eta - eta * N) by ring.
    rewrite Q5 in P5.
    set (uX := u * X) in *. set (eK := eta * Kq) in *. set (eN := eta * N) in *.
    set (zz := y0 * Kq) in *.
    clearbody uX eK eN zz X u eta. clear - P1 P2 P3 P4 P5 Hu He Hu0 He0. split; lra. }
  set (z1 := y0 * Kq) in *.
  destruct (round64_error z1) as (y1 & E1 & B1').
  { apply Qabs_bound. clearbody z1 X. lra. }
  rewrite E1. cbn [IEEE.add].
  fold u eta in B1'. apply Qabs_le_iff in B1'.
  assert (Hz1 : 0 <= z1 <= 76) by (clearbody z1 X; lra).
  rewrite (Qabs_pos z1) in B1' by lra.
  assert (P7 : 0 <= u * z1) by (apply Qmult_le_0_compat; lra).
  assert (P8 : 0 <= u * (76 - z1)) by (apply Qmult_le_0_compat; lra).
  assert (Q8 : u * (76 - z1) == 76 * u - u * z1) by ring.
  rewrite Q8 in P8.
  assert (B2 : X - (1 # 10000000000000) <= y1 <= X + (1 # 10000000000000)).
  { set (uz := u * z1) in *. clearbody uz z1 X u eta. split; lra. }
  destruct (round64_error (0 + y1)) as (y2 & E2 & B2').
  { apply Qabs_bound. clearbody z1 X. lra. }
  rewrite E2. exists y2. split; [reflexivity|].
  fold u eta in B2'. apply Qabs_le_iff in B2'.
  assert (Hy1 : 0 <= 0 + y1 <= 76) by (clearbody z1 X; lra).
  rewrite (Qabs_pos (0 + y1)) in B2' by lra.
  assert (P9 : 0 <= u * (0 + y1)) by (apply Qmult_le_0_compat; lra).
  assert (P10 : 0 <= u * (76 - (0 + y1))) by (apply Qmult_le_0_compat; lra).
  assert (Q10 : u * (76 - (0 + y1)) == 76 * u - u * (0 + y1)) by ring.
  rewrite Q10 in P10.
  rewrite EX. change (75 / N * Kq) with X. apply Qabs_le_iff.
  set (uy := u * (0 + y1)) in *. clearbody uy z1 X u eta. split; lra.
Qed.

(** The [k]-th report of a fusion loop over [n] frames that starts at 0:
    [75 k / n] rounded down, or one less when [n] divides [75 k]. *)
Lemma progress_percent (n k : Z) :
  (0 < k <= n)%Z -> (n < 2 ^ 31)%Z ->
  let p := newImageProgressHelper n 0 in
  IEEE.to_int (fusedProgressValue p (mCurImage p + k))
  = Some (fusedPercent p (mCurImage p + k))
  /\ (75 * k / n - 1 <= fusedPercent p (mCurImage p + k) <= 75 * k / n)%Z
  /\ (((75 * k) mod n)%Z <> 0%Z ->
      fusedPercent p (mCurImage p + k) = (75 * k / n)%Z).
Proof.
  intros Hk Hn p.
  destruct (progress_value n k Hk Hn) as (y & Ey & By).
  unfold fusedPercent, fusedProgressValue.
  cbn [p newImageProgressHelper mStart mPerImageIncrement mCurImage].
  rewrite Z.add_0_l. cbv zeta in Ey. rewrite Ey. clear Ey.
  cbn [IEEE.to_int]. cbv zeta.
  set (m := (75 * k / n)%Z). set (r := ((75 * k) mod n)%Z).
  assert (Hdiv : (75 * k = n * m + r)%Z) by (apply Z.div_mod; lia).
  assert (Hr : (0 <= r < n)%Z) by (apply Z.mod_pos_bound; lia).
  assert (Hm : (0 <= m <= 75)%Z).
  { unfold m. split; [apply Z.div_pos; lia|].
    apply Z.div_le_upper_bound; lia. }
  assert (HN : 1 <= inject_Z n <= 2147483648).
  { split.
    - change 1 with (inject_Z 1). rewrite <- Zle_Qle. lia.
    - change 2147483648 with (inject_Z 2147483648). rewrite <- Zle_Qle. lia. }
  assert (EX : inject_Z (75 * k) / inject_Z n
               == inject_Z m + inject_Z r / inject_Z n).
  { rewrite Hdiv, inject_Z_plus, inject_Z_mult. field. lra. }
  rewrite EX in By. apply Qabs_le_iff in By.
  assert (Hfrac : 0 <= inject_Z r / inject_Z n <= 1).
  { split.
    - apply Qle_shift_div_l; [lra|]. rewrite Qmult_0_l.
      change 0 with (inject_Z 0). rewrite <- Zle_Qle. lia.
    - apply Qle_shift_div_r; [lra|]. rewrite Qmult_1_l.
      rewrite <- Zle_Qle. lia. }
  assert (Hfrac' : ~ r = 0%Z ->
                   (1 # 2147483648) <= inject_Z r / inject_Z n
                   <= 1 - (1 # 2147483648)).
  { intros Hne.
    assert (H1 : 1 <= inject_Z r)
      by (change 1 with (inject_Z 1); rewrite <- Zle_Qle; lia).
    assert (H2 : inject_Z r <= inject_Z n - 1).
    { change 1 with (inject_Z 1). unfold Qminus.
      rewrite <- inject_Z_opp, <- inject_Z_plus, <- Zle_Qle. lia. }
    split.
    - apply Qle_shift_div_l; lra.
    - apply Qle_shift_div_r; [lra|].
      assert (E : (1 - (1 # 2147483648)) * inject_Z n
                  == inject_Z n - (1 # 2147483648) * inject_Z n) by ring.
      rewrite E. lra. }
  assert (Hfrac0 : r = 0%Z -> inject_Z r / inject_Z n == 0).
  { intros ->. change (inject_Z 0) with 0. field. lra. }
  set (fr := inject_Z r / inject_Z n) in *. clearbody fr.
  assert (HM : 0 <= inject_Z m <= 75).
  { split.
    - change 0 with (inject_Z 0). rewrite <- Zle_Qle. lia.
    - change 75 with (inject_Z 75). rewrite <- Zle_Qle. lia. }
  assert (Hy0 : 0 <= y).
  { destruct (Z.eq_dec r 0) as [E|E].
    - assert (1 <= inject_Z m).
      { change 1 with (inject_Z 1). rewrite <- Zle_Qle.
        assert (0 < m)%Z; [|lia]. nia. }
      lra.
    - specialize (Hfrac' E). lra. }
  rewrite trunc_nonneg by exact Hy0.
  assert (Hlo : (m - 1 <= Qfloor y)%Z).
  { rewrite <- (Qfloor_Z (m - 1)). apply Qfloor_resp_le.
    unfold Z.sub. rewrite inject_Z_plus, inject_Z_opp.
    change (inject_Z 1) with 1. lra. }
  assert (Hhi : (Qfloor y <= m)%Z).
  { assert (Qfloor y < m + 1)%Z; [|lia].
    rewrite Zlt_Qlt. eapply Qle_lt_trans; [apply Qfloor_le|].
    rewrite inject_Z_plus. change (inject_Z 1) with 1.
    destruct (Z.eq_dec r 0) as [E|E].
    - specialize (Hfrac0 E). lra.
    - specialize (Hfrac' E). lra. }
  assert (Hrange : ((- 2 ^ 31 <=? Qfloor y) && (Qfloor y <? 2 ^ 31))%Z = true).
  { apply andb_true_iff. split; [apply Z.leb_le | apply Z.ltb_lt]; lia. }
  rewrite Hrange. split; [reflexivity|]. split; [lia|].
  intros Hne. apply Qfloor_unique.
  - specialize (Hfrac' Hne). lra.
  - specialize (Hfrac' Hne). lra.
Qed.

Lemma last_map_seq {A : Type} (f : nat -> A) (n : nat) (d : A) :
  (0 < n)%nat -> last (map f (seq 1 n)) d = f n.
Proof.
  intros Hn. destruct n as [|n]; [lia|].
  rewrite seq_S, map_app. cbn [map]. rewrite last_last. reflexivity.
Qed.

Lemma nth_map_seq {A : Type} (f : nat -> A) (n k : nat) (d : A) :
  (1 <= k <= n)%nat -> nth (k - 1) (map f (seq 1 n)) d = f k.
Proof.
  intros Hk. rewrite (nth_indep _ d (f 0%nat)).
  - rewrite map_nth, seq_nth by lia. f_equal. lia.
  - rewrite length_map, length_seq. lia.
Qed.

Lemma sorted_map_seq (f : nat -> Z) (len : nat) :
  forall start : nat,
    (forall j k, (start <= j <= k)%nat -> (k < start + len)%nat ->
                 (f j <= f k)%Z) ->
    StronglySorted Z.le (map f (seq start len)).
Proof.
  induction len as [|len IH]; intros start Hmono; cbn [seq map];
    constructor.
  - apply IH. intros j k Hjk Hk. apply Hmono; lia.
  - apply Forall_map, Forall_forall. intros k Hk. apply in_seq in Hk.
    apply Hmono; lia.
Qed.

(** The reports of a fusion loop over [n] frames lie between 0 and 75 and
    never decrease. *)
Lemma fusionPercents_monotone (n j k : nat) :
  (Z.of_nat n < 2 ^ 31)%Z -> (1 <= j <= k)%nat -> (k <= n)%nat ->
  let f i := fusedPercent (newImageProgressHelper (Z.of_nat n) 0) (Z.of_nat i) in
  (0 <= f j <= f k)%Z /\ (f k <= 75)%Z.
Proof.
  intros Hn Hjk Hk f.
  assert (Hjk' : j = k \/ (j < k)%nat) by lia.
  destruct (progress_percent (Z.of_nat n) (Z.of_nat j) ltac:(lia) Hn)
    as (_ & Bj & Ej).
  destruct (progress_percent (Z.of_nat n) (Z.of_nat k) ltac:(lia) Hn)
    as (_ & Bk & Ek).
  cbn [newImageProgressHelper mCurImage] in Bj, Ej, Bk, Ek.
  rewrite Z.add_0_l in Bj, Ej, Bk, Ek. fold (f j) in Bj, Ej. fold (f k) in Bk, Ek.
  assert (Hqj : (0 <= 75 * Z.of_nat j / Z.of_nat n)%Z)
    by (apply Z.div_pos; lia).
  assert (Hqjk : (75 * Z.of_nat j / Z.of_nat n
                  <= 75 * Z.of_nat k / Z.of_nat n)%Z)
    by (apply Z.div_le_mono; lia).
  assert (Hqk : (75 * Z.of_nat k / Z.of_nat n <= 75)%Z)
    by (apply Z.div_le_upper_bound; lia).
  assert (Hfj : (0 <= f j)%Z).
  { destruct (Z.eq_dec ((75 * Z.of_nat j) mod Z.of_nat n) 0) as [E|E];
      [|rewrite (Ej E); lia].
    assert (0 < 75 * Z.of_nat j / Z.of_nat n)%Z; [|lia].
    pose proof (Z.div_mod (75 * Z.of_nat j) (Z.of_nat n) ltac:(lia)) as D.
    rewrite E in D. nia. }
  split; [split; [exact Hfj|] | lia].
  destruct Hjk' as [->|Hlt]; [lia|].
  destruct (Z.eq_dec ((75 * Z.of_nat k) mod Z.of_nat n) 0) as [E|E];
    [|rewrite (Ek E); lia].
  assert (75 * Z.of_nat j / Z.of_nat n < 75 * Z.of_nat k / Z.of_nat n)%Z;
    [|lia].
  pose proof (Z.div_mod (75 * Z.of_nat k) (Z.of_nat n) ltac:(lia)) as D.
  rewrite E in D. apply Z.div_lt_upper_bound; [lia|]. nia.
Qed.

Lemma fusionPercents_spec (n : nat) :
  (Z.of_nat n < 2 ^ 31)%Z ->
  List.length (fusionPercents n) = n
  /\ (forall k : nat,
        (1 <= k <= n)%nat ->
        let q := (75 * Z.of_nat k / Z.of_nat n)%Z in
        let r := nth (k - 1) (fusionPercents n) 0%Z in
        (q - 1 <= r <= q)%Z
        /\ (((75 * Z.of_nat k) mod Z.of_nat n)%Z <> 0%Z -> r = q))
  /\ StronglySorted Z.le (fusionPercents n)
  /\ Forall (fun r => (0 <= r <= 75)%Z) (fusionPercents n).
Proof.
  intros Hn. unfold fusionPercents. split; [|split; [|split]].
  - rewrite length_map, length_seq. reflexivity.
  - intros k Hk. cbv zeta.
    rewrite (nth_map_seq
               (fun k => fusedPercent (newImageProgressHelper (Z.of_nat n) 0)
                           (Z.of_nat k))) by exact Hk.
    destruct (progress_percent (Z.of_nat n) (Z.of_nat k) ltac:(lia) Hn)
      as (_ & B & E).
    cbn [newImageProgressHelper mCurImage] in B, E.
    rewrite Z.add_0_l in B, E. split; [exact B | exact E].
  - apply (sorted_map_seq
             (fun k => fusedPercent (newImageProgressHelper (Z.of_nat n) 0)
                         (Z.of_nat k)) n 1).
    intros j k Hjk Hk. apply (fusionPercents_monotone n j k Hn); lia.
  - apply Forall_map, Forall_forall. intros k Hk. apply in_seq in Hk.
    pose proof (fusionPercents_monotone n k k Hn ltac:(lia) ltac:(lia)) as H.
    cbv zeta in H. lia.
Qed.

Lemma fuseFrames_fresh {L : Libm} {C : Config} {K : Kernels}
  (rawContainer : RawContainer) (reference : RawData) (method : FuseMethod)
  (thresholdBuffer : list Q) (patchSize : Z) (fuseOutput : Buffer Q)
  (names : list string) :
  (forall name, In name names -> loadFrame rawContainer name <> None) ->
  (Z.of_nat (List.length names) < 2 ^ 31)%Z ->
  let n := List.length names in
  exists st,
    fuseFrames rawContainer reference method thresholdBuffer patchSize
      (fuseOutput, newImageProgressHelper (Z.of_nat n) 0) names
    = (map onProgressUpdate (fusionPercents n), Returned st).
Proof.
  intros Hload Hn n.
  destruct (fuseFrames_trace rawContainer reference method thresholdBuffer
              patchSize names fuseOutput
              (newImageProgressHelper (Z.of_nat n) 0) Hload) as (fused & H).
  { intros k Hk.
    destruct (progress_percent (Z.of_nat n) (Z.of_nat k) ltac:(lia) Hn)
      as (E & _).
    cbv zeta in E. rewrite E. discriminate. }
  eexists. rewrite H. f_equal. unfold fusionPercents. rewrite map_map.
  reflexivity.
Qed.

(** X15: when every companion frame loads, the fusion loop of [denoise]
    started as [process] starts it (a fresh progress helper for the [n]
    frames, at 0; [n] fits an [int]) runs to its end and reports progress
    once per frame.  The percentage is computed in double precision and
    truncated: the [k]-th report is [75 * k / n] rounded down, or one less
    than that where [n] divides [75 * k].  The reports never decrease, and
    the last one is 74 or 75. *)
Theorem fuseFrames_progress {L : Libm} {C : Config} {K : Kernels}
  (rawContainer : RawContainer) (reference : RawData) (method : FuseMethod)
  (thresholdBuffer : list Q) (patchSize : Z) (fuseOutput : Buffer Q)
  (names : list string) :
  (forall name, In name names -> loadFrame rawContainer name <> None) ->
  (Z.of_nat (List.length names) < 2 ^ 31)%Z ->
  let n := List.length names in
  let run :=
    fuseFrames rawContainer reference method thresholdBuffer patchSize
      (fuseOutput, newImageProgressHelper (Z.of_nat n) 0) names in
  exists reports : list Z,
    fst run = map onProgressUpdate reports
    /\ List.length reports = n
    /\ (forall k : nat,
          (1 <= k <= n)%nat ->
          let q := (75 * Z.of_nat k / Z.of_nat n)%Z in
          let r := nth (k - 1) reports 0%Z in
          (q - 1 <= r <= q)%Z
          /\ (((75 * Z.of_nat k) mod Z.of_nat n)%Z <> 0%Z -> r = q))
    /\ Sorted Z.le reports
    /\ (names <> [] -> last reports 0%Z = 74%Z \/ last reports 0%Z = 75%Z)
    /\ exists st, snd run = Returned st.
Proof.
  intros Hload Hn n run.
  destruct (fuseFrames_fresh rawContainer reference method thresholdBuffer
              patchSize fuseOutput names Hload Hn) as (st & H).
  fold n in H. fold run in H.
  destruct (fusionPercents_spec n Hn) as (Hlen & Hk & Hsorted & _).
  exists (fusionPercents n). rewrite H. cbn [fst snd].
  split; [reflexivity|]. split; [exact Hlen|]. split; [exact Hk|].
  split; [apply StronglySorted_Sorted; exact Hsorted|].
  split; [|now exists st].
  intros Hne.
  assert (Hpos : (0 < n)%nat)
    by (unfold n; destruct names; simpl; [contradiction | lia]).
  specialize (Hk n ltac:(lia)). cbv zeta in Hk.
  assert (Hlast : last (fusionPercents n) 0%Z
                  = nth (n - 1) (fusionPercents n) 0%Z).
  { unfold fusionPercents. rewrite last_map_seq, nth_map_seq by lia.
    reflexivity. }
  rewrite Hlast. rewrite Z.div_mul in Hk by lia. lia.
Qed.

Lemma fuseFrames_progress_witness :
  let c :=
    sampleBurst (sampleSettings 1 0 false) (1, 1, 1)
      [("f1"%string, Some []); ("f2"%string, Some []); ("f3"%string, Some [])] in
  let run :=
    fuseFrames (L:=sampleLibm) (C:=sampleConfig) (K:=sampleKernelsDng dng_ok) c
      (loadRawImage (C:=sampleConfig) (K:=sampleKernelsDng dng_ok)
         (sampleRawImage (sampleMetadata 10000000 100 (1, 1, 1)) 8)
         (sampleCamera [1.8]) true 1)
      fuse_denoise_3x3 [1; 1; 1; 1] 16
      (sampleAccumulator 0, newImageProgressHelper 3 0) (getFrames c) in
  (forall name, In name (getFrames c) -> loadFrame c name <> None)
  /\ fst run = [onProgressUpdate 25; onProgressUpdate 50; onProgressUpdate 75]
  /\ exists reports : list Z,
       fst run = map onProgressUpdate reports /\ Sorted Z.le reports.
Proof.
  intros c run.
  assert (Hload : forall name, In name (getFrames c) -> loadFrame c name <> None).
  { intros name [<-|[<-|[<-|[]]]]; vm_compute; discriminate. }
  split; [exact Hload|]. split; [vm_compute; reflexivity|].
  destruct (fuseFrames_progress (L:=sampleLibm) (C:=sampleConfig)
              (K:=sampleKernelsDng dng_ok) c
              (loadRawImage (C:=sampleConfig) (K:=sampleKernelsDng dng_ok)
                 (sampleRawImage (sampleMetadata 10000000 100 (1, 1, 1)) 8)
                 (sampleCamera [1.8]) true 1)
              fuse_denoise_3x3 [1; 1; 1; 1] 16 (sampleAccumulator 0)
              (getFrames c) Hload ltac:(vm_compute; reflexivity))
    as (reports & Htrace & _ & _ & Hsorted & _).
  exists reports. split; [exact Htrace | exact Hsorted].
Defined.

(** The truncation shows: of 55 frames the eleventh is reported as 14
    percent, where [75 * 11 / 55] is 15, and the last of 281 frames as 74
    percent. *)
Lemma fusionPercents_truncated :
  nth 10 (fusionPercents 55) 0%Z = 14%Z
  /\ last (fusionPercents 281) 0%Z = 74%Z
  /\ last (fusionPercents 3) 0%Z = 75%Z.
Proof. repeat split; vm_compute; reflexivity. Qed.

(** ** The completion signal *)

Lemma completions_app (t1 t2 : Trace) :
  completions (t1 ++ t2) = (completions t1 + completions t2)%nat.
Proof. unfold completions. rewrite filter_app, length_app. reflexivity. Qed.

Lemma silent_emit (e : Event) :
  match e with onCompleted => False | _ => True end -> silent (emit e).
Proof. destruct e; intros H; try reflexivity; contradiction. Qed.

Lemma silent_file_written (result : Outcome bool) (e : Event) :
  match e with onCompleted => False | _ => True end ->
  silent (file_written result e).
Proof.
  intros He. destruct result as [[|]|x|]; try reflexivity.
  apply silent_emit, He.
Qed.

Lemma silent_bind {A B : Type} (m : M A) (k : A -> M B) :
  silent m -> (forall a, silent (k a)) -> silent (bind m k).
Proof.
  unfold silent, bind. destruct m as [t [a|e|]]; cbn [fst]; intros Hm Hk;
    try exact Hm.
  specialize (Hk a). destruct (k a) as [t' r]. cbn [fst] in *.
  rewrite completions_app, Hm, Hk. reflexivity.
Qed.

Lemma silent_try_catch {A : Type} (body : M A) (catches : Exn -> bool)
  (handler : Exn -> M A) :
  silent body -> (forall e, silent (handler e)) ->
  silent (try_catch body catches handler).
Proof.
  unfold silent, try_catch. destruct body as [t [a|e|]]; cbn [fst];
    intros Hb Hh; try exact Hb.
  destruct (catches e); [|exact Hb].
  specialize (Hh e). destruct (handler e) as [t' r]. cbn [fst] in *.
  rewrite completions_app, Hb, Hh. reflexivity.
Qed.

Lemma completing_bind {A B : Type} (m : M A) (k : A -> M B) :
  silent m -> (forall a, completing (k a)) -> completing (bind m k).
Proof.
  unfold silent, completing, bind. destruct m as [t [a|e|]]; cbn [fst snd];
    intros Hm Hk; try exact Hm.
  specialize (Hk a). destruct (k a) as [t' [b|e|]]; cbn [fst snd] in *.
  - destruct Hk as (t0 & -> & H0). exists (t ++ t0).
    rewrite app_assoc, completions_app, Hm, H0. split; reflexivity.
  - rewrite completions_app, Hm, Hk. reflexivity.
  - rewrite completions_app, Hm, Hk. reflexivity.
Qed.

Lemma completing_emit : completing (emit onCompleted).
Proof. exists []. split; reflexivity. Qed.

(** *** Computations without events *)

Lemma quiet_ret {A : Type} (a : A) : quiet (ret a).
Proof. reflexivity. Qed.

Lemma quiet_lift {A : Type} (o : Outcome A) : quiet (lift o).
Proof. reflexivity. Qed.

Lemma quiet_deref {A : Type} (o : option A) : quiet (deref o).
Proof. destruct o; reflexivity. Qed.

Lemma quiet_throw {A : Type} (e : Exn) : quiet (throw (A:=A) e).
Proof. reflexivity. Qed.

Lemma quiet_bind {A B : Type} (m : M A) (k : A -> M B) :
  quiet m -> (forall a, quiet (k a)) -> quiet (bind m k).
Proof.
  unfold quiet, bind. destruct m as [t [a|e|]]; cbn [fst]; intros Hm Hk;
    try exact Hm.
  specialize (Hk a). destruct (k a) as [t' r]. cbn [fst] in *.
  rewrite Hm, Hk. reflexivity.
Qed.

Lemma silent_of_quiet {A : Type} (m : M A) : quiet m -> silent m.
Proof. unfold quiet, silent. intros ->. reflexivity. Qed.

Create HintDb quiet.

(** Decompose a computation into its binds, branches and leaves. *)
Ltac quieten :=
  repeat first
    [ apply quiet_ret
    | apply quiet_lift
    | apply quiet_deref
    | apply quiet_throw
    | apply quiet_bind; [|intros ?]
    | solve [auto with quiet]
    | match goal with
      | |- quiet (if ?b then _ else _) => destruct b
      | |- quiet (match ?x with _ => _ end) => destruct x
      end
    | progress cbv zeta ].

Ltac silence :=
  repeat first
    [ apply silent_emit; exact I
    | apply silent_file_written; exact I
    | apply silent_of_quiet; solve [quieten]
    | apply silent_bind; [|intros ?]
    | apply silent_try_catch; [|intros ?]
    | solve [auto with quiet]
    | match goal with
      | |- silent (if ?b then _ else _) => destruct b
      | |- silent (match ?x with _ => _ end) => destruct x
      | |- silent (let '(_, _) := ?x in _) => destruct x
      end
    | progress cbv zeta ].

Lemma quiet_getMinEv {L : Libm} (c : RawContainer) : quiet (getMinEv c).
Proof.
  unfold getMinEv. generalize 100000. generalize (getFrames c).
  intros names. induction names as [|name rest IH]; intros minEv; simpl.
  - quieten.
  - unfold getMinEv_step. quieten.
Qed.

Lemma quiet_removeUnderexposed {L : Libm} (c : RawContainer) :
  quiet (removeUnderexposed c).
Proof.
  unfold removeUnderexposed. destruct (isHdr c); [|quieten].
  apply quiet_bind; [apply quiet_getMinEv|]. intros refEv.
  generalize (c, @nil RawImageBuffer). generalize (getFrames c).
  intros names. induction names as [|name rest IH]; intros st; simpl.
  - quieten.
  - apply quiet_bind; [|intros st'; apply IH].
    unfold removeUnderexposed_step. destruct st as [c' u]. quieten.
Qed.

Lemma quiet_calcHistogram {K : Kernels} (cameraMetadata : RawCameraMetadata)
  (buffer : RawImageBuffer) (cumulative : bool) (downscale : Z) :
  quiet (calcHistogram cameraMetadata buffer cumulative downscale).
Proof. unfold calcHistogram. quieten. Qed.

Lemma quiet_createPreview {K : Kernels} (raw : RawImageBuffer)
  (downscaleFactor : Z) (cameraMetadata : RawCameraMetadata)
  (settings : PostProcessSettings) :
  quiet (createPreview raw downscaleFactor cameraMetadata settings).
Proof. unfold createPreview. quieten. Qed.

Lemma quiet_estimateBlackWhitePoint {K : Kernels} (raw : RawImageBuffer)
  (cameraMetadata : RawCameraMetadata) (settings : PostProcessSettings) :
  quiet (estimateBlackWhitePoint raw cameraMetadata settings).
Proof.
  unfold estimateBlackWhitePoint.
  apply quiet_bind; [apply quiet_createPreview|]. intros preview. quieten.
Qed.

#[local] Hint Resolve quiet_getMinEv quiet_removeUnderexposed
  quiet_calcHistogram quiet_createPreview quiet_estimateBlackWhitePoint
  : quiet.

Lemma quiet_estimateUnset {L : Libm} {K : Kernels} (c : RawContainer)
  (raw : RawImageBuffer) : quiet (estimateUnset c raw).
Proof. unfold estimateUnset. quieten. Qed.

Lemma quiet_prepareHdr {L : Libm} {C : Config} {K : Kernels}
  (cameraMetadata : RawCameraMetadata) (settings : PostProcessSettings)
  (reference underexposed : RawImageBuffer) :
  quiet (prepareHdr cameraMetadata settings reference underexposed).
Proof. unfold prepareHdr, hdrLoadPair. quieten. Qed.

Lemma quiet_denoiseChannels {C : Config} {K : Kernels} (input : Buffer Z)
  (wavelet : list (Z * Z)) (weights : list Q) (channels : list Z) :
  quiet (denoiseChannels input wavelet weights channels).
Proof.
  induction channels as [|c rest IH]; simpl.
  - quieten.
  - unfold denoiseChannel. quieten.
Qed.

Lemma quiet_denoiseWeights (level : Z) (signalAverage : Q) :
  quiet (denoiseWeights level signalAverage).
Proof. unfold denoiseWeights. quieten. Qed.

Lemma quiet_weightsBuffer {C : Config} (weights : list Q) :
  quiet (weightsBuffer weights).
Proof.
  unfold weightsBuffer. destruct weights as [|w rest]; [reflexivity|].
  cbn [Num.at_index nth_error deref]. rewrite bind_ret_l.
  destruct (_ <? _)%nat; reflexivity.
Qed.

Lemma quiet_BuildRawImage (channels : list (Image Z)) (cropX cropY : Z) :
  quiet (BuildRawImage channels cropX cropY).
Proof. unfold BuildRawImage. quieten. Qed.

Lemma quiet_postProcess {K : Kernels} (inputBuffers : list (Image Z))
  (hdrMetadata : option HdrMetadata) (offsetX offsetY : Z) (noiseEstimate : Q)
  (metadata : RawImageMetadata) (cameraMetadata : RawCameraMetadata)
  (settings : PostProcessSettings) :
  quiet (postProcess inputBuffers hdrMetadata offsetX offsetY noiseEstimate
           metadata cameraMetadata settings).
Proof. unfold postProcess. quieten. Qed.

#[local] Hint Resolve quiet_estimateUnset quiet_prepareHdr
  quiet_denoiseChannels quiet_denoiseWeights quiet_weightsBuffer
  quiet_BuildRawImage quiet_postProcess : quiet.

(** *** Computations that do not signal completion *)

Lemma silent_fuseFrames {L : Libm} {C : Config} {K : Kernels}
  (rawContainer : RawContainer) (reference : RawData) (method : FuseMethod)
  (thresholdBuffer : list Q) (patchSize : Z) (names : list string) :
  forall st,
    silent (fuseFrames rawContainer reference method thresholdBuffer patchSize
              st names).
Proof.
  induction names as [|name rest IH]; intros st; simpl.
  - silence.
  - apply silent_bind; [|intros st'; apply IH].
    unfold fuseFrame, nextFusedImage. destruct st as [acc p]. silence.
Qed.

Lemma silent_denoise {L : Libm} {C : Config} {K : Kernels}
  (referenceRawBuffer : RawImageBuffer) (reference : RawData)
  (rawContainer : RawContainer) (progressHelper : ImageProgressHelper) :
  silent (denoise referenceRawBuffer reference rawContainer progressHelper).
Proof.
  unfold denoise. cbv zeta.
  apply silent_bind; [silence|]. intros ev.
  apply silent_bind; [apply silent_fuseFrames|]. intros st. silence.
Qed.

Lemma silent_processFusion {L : Libm} {C : Config} {K : Kernels}
  (rawContainer : RawContainer) (underexposedImages : list RawImageBuffer)
  (referenceFrame : string) (referenceRawBuffer : RawImageBuffer)
  (outputPath : string) :
  silent (processFusion rawContainer underexposedImages referenceFrame
            referenceRawBuffer outputPath).
Proof.
  unfold processFusion, denoiseCompleted. cbv zeta.
  apply silent_bind; [silence|]. intros settings.
  apply silent_bind; [silence|]. intros preview.
  destruct (GetBasePath outputPath) as [basePath filename].
  apply silent_bind; [silence|]. intros _.
  apply silent_bind; [silence|]. intros _.
  apply silent_bind; [silence|]. intros hdr.
  apply silent_bind; [apply silent_denoise|]. intros out. silence.
Qed.

Lemma silent_processDng {C : Config} {K : Kernels} (rawContainer : RawContainer)
  (referenceRawBuffer : RawImageBuffer) (denoiseOutput : list (Image Z))
  (outputPath : string) :
  silent (processDng rawContainer referenceRawBuffer denoiseOutput outputPath).
Proof. unfold processDng, WriteDng. silence. Qed.

Lemma completing_processOutput {C : Config} {K : Kernels}
  (rawContainer : RawContainer) (referenceRawBuffer : RawImageBuffer)
  (fused : Fused) (outputPath : string) :
  completing (processOutput rawContainer referenceRawBuffer fused outputPath).
Proof.
  unfold processOutput, postProcessCompleted, imageSaved.
  cbv zeta.
  repeat (apply completing_bind; [silence | intros ?]).
  apply completing_emit.
Qed.

(** X16: [process] signals completion exactly once, as its last event,
    whenever it returns (also on the error paths that report through
    [onError]), and never when it ends in an exception; [process] on a path
    returns for an empty container after [onError] without signalling
    completion. *)
Theorem process_completion {L : Libm} {C : Config} {K : Kernels}
  (rawContainer : RawContainer) (outputPath : string) :
  completing (process rawContainer outputPath)
  /\ (Num.is_empty (getFrames rawContainer) = true ->
      process_path rawContainer outputPath
      = ([onError "No frames found"], Returned tt)).
Proof.
  split.
  - unfold process.
    apply completing_bind; [silence | intros _].
    apply completing_bind; [silence | intros st].
    cbv zeta. destruct (Num.is_empty (getFrames (fst st))).
    + apply completing_bind; [silence | intros _]. apply completing_emit.
    + apply completing_bind; [silence | intros referenceFrame].
      destruct (loadFrame (fst st) referenceFrame) as [referenceRawBuffer|].
      * apply completing_bind; [apply silent_processFusion | intros fused].
        apply completing_bind; [apply silent_processDng | intros _].
        apply completing_processOutput.
      * apply completing_bind; [silence | intros _]. apply completing_emit.
  - intros Hempty. unfold process_path. rewrite Hempty. reflexivity.
Qed.

(** ** The nearest frames *)

Section NearestBuffers.

Variable containers : list RawContainer.
Variable orderedFrames : list ContainerFrame.
Variable startIdx : Z.

Let size : Z := Z.of_nat (List.length orderedFrames).

Hypothesis containers_valid :
  forall f, In f orderedFrames -> (containerIndex f < List.length containers)%nat.
Hypothesis startIdx_valid : (0 <= startIdx < size)%Z.
Hypothesis size_int : (size < 2 ^ 31)%Z.

Lemma loadOrdered_valid (i : Z) :
  (0 <= i < size)%Z ->
  loadOrdered containers orderedFrames i
  = Returned (frameAt containers orderedFrames i).
Proof.
  intros Hi. unfold loadOrdered, frameAt, Num.at_index.
  destruct (nth_error orderedFrames (Z.to_nat i)) as [f|] eqn:E.
  - pose proof (containers_valid f (nth_error_In _ _ E)) as Hc.
    destruct (nth_error containers (containerIndex f)) as [c|] eqn:Ec;
      [reflexivity|].
    apply nth_error_None in Ec. lia.
  - apply nth_error_None in E. unfold size in Hi. lia.
Qed.

Lemma to_size_t_small (z : Z) : (0 <= z < 2 ^ 64)%Z -> to_size_t z = z.
Proof. intros H. unfold to_size_t. apply Z.mod_small. exact H. Qed.

Lemma nearestIndices_S (r : nat) :
  nearestIndices startIdx size (S r)
  = nearestIndices startIdx size r ++ roundIndices startIdx size (S r).
Proof.
  unfold nearestIndices. rewrite seq_S, flat_map_app. simpl.
  rewrite app_nil_r. reflexivity.
Qed.

Lemma roundIndices_length (k : nat) :
  (List.length (roundIndices startIdx size k) <= 2)%nat.
Proof.
  unfold roundIndices.
  destruct (0 <=? startIdx - Z.of_nat k)%Z,
           (startIdx + Z.of_nat k <? size)%Z; simpl; lia.
Qed.

(** The number of frames within [r] rounds. *)
Lemma nearestIndices_length (r : nat) :
  Z.of_nat (List.length (nearestIndices startIdx size r))
  = (Z.min (Z.of_nat r) startIdx + Z.min (Z.of_nat r) (size - startIdx - 1))%Z.
Proof.
  induction r as [|r IH]; [simpl; lia|].
  rewrite nearestIndices_S, length_app, Nat2Z.inj_add, IH.
  unfold roundIndices.
  destruct (Z.leb_spec 0 (startIdx - Z.of_nat (S r))),
           (Z.ltb_spec (startIdx + Z.of_nat (S r)) size); simpl; lia.
Qed.

Lemma pushNearest_left (k : nat) (out : list (option RawImageBuffer)) :
  (1 <= k)%nat ->
  pushNearest containers orderedFrames
    (0 <=? startIdx + - Z.min (Z.of_nat k) (startIdx + 1))%Z startIdx
    (- Z.min (Z.of_nat k) (startIdx + 1)) (-1) out
  = Returned
      (out ++ map (frameAt containers orderedFrames)
                (if (0 <=? startIdx - Z.of_nat k)%Z
                 then [(startIdx - Z.of_nat k)%Z] else []),
       (- Z.min (Z.of_nat (S k)) (startIdx + 1))%Z).
Proof.
  intros Hk. unfold pushNearest.
  destruct (Z.leb_spec 0 (startIdx - Z.of_nat k)) as [Hl|Hl].
  - replace (startIdx + - Z.min (Z.of_nat k) (startIdx + 1))%Z
      with (startIdx - Z.of_nat k)%Z by lia.
    destruct (Z.leb_spec 0 (startIdx - Z.of_nat k)) as [_|]; [|lia].
    rewrite loadOrdered_valid by lia. simpl. do 2 f_equal. lia.
  - destruct (Z.leb_spec 0 (startIdx + - Z.min (Z.of_nat k) (startIdx + 1)))
      as [H|_]; [lia|].
    simpl. rewrite app_nil_r. do 2 f_equal. lia.
Qed.

Lemma pushNearest_right (k : nat) (out : list (option RawImageBuffer)) :
  (1 <= k)%nat ->
  pushNearest containers orderedFrames
    (to_size_t (startIdx + Z.min (Z.of_nat k) (size - startIdx)) <? size)%Z
    startIdx (Z.min (Z.of_nat k) (size - startIdx)) 1 out
  = Returned
      (out ++ map (frameAt containers orderedFrames)
                (if (startIdx + Z.of_nat k <? size)%Z
                 then [(startIdx + Z.of_nat k)%Z] else []),
       Z.min (Z.of_nat (S k)) (size - startIdx)).
Proof.
  intros Hk. unfold pushNearest.
  rewrite to_size_t_small by lia.
  destruct (Z.ltb_spec (startIdx + Z.of_nat k) size) as [Hr|Hr].
  - replace (startIdx + Z.min (Z.of_nat k) (size - startIdx))%Z
      with (startIdx + Z.of_nat k)%Z by lia.
    destruct (Z.ltb_spec (startIdx + Z.of_nat k) size) as [_|]; [|lia].
    rewrite loadOrdered_valid by lia. simpl. do 2 f_equal. lia.
  - destruct (Z.ltb_spec (startIdx + Z.min (Z.of_nat k) (size - startIdx)) size)
      as [H|_]; [lia|].
    simpl. rewrite app_nil_r. do 2 f_equal. lia.
Qed.

(** The loop from the start of round [j + 1] on. *)
Lemma GetNearestBuffers_loop_rounds (numBuffers : Z) :
  forall (fuel j : nat),
    (List.length orderedFrames <= fuel + j)%nat ->
    (j = 0%nat \/ ~ exhausted startIdx size j) ->
    (Z.of_nat (List.length (nearestIndices startIdx size j))
     < to_size_t numBuffers)%Z ->
    exists r : nat,
      (j < r)%nat
      /\ GetNearestBuffers_loop fuel containers orderedFrames startIdx
           numBuffers (- Z.min (Z.of_nat (S j)) (startIdx + 1))
           (Z.min (Z.of_nat (S j)) (size - startIdx))
           (map (frameAt containers orderedFrames)
              (nearestIndices startIdx size j))
         = Some (Returned (map (frameAt containers orderedFrames)
                             (nearestIndices startIdx size r)))
      /\ ((to_size_t numBuffers
           <= Z.of_nat (List.length (nearestIndices startIdx size r)))%Z
          \/ exhausted startIdx size r)
      /\ (Z.of_nat (List.length (nearestIndices startIdx size (r - 1)))
          < to_size_t numBuffers)%Z.
Proof.
  induction fuel as [|fuel IH]; intros j Hfuel Hj Hroom.
  - exfalso. unfold exhausted in Hj. unfold size in *. lia.
  - cbn [GetNearestBuffers_loop]. fold size. rewrite length_map.
    destruct (Z.leb_spec (to_size_t numBuffers)
                (Z.of_nat (List.length (nearestIndices startIdx size j))))
      as [Hfull|_]; [lia|].
    rewrite (pushNearest_left (S j)) by lia.
    rewrite (pushNearest_right (S j)) by lia.
    rewrite <- app_assoc, <- !map_app.
    change ((if (0 <=? startIdx - Z.of_nat (S j))%Z
             then [(startIdx - Z.of_nat (S j))%Z] else [])
            ++ (if (startIdx + Z.of_nat (S j) <? size)%Z
                then [(startIdx + Z.of_nat (S j))%Z] else []))
      with (roundIndices startIdx size (S j)).
    rewrite <- nearestIndices_S, length_map.
    destruct (Z.leb_spec (to_size_t numBuffers)
                (Z.of_nat (List.length (nearestIndices startIdx size (S j)))))
      as [Hfull|Hnot].
    + exists (S j). split; [lia|]. split; [reflexivity|].
      split; [now left|]. replace (S j - 1)%nat with j by lia. exact Hroom.
    + rewrite to_size_t_small by lia.
      destruct (Z.ltb_spec (startIdx + - Z.min (Z.of_nat (S (S j))) (startIdx + 1)) 0)
        as [Hl|Hl];
        [destruct (Z.leb_spec size
                     (startIdx + Z.min (Z.of_nat (S (S j))) (size - startIdx)))
           as [Hr|Hr]|]; cbn [andb].
      * exists (S j). split; [lia|]. split; [reflexivity|].
        split; [right; unfold exhausted; lia|].
        replace (S j - 1)%nat with j by lia. exact Hroom.
      * destruct (IH (S j)) as (r & Hr1 & Hr2 & Hr3 & Hr4);
          [lia | right; unfold exhausted; lia | exact Hnot |].
        exists r. split; [lia|]. split; [exact Hr2|]. split; assumption.
      * destruct (IH (S j)) as (r & Hr1 & Hr2 & Hr3 & Hr4);
          [lia | right; unfold exhausted; lia | exact Hnot |].
        exists r. split; [lia|]. split; [exact Hr2|]. split; assumption.
Qed.

End NearestBuffers.

(** The frames [nearestIndices] lists: those within [r] positions of
    [startIdx], without [startIdx] itself. *)
Lemma nearestIndices_In (startIdx size : Z) (r : nat) (i : Z) :
  (0 <= startIdx < size)%Z ->
  In i (nearestIndices startIdx size r)
  <-> (0 <= i < size /\ i <> startIdx /\ Z.abs (i - startIdx) <= Z.of_nat r)%Z.
Proof.
  intros Hs. unfold nearestIndices. rewrite in_flat_map. split.
  - intros (k & Hk & Hi). apply in_seq in Hk. unfold roundIndices in Hi.
    apply in_app_or in Hi.
    destruct (Z.leb_spec 0 (startIdx - Z.of_nat k)),
             (Z.ltb_spec (startIdx + Z.of_nat k) size);
      simpl in Hi; intuition lia.
  - intros (Hi & Hne & Habs).
    exists (Z.to_nat (Z.abs (i - startIdx))). split.
    + apply in_seq. lia.
    + unfold roundIndices. rewrite Z2Nat.id by lia. apply in_or_app.
      destruct (Z.le_gt_cases i startIdx) as [Hle|Hgt].
      * left. rewrite Z.abs_neq by lia.
        destruct (Z.leb_spec 0 (startIdx - - (i - startIdx))); [|lia].
        left. lia.
      * right. rewrite Z.abs_eq by lia.
        destruct (Z.ltb_spec (startIdx + (i - startIdx)) size); [|lia].
        left. lia.
Qed.

(** X17: for a valid start position and a count [numBuffers >= 0],
    [GetNearestBuffers] terminates (within one iteration per frame) and
    returns the frames at the positions nearest to [startIdx], round by
    round: at distance 1 the one before then the one after, then distance 2,
    and so on, [startIdx] itself excluded and frames that do not load
    included as null.  It returns at least [numBuffers] frames when so many
    other frames exist (all others otherwise), and at most
    [numBuffers + 1], since a round adds both neighbours before the count is
    checked again. *)
Theorem GetNearestBuffers_nearest (fuel : nat) (containers : list RawContainer)
  (orderedFrames : list ContainerFrame) (startIdx numBuffers : Z) :
  (forall f, In f orderedFrames ->
             (containerIndex f < List.length containers)%nat) ->
  (0 <= startIdx < Z.of_nat (List.length orderedFrames))%Z ->
  (Z.of_nat (List.length orderedFrames) < 2 ^ 31)%Z ->
  (0 <= numBuffers < 2 ^ 31)%Z ->
  (List.length orderedFrames < fuel)%nat ->
  exists rounds : nat,
    let indices :=
      nearestIndices startIdx (Z.of_nat (List.length orderedFrames)) rounds in
    GetNearestBuffers fuel containers orderedFrames startIdx numBuffers
    = Some (Returned (map (frameAt containers orderedFrames) indices))
    /\ (Z.of_nat (List.length indices) <= numBuffers + 1)%Z
    /\ (Z.min numBuffers (Z.of_nat (List.length orderedFrames) - 1)
        <= Z.of_nat (List.length indices))%Z.
Proof.
  intros Hvalid Hstart Hsize Hcount Hfuel.
  assert (Hlimit : to_size_t numBuffers = numBuffers)
    by (apply to_size_t_small; lia).
  destruct (Z.eq_dec numBuffers 0) as [->|Hpos].
  - exists 0%nat. cbv zeta. unfold GetNearestBuffers.
    destruct fuel as [|fuel]; [lia|]. simpl. split; [reflexivity | lia].
  - destruct (GetNearestBuffers_loop_rounds containers orderedFrames startIdx
                Hvalid Hstart Hsize numBuffers fuel 0)
      as (r & Hr & Hrun & Hstop & Hprev);
      [lia | now left | rewrite Hlimit; simpl; lia |].
    exists r. cbv zeta. rewrite Hlimit in *.
    replace (- Z.min (Z.of_nat 1) (startIdx + 1))%Z with (-1)%Z in Hrun by lia.
    replace (Z.min (Z.of_nat 1)
               (Z.of_nat (List.length orderedFrames) - startIdx))%Z
      with 1%Z in Hrun by lia.
    split; [exact Hrun|]. split.
    + replace r with (S (r - 1)) by lia.
      rewrite nearestIndices_S, length_app.
      pose proof (roundIndices_length orderedFrames startIdx (S (r - 1))).
      replace (S (r - 1) - 1)%nat with (r - 1)%nat in Hprev by lia. lia.
    + destruct Hstop as [Hfull|Hex]; [lia|].
      rewrite nearestIndices_length by assumption.
      unfold exhausted in Hex. lia.
Qed.

Lemma GetNearestBuffers_nearest_witness :
  let containers :=
    [sampleBurst (sampleSettings 1 0 false) (1, 1, 1)
       [("f0"%string, Some []); ("f1"%string, Some []); ("f2"%string, None);
        ("f3"%string, Some []); ("f4"%string, Some [])]] in
  exists rounds : nat,
    GetNearestBuffers 6 containers sampleOrdered 1 2
    = Some (Returned (map (frameAt containers sampleOrdered)
                        (nearestIndices 1 5 rounds)))
    /\ (Z.of_nat (List.length (nearestIndices 1 5 rounds)) <= 2 + 1)%Z
    /\ (Z.min 2 (5 - 1) <= Z.of_nat (List.length (nearestIndices 1 5 rounds)))%Z.
Proof.
  intros containers.
  apply (GetNearestBuffers_nearest 6 containers sampleOrdered 1 2).
  - intros f Hf. simpl in Hf.
    destruct Hf as [<-|[<-|[<-|[<-|[<-|[]]]]]]; simpl; lia.
  - simpl. lia.
  - simpl. lia.
  - lia.
  - simpl. lia.
Defined.

(** X18: a negative [numBuffers] does not mean no frame: the loop compares
    it with the size of the output as an unsigned number, so the count is
    never reached and [GetNearestBuffers] returns every other frame of the
    ordered list. *)
Theorem GetNearestBuffers_negative_count (fuel : nat)
  (containers : list RawContainer) (orderedFrames : list ContainerFrame)
  (startIdx numBuffers : Z) :
  (forall f, In f orderedFrames ->
             (containerIndex f < List.length containers)%nat) ->
  (0 <= startIdx < Z.of_nat (List.length orderedFrames))%Z ->
  (Z.of_nat (List.length orderedFrames) < 2 ^ 31)%Z ->
  (- 2 ^ 31 <= numBuffers < 0)%Z ->
  (List.length orderedFrames < fuel)%nat ->
  exists rounds : nat,
    let indices :=
      nearestIndices startIdx (Z.of_nat (List.length orderedFrames)) rounds in
    GetNearestBuffers fuel containers orderedFrames startIdx numBuffers
    = Some (Returned (map (frameAt containers orderedFrames) indices))
    /\ Z.of_nat (List.length indices)
       = (Z.of_nat (List.length orderedFrames) - 1)%Z.
Proof.
  intros Hvalid Hstart Hsize Hcount Hfuel.
  assert (Hlimit : to_size_t numBuffers = (numBuffers + 2 ^ 64)%Z).
  { unfold to_size_t. symmetry. apply Z.mod_unique with (q := (-1)%Z); lia. }
  destruct (GetNearestBuffers_loop_rounds containers orderedFrames startIdx
              Hvalid Hstart Hsize numBuffers fuel 0)
    as (r & Hr & Hrun & Hstop & Hprev);
    [lia | now left | rewrite Hlimit; simpl; lia |].
  exists r. cbv zeta.
  replace (- Z.min (Z.of_nat 1) (startIdx + 1))%Z with (-1)%Z in Hrun by lia.
  replace (Z.min (Z.of_nat 1)
             (Z.of_nat (List.length orderedFrames) - startIdx))%Z
    with 1%Z in Hrun by lia.
  split; [exact Hrun|].
  rewrite nearestIndices_length in Hstop by assumption.
  rewrite nearestIndices_length by assumption. rewrite Hlimit in Hstop.
  destruct Hstop as [Hfull|Hex]; [lia|]. unfold exhausted in Hex. lia.
Qed.

Lemma GetNearestBuffers_negative_count_witness :
  let containers :=
    [sampleBurst (sampleSettings 1 0 false) (1, 1, 1)
       [("f0"%string, Some []); ("f1"%string, Some []); ("f2"%string, None);
        ("f3"%string, Some []); ("f4"%string, Some [])]] in
  exists rounds : nat,
    GetNearestBuffers 6 containers sampleOrdered 1 (-1)
    = Some (Returned (map (frameAt containers sampleOrdered)
                        (nearestIndices 1 5 rounds)))
    /\ Z.of_nat (List.length (nearestIndices 1 5 rounds)) = (5 - 1)%Z.
Proof.
  intros containers.
  apply (GetNearestBuffers_negative_count 6 containers sampleOrdered 1 (-1)).
  - intros f Hf. simpl in Hf.
    destruct Hf as [<-|[<-|[<-|[<-|[<-|[]]]]]]; simpl; lia.
  - simpl. lia.
  - simpl. lia.
  - lia.
  - simpl. lia.
Defined.

(** ** Exposure compensation *)

Lemma accumulate_from (l : list Q) (a : Q) :
  fold_left Qplus l a == a + fold_left Qplus l 0.
Proof.
  revert a. induction l as [|x l IH]; intros a; simpl.
  - lra.
  - rewrite (IH (a + x)), (IH (0 + x)). lra.
Qed.

Lemma tailMass_step (histogram : list Q) (n : nat) :
  (n < List.length histogram)%nat ->
  tailMass histogram (Z.of_nat n)
  == tailMass histogram (Z.of_nat (S n)) + nth n histogram 0.
Proof.
  intros Hn. unfold tailMass, Num.accumulate. rewrite !Nat2Z.id.
  revert n Hn. induction histogram as [|x l IH]; intros n Hn; [simpl in Hn; lia|].
  destruct n as [|n].
  - simpl. rewrite accumulate_from. lra.
  - simpl in Hn. simpl skipn. simpl nth. apply IH. lia.
Qed.

Lemma range_snoc (n : nat) :
  Num.range 0 (Z.of_nat (S n)) = Num.range 0 (Z.of_nat n) ++ [Z.of_nat n].
Proof.
  unfold Num.range. rewrite !Z.sub_0_r, !Nat2Z.id, seq_S, map_app.
  reflexivity.
Qed.

Lemma exposureBin_scan_comp (histogram : list Q) (threshold : Q)
  (indices : list Z) (total total' : Q) :
  total == total' ->
  exposureBin_scan histogram threshold indices total
  = exposureBin_scan histogram threshold indices total'.
Proof.
  revert total total'. induction indices as [|i rest IH]; intros total total' E;
    [reflexivity|].
  simpl.
  assert (E' : total + nth (Z.to_nat i) histogram 0
               == total' + nth (Z.to_nat i) histogram 0) by (rewrite E; reflexivity).
  unfold Num.ltb. rewrite (Qcompare_comp _ _ E' _ _ (Qeq_refl threshold)).
  fold (Num.ltb (total' + nth (Z.to_nat i) histogram 0) threshold).
  destruct (Num.ltb (total' + nth (Z.to_nat i) histogram 0) threshold);
    [|reflexivity].
  simpl. apply IH. exact E'.
Qed.

(** The scan from bin [n - 1] down, entered with the mass of the bins from
    [n] up. *)
Lemma exposureBin_scan_spec (histogram : list Q) (threshold : Q) (n : nat) :
  (n <= List.length histogram)%nat ->
  let bin :=
    exposureBin_scan histogram threshold (rev (Num.range 0 (Z.of_nat n)))
      (tailMass histogram (Z.of_nat n)) in
  (0 <= bin <= Z.max 0 (Z.of_nat n - 1))%Z
  /\ (forall i, (bin < i < Z.of_nat n)%Z -> tailMass histogram i < threshold)
  /\ (threshold <= tailMass histogram bin
      \/ (bin = 0%Z
          /\ forall i, (0 <= i < Z.of_nat n)%Z ->
                       tailMass histogram i < threshold)).
Proof.
  induction n as [|n IH]; intros Hn; cbv zeta.
  - simpl. split; [lia|]. split; [intros; lia|]. right. split; [reflexivity|].
    intros; lia.
  - rewrite range_snoc, rev_app_distr. simpl rev. simpl app.
    cbn [exposureBin_scan]. rewrite Nat2Z.id.
    pose proof (tailMass_step histogram n ltac:(lia)) as Hstep.
    destruct (ltb_spec (tailMass histogram (Z.of_nat (S n)) + nth n histogram 0)
                threshold) as [Hlt|Hge]; cbn [negb].
    + rewrite (exposureBin_scan_comp _ _ _ _ (tailMass histogram (Z.of_nat n)))
        by (symmetry; exact Hstep).
      destruct (IH ltac:(lia)) as (Hb & Habove & Hat).
      split; [lia|]. split.
      * intros i Hi. destruct (Z.eq_dec i (Z.of_nat n)) as [->|Hne].
        -- rewrite Hstep. exact Hlt.
        -- apply Habove. lia.
      * destruct Hat as [Hat|[Hz Hall]]; [now left|]. right.
        split; [exact Hz|]. intros i Hi.
        destruct (Z.eq_dec i (Z.of_nat n)) as [->|Hne].
        -- rewrite Hstep. exact Hlt.
        -- apply Hall. lia.
    + split; [lia|]. split; [intros; lia|]. left.
      rewrite Hstep. apply Qnot_lt_le. exact Hge.
Qed.

Lemma tailMass_end (histogram : list Q) :
  tailMass histogram (Z.of_nat (List.length histogram)) = 0.
Proof.
  unfold tailMass. rewrite Nat2Z.id, skipn_all. reflexivity.
Qed.

(** X19: [estimateExposureCompensation] returns [log2(cols / (bin + 1))],
    where [bin] is the brightest bin from which the mass of the histogram up
    to the last bin reaches the threshold: the bins above it hold less than
    the threshold together, and [bin] is 0 when even the whole histogram
    stays below the threshold.  [bin] is a valid bin, so the argument of
    [log2] lies between 1 and the number of bins. *)
Theorem estimateExposureCompensation_bin {L : Libm} (histogram : list Q)
  (threshold : Q) :
  let cols := Z.of_nat (List.length histogram) in
  let bin := exposureBin histogram threshold in
  estimateExposureCompensation histogram threshold
  = log2 (inject_Z cols / inject_Z (bin + 1))
  /\ (0 <= bin <= Z.max 0 (cols - 1))%Z
  /\ (forall i, (bin < i < cols)%Z -> tailMass histogram i < threshold)
  /\ (threshold <= tailMass histogram bin
      \/ (bin = 0%Z
          /\ forall i, (0 <= i < cols)%Z -> tailMass histogram i < threshold)).
Proof.
  intros cols bin. split; [reflexivity|].
  pose proof (exposureBin_scan_spec histogram threshold (List.length histogram)
                (Nat.le_refl _)) as H.
  cbv zeta in H. rewrite tailMass_end in H. exact H.
Qed.

Lemma nth_last {A : Type} (l : list A) (d : A) :
  nth (List.length l - 1) l d = last l d.
Proof.
  induction l as [|x l IH]; [reflexivity|].
  destruct l as [|y l]; [reflexivity|].
  change (last (x :: y :: l) d) with (last (y :: l) d). rewrite <- IH.
  simpl. rewrite Nat.sub_0_r. reflexivity.
Qed.

(** X20: [estimateSettings] fails with [InvalidState] when the as-shot
    white balance of the frame has no positive component, and whenever it
    returns, the shadows it estimates lie in [[1, 32]], the exposure
    compensation is the one of the frame's histogram at threshold 0.0005, and
    the clipped lows and highs are the first and the last bin of that
    histogram. *)
Theorem estimateSettings_outcome {L : Libm} {K : Kernels}
  (raw : RawImageBuffer) (cameraMetadata : RawCameraMetadata) :
  (vec_max (asShot (metadata raw)) <= 0 ->
   estimateSettings raw cameraMetadata
   = throw (InvalidState "Camera white balance vector is zero"))
  /\ forall (t : Trace) (s : EstimatedSettings),
       estimateSettings raw cameraMetadata = (t, Returned s) ->
       1 <= estimatedShadows s <= 32
       /\ exists histogram : list Q,
            calcHistogram cameraMetadata raw false 8 = ret histogram
            /\ estimatedExposure s
               = estimateExposureCompensation histogram 0.0005
            /\ Some (clippedLows s) = hd_error histogram
            /\ clippedHighs s = last histogram (clippedLows s).
Proof.
  split.
  - intros Hzero. unfold estimateSettings.
    destruct (calcEv_total cameraMetadata (metadata raw)) as [ev Hev].
    rewrite Hev. cbn [deref]. rewrite bind_ret_l. cbv zeta.
    rewrite calcHistogram_zero by exact Hzero. reflexivity.
  - intros t s H. unfold estimateSettings in H.
    destruct (calcEv_total cameraMetadata (metadata raw)) as [ev Hev].
    rewrite Hev in H. cbn [deref] in H. rewrite bind_ret_l in H. cbv zeta in H.
    apply bind_returned_inv in H.
    destruct H as (t1 & histogram & t2 & Hhist & H & ->).
    assert (Ht1 : t1 = []).
    { unfold calcHistogram in Hhist. cbv zeta in Hhist.
      rewrite lift_bind in Hhist.
      destruct (createSrgbMatrix cameraMetadata (metadata raw)
                  (asShot (metadata raw))); try discriminate.
      unfold ret in Hhist. injection Hhist as <- _. reflexivity. }
    subst t1.
    apply bind_returned_inv in H. destruct H as (t3 & low & t4 & Hlow & H & ->).
    apply bind_returned_inv in H. destruct H as (t5 & high & t6 & Hhigh & H & ->).
    unfold ret in H. injection H as _ <-.
    cbn [estimatedShadows estimatedExposure clippedLows clippedHighs].
    split; [apply estimateShadows_range|].
    exists histogram. split; [exact Hhist|]. split; [reflexivity|].
    unfold Num.at_index in Hlow, Hhigh.
    destruct histogram as [|h0 rest]; [discriminate Hlow|].
    cbn [nth_error deref] in Hlow. unfold ret in Hlow. injection Hlow as _ <-.
    split; [reflexivity|].
    destruct (nth_error (h0 :: rest) (List.length (h0 :: rest) - 1)) as [v|] eqn:E;
      [|discriminate Hhigh].
    cbn [deref] in Hhigh. unfold ret in Hhigh. injection Hhigh as _ <-.
    apply nth_error_nth with (d := h0) in E. rewrite <- E.
    apply nth_last.
Qed.

(** ** The [denoise] overloads on loaded buffers *)

(** X21: in the [denoise] overload that takes the companion frames as
    buffers, the planes handed to the wavelet stage hold, for every burst
    with at least one companion frame, the accumulated sum divided by the
    number of companion frames, black-level-subtracted and rescaled in
    single precision, rounded and clamped: an integer in
    [[0, EXPANDED_RANGE]] less than 1 away from the exact normalized value
    (the reference pixel treated the same way when there is none).  This
    overload tests [buffers.empty()], so a single companion frame is
    averaged too.  The data is 16-bit: pixel values, levels and
    [EXPANDED_RANGE] lie in [[0, 65535]], the white level is at least one
    above the black level and the rescaling factor is at most 32. *)
Theorem denoiseInput_buffers_value {C : Config} (buffers : list RawImageBuffer)
  (reference : Buffer Z) (fuseOutput : Buffer Q) (blackLevel : list Q)
  (whiteLevel : Q) (x y c : Z) :
  let bl := nth (Z.to_nat c) blackLevel 0 in
  let out :=
    buf_at (denoiseInput_buffers buffers reference fuseOutput blackLevel
              whiteLevel) x y c in
  let n := inject_Z (Z.of_nat (List.length buffers)) in
  (0 <= EXPANDED_RANGE <= 65535)%Z ->
  0 <= bl -> whiteLevel <= 65535 -> 1 <= whiteLevel - bl ->
  inject_Z EXPANDED_RANGE <= 32 * (whiteLevel - bl) ->
  (buffers = [] ->
   (0 <= buf_at reference x y c <= 65535)%Z ->
   (0 <= out <= EXPANDED_RANGE)%Z
   /\ Qabs (inject_Z out
            - normalizedValue (inject_Z (buf_at reference x y c)) bl whiteLevel)
      < 1)
  /\ (buffers <> [] ->
      (Z.of_nat (List.length buffers) < 2 ^ 24)%Z ->
      0 <= buf_at fuseOutput x y c <= 65535 * n ->
      (0 <= out <= EXPANDED_RANGE)%Z
      /\ Qabs (inject_Z out
               - normalizedValue (buf_at fuseOutput x y c / n) bl whiteLevel)
         < 1).
Proof.
  intros bl out n HER Hbl Hwl HD HS. unfold out, denoiseInput_buffers. split.
  - intros -> Hv. cbn [Num.is_empty buf_at].
    destruct (reference_pixel_exact _ Hv) as (v0 & Ev & Hv0). rewrite Ev.
    apply normalizePixel_near; try assumption.
    split; [rewrite <- (Zle_Qle 0) | change 65535 with (inject_Z 65535);
                                       rewrite <- Zle_Qle]; lia.
  - intros Hne Hn24 Hfuse.
    destruct buffers as [|b rest]; [contradiction|].
    cbn [Num.is_empty buf_at].
    destruct (averaged_pixel_near (buf_at fuseOutput x y c)
                (List.length (b :: rest))) as (v0 & Ev & Ha & Hv0);
      [simpl; lia | exact Hn24 | exact Hfuse |].
    rewrite Ev. apply normalizePixel_near; assumption.
Qed.

Lemma denoiseInput_buffers_value_witness :
  let out :=
    buf_at (denoiseInput_buffers (C:=sampleConfig)
              [sampleRawImage (sampleMetadata 10000000 100 (1, 1, 1)) 8]
              (samplePlanes 1000) (sampleAccumulator 900) [64; 64; 64; 64]
              1023) 0 0 0 in
  out = 14283%Z
  /\ Qabs (inject_Z out - normalizedValue (C:=sampleConfig) (900 / 1) 64 1023)
     < 1.
Proof.
  intros out.
  assert (HER : (0 <= @EXPANDED_RANGE sampleConfig <= 65535)%Z)
    by (vm_compute; split; discriminate).
  split; [vm_compute; reflexivity|].
  apply (denoiseInput_buffers_value (C:=sampleConfig)
           [sampleRawImage (sampleMetadata 10000000 100 (1, 1, 1)) 8]
           (samplePlanes 1000) (sampleAccumulator 900) [64; 64; 64; 64] 1023
           0 0 0 HER); try (vm_compute; discriminate).
  - vm_compute. reflexivity.
  - vm_compute. split; discriminate.
Defined.

Lemma denoiseChannels_weighted_shape {C : Config} {K : Kernels}
  (input : Buffer Z) (wavelet : list (Z * Z)) (weights : list Q)
  (channels : list Z) :
  (4 <= List.length wavelet)%nat ->
  (forall c w0 w1 w2 w3, forward_transform input c [w0; w1; w2; w3] <> []) ->
  exists planes : list (Image Z),
    denoiseChannels_weighted input wavelet weights channels = ret planes
    /\ List.length planes = List.length channels
    /\ Forall (fun p => rows p = buf_height input /\ cols p = buf_width input)
         planes.
Proof.
  intros Hlen Hbands.
  destruct wavelet as [|w0 [|w1 [|w2 [|w3 rest]]]]; simpl in Hlen; try lia.
  induction channels as [|c channels IH].
  - exists []. repeat split. constructor.
  - destruct IH as (planes & Hrun & Hl & Hshape).
    simpl denoiseChannels_weighted. unfold denoiseChannel_weighted.
    cbn [Num.at_index nth_error deref]. rewrite !bind_ret_l. cbv zeta.
    destruct (forward_transform input c [w0; w1; w2; w3]) as [|band0 bands] eqn:E;
      [exfalso; exact (Hbands _ _ _ _ _ E)|].
    cbn [nth_error deref]. rewrite !bind_ret_l, Hrun, bind_ret_l.
    eexists. split; [reflexivity|]. split; [simpl; rewrite Hl; reflexivity|].
    constructor; [split; reflexivity | exact Hshape].
Qed.

(** X22: the [denoise] overload with explicit weights indexes four wavelet
    buffers and hands the inverse transform [WAVELET_LEVELS] weights: when
    [WAVELET_LEVELS] is at least 4, the vector holds at least
    [WAVELET_LEVELS] weights and the forward transform yields its bands, it
    returns exactly four planes, each of the padded size of the reference
    frame.  With fewer than four wavelet levels it reads outside the vector
    of wavelet buffers, and with fewer than [WAVELET_LEVELS] weights (or
    none) outside the vector of weights. *)
Theorem denoise_weighted_planes {L : Libm} {C : Config} {K : Kernels}
  (referenceRawBuffer : RawImageBuffer) (buffers : list RawImageBuffer)
  (weights : list Q) (cameraMetadata : RawCameraMetadata) :
  (forall input c w0 w1 w2 w3,
     forward_transform input c [w0; w1; w2; w3] <> []) ->
  let reference :=
    loadRawImage referenceRawBuffer cameraMetadata true default_scalePreview in
  ((4 <= WAVELET_LEVELS <= List.length weights)%nat ->
   exists planes : list (Image Z),
     denoise_weighted referenceRawBuffer buffers weights cameraMetadata
     = ret planes
     /\ List.length planes = 4%nat
     /\ Forall (fun p => rows p = buf_height (rawBuffer reference)
                         /\ cols p = buf_width (rawBuffer reference)) planes)
  /\ ((WAVELET_LEVELS < 4)%nat \/ (List.length weights < WAVELET_LEVELS)%nat
      \/ weights = [] ->
      denoise_weighted referenceRawBuffer buffers weights cameraMetadata
      = ([], Undefined)).
Proof.
  intros Hbands reference.
  unfold denoise_weighted. cbv zeta. fold reference.
  set (input := denoiseInput_buffers buffers (rawBuffer reference) _ _ _).
  assert (Hin : buf_height input = buf_height (rawBuffer reference)
                /\ buf_width input = buf_width (rawBuffer reference)).
  { unfold input, denoiseInput_buffers. destruct (Num.is_empty buffers);
      split; reflexivity. }
  destruct Hin as [Hh Hw]. unfold weightsBuffer. split.
  - intros [Hlevels Hweights].
    destruct weights as [|w0 weights]; [simpl in Hweights; lia|].
    cbn [Num.at_index nth_error deref]. rewrite bind_ret_l.
    assert (Hlt : (List.length (w0 :: weights) <? WAVELET_LEVELS)%nat = false)
      by (apply Nat.ltb_ge; exact Hweights).
    rewrite Hlt, bind_ret_l.
    destruct (denoiseChannels_weighted_shape input
                (createWaveletBuffers (buf_width input) (buf_height input))
                (firstn WAVELET_LEVELS (w0 :: weights)) (Num.range 0 4))
      as (planes & Hrun & Hl & Hshape).
    + unfold createWaveletBuffers. rewrite createWaveletBuffers_from_length.
      exact Hlevels.
    + intros c w0' w1 w2 w3. apply Hbands.
    + exists planes. split; [exact Hrun|]. split; [exact Hl|].
      rewrite <- Hh, <- Hw. exact Hshape.
  - intros Hbad. destruct weights as [|w0 weights]; [reflexivity|].
    cbn [Num.at_index nth_error deref]. rewrite bind_ret_l.
    destruct (List.length (w0 :: weights) <? WAVELET_LEVELS)%nat eqn:Hlt;
      [reflexivity|].
    apply Nat.ltb_ge in Hlt. rewrite bind_ret_l.
    destruct Hbad as [Hlevels|[Hshort|Hnil]]; [|lia|discriminate].
    unfold createWaveletBuffers.
    destruct WAVELET_LEVELS as [|[|[|[|n]]]]; try lia; reflexivity.
Qed.

Lemma denoise_weighted_planes_witness :
  (exists planes : list (Image Z),
     denoise_weighted (L:=sampleLibm) (C:=sampleConfig)
       (K:=sampleKernelsDng dng_ok)
       (sampleRawImage (sampleMetadata 10000000 100 (1, 1, 1)) 8)
       [sampleRawImage (sampleMetadata 10000000 100 (1, 1, 1)) 8]
       [4; 2; 1; 0] (sampleCamera [1.8])
     = ret planes
     /\ List.length planes = 4%nat)
  /\ denoise_weighted (L:=sampleLibm) (C:=sampleConfig)
       (K:=sampleKernelsDng dng_ok)
       (sampleRawImage (sampleMetadata 10000000 100 (1, 1, 1)) 8)
       [sampleRawImage (sampleMetadata 10000000 100 (1, 1, 1)) 8]
       [1] (sampleCamera [1.8])
     = ([], Undefined).
Proof.
  split.
  - destruct (denoise_weighted_planes (L:=sampleLibm) (C:=sampleConfig)
                (K:=sampleKernelsDng dng_ok)
                (sampleRawImage (sampleMetadata 10000000 100 (1, 1, 1)) 8)
                [sampleRawImage (sampleMetadata 10000000 100 (1, 1, 1)) 8]
                [4; 2; 1; 0] (sampleCamera [1.8]))
      as [Hfour _].
    + intros input c w0 w1 w2 w3. discriminate.
    + destruct Hfour as (planes & Hrun & Hl & _); [vm_compute; lia|].
      exists planes. split; assumption.
  - destruct (denoise_weighted_planes (L:=sampleLibm) (C:=sampleConfig)
                (K:=sampleKernelsDng dng_ok)
                (sampleRawImage (sampleMetadata 10000000 100 (1, 1, 1)) 8)
                [sampleRawImage (sampleMetadata 10000000 100 (1, 1, 1)) 8]
                [1] (sampleCamera [1.8]))
      as [_ Hshort].
    + intros input c w0 w1 w2 w3. discriminate.
    + apply Hshort. right. left. vm_compute. lia.
Defined.

(** ** EXIF tags *)

Lemma rne_nonneg (x : Q) : 0 <= x -> (0 <= IEEE.rne x)%Z.
Proof.
  intros H. unfold IEEE.rne.
  assert (Hf : (0 <= Qfloor x)%Z) by (apply (Qfloor_resp_le 0 x H)).
  destruct (Qcompare _ _); [destruct (Z.even _)| |]; lia.
Qed.

Lemma round_nonneg (f : IEEE.format) (x y : Q) :
  0 <= x -> IEEE.round f x = IEEE.Finite y -> 0 <= y.
Proof.
  intros Hx. unfold IEEE.round. cbv zeta.
  destruct (Qeq_bool x 0); [intros [= <-]; lra|].
  destruct (Qle_bool _ _); [destruct (Num.ltb x 0); discriminate|].
  match goal with
  | |- IEEE.Finite (Qred ?t) = _ -> _ =>
      pose proof (Qred_correct t) as E; set (r := Qred t) in *
  end.
  intros [= <-]. rewrite E.
  pose proof (pow2_pos (IEEE.ulp_exponent f x)) as Hp.
  apply Qmult_le_0_compat; [|lra].
  change 0 with (inject_Z 0). rewrite <- Zle_Qle. apply rne_nonneg.
  apply Qle_shift_div_l; [exact Hp|]. lra.
Qed.

Lemma rne_opp (x : Q) : IEEE.rne (- x) = (- IEEE.rne x)%Z.
Proof.
  unfold IEEE.rne.
  pose proof (Qfloor_le x) as Hlo. pose proof (Qlt_floor x) as Hhi.
  rewrite inject_Z_plus in Hhi. change (inject_Z 1) with 1 in Hhi.
  set (k := Qfloor x) in *.
  destruct (Qeq_dec x (inject_Z k)) as [E|E].
  - assert (E' : - x == inject_Z (- k)) by (rewrite inject_Z_opp, E; reflexivity).
    rewrite (Qfloor_comp _ _ E'), Qfloor_Z.
    assert (H1 : (- x - inject_Z (- k) ?= 1 # 2) = Lt).
    { rewrite <- Qlt_alt. rewrite E'. lra. }
    assert (H2 : (x - inject_Z k ?= 1 # 2) = Lt).
    { rewrite <- Qlt_alt. rewrite E. lra. }
    rewrite H1, H2. reflexivity.
  - assert (Hf : Qfloor (- x) = (- k - 1)%Z).
    { apply Qfloor_unique.
      all: unfold Z.sub; rewrite ?inject_Z_plus, ?inject_Z_opp;
        change (inject_Z 1) with 1; lra. }
    rewrite Hf.
    assert (Ei : inject_Z (- k - 1) == - inject_Z k - 1).
    { unfold Z.sub. rewrite inject_Z_plus, !inject_Z_opp. reflexivity. }
    destruct (Qcompare_spec (x - inject_Z k) (1 # 2)) as [C|C|C].
    + assert (H1 : (- x - inject_Z (- k - 1) ?= 1 # 2) = Eq).
      { rewrite <- Qeq_alt. rewrite Ei. lra. }
      rewrite H1. rewrite Z.even_sub, Z.even_opp. change (Z.even 1) with false.
      destruct (Z.even k); cbn; lia.
    + assert (H1 : (- x - inject_Z (- k - 1) ?= 1 # 2) = Gt).
      { rewrite <- Qgt_alt. rewrite Ei. lra. }
      rewrite H1. lia.
    + assert (H1 : (- x - inject_Z (- k - 1) ?= 1 # 2) = Lt).
      { rewrite <- Qlt_alt. rewrite Ei. lra. }
      rewrite H1. lia.
Qed.

Lemma ilog2_opp (x : Q) : IEEE.ilog2 (- x) = IEEE.ilog2 x.
Proof.
  destruct x as [n d]. unfold IEEE.ilog2. cbn [Qnum Qden Qopp Qabs].
  rewrite !Z.abs_opp. reflexivity.
Qed.

Lemma Qle_bool_comp (a x y : Q) : x == y -> Qle_bool a x = Qle_bool a y.
Proof.
  intros E. destruct (Qle_bool a x) eqn:E1, (Qle_bool a y) eqn:E2; try reflexivity.
  - apply Qle_bool_iff in E1. rewrite E in E1. apply Qle_bool_iff in E1. congruence.
  - apply Qle_bool_iff in E2. rewrite <- E in E2. apply Qle_bool_iff in E2. congruence.
Qed.

(** Rounding is symmetric, and its results are in lowest terms. *)
Lemma round_opp (f : IEEE.format) (x y : Q) :
  IEEE.round f x = IEEE.Finite y ->
  IEEE.round f (- x) = IEEE.Finite (- y) /\ exists z : Q, y = Qred z.
Proof.
  unfold IEEE.round. cbv zeta.
  assert (E0 : Qeq_bool (- x) 0 = Qeq_bool x 0).
  { destruct (Qeq_bool x 0) eqn:E.
    - apply Qeq_bool_iff in E. apply Qeq_bool_iff. rewrite E. reflexivity.
    - apply Qeq_bool_neq in E. destruct (Qeq_bool (- x) 0) eqn:E'; [|reflexivity].
      apply Qeq_bool_iff in E'. exfalso. apply E. lra. }
  rewrite E0. destruct (Qeq_bool x 0).
  { cbv iota. intros H. injection H as H. subst y.
    split; [reflexivity | now exists 0]. }
  unfold IEEE.ulp_exponent. rewrite ilog2_opp.
  set (e := Z.max _ _).
  assert (Ek : IEEE.rne (- x / 2 ^ e) = (- IEEE.rne (x / 2 ^ e))%Z).
  { rewrite <- rne_opp. apply rne_comp. pose proof (pow2_pos e). field. lra. }
  rewrite Ek. set (k := IEEE.rne (x / 2 ^ e)).
  assert (Ey : inject_Z (- k) * 2 ^ e == - (inject_Z k * 2 ^ e))
    by (rewrite inject_Z_opp; ring).
  assert (Eo : Qle_bool (2 ^ IEEE.emax f) (Qabs (inject_Z (- k) * 2 ^ e))
               = Qle_bool (2 ^ IEEE.emax f) (Qabs (inject_Z k * 2 ^ e))).
  { apply Qle_bool_comp. rewrite Ey. apply Qabs_opp. }
  rewrite Eo. clear Eo.
  destruct (Qle_bool (2 ^ IEEE.emax f) (Qabs (inject_Z k * 2 ^ e))); cbv iota.
  { destruct (Num.ltb x 0); intros H; discriminate H. }
  rewrite (Qred_complete _ _ Ey), Qred_opp.
  set (r := Qred (inject_Z k * 2 ^ e)).
  assert (Hr : exists z : Q, r = Qred z) by (eexists; reflexivity).
  clearbody r. intros H. injection H as H. subst y.
  split; [reflexivity | exact Hr].
Qed.

Lemma round64_small (x : Q) :
  0 <= x <= 64 ->
  exists y : Q,
    IEEE.round IEEE.binary64 x = IEEE.Finite y
    /\ 0 <= y /\ Qabs (y - x) <= 1 # 100000000000000.
Proof.
  intros Hx.
  assert (Hbig : 64 <= 2 ^ 1023) by (vm_compute; discriminate).
  destruct (round64_error x) as (y & E & B).
  { rewrite Qabs_pos; lra. }
  exists y. split; [exact E|]. split; [apply (round_nonneg _ _ _ (proj1 Hx) E)|].
  rewrite (Qabs_pos x) in B by lra.
  destruct u64_small as [Hu0 Hu]. destruct eta64_small as [He0 He].
  set (u := 2 ^ (-53)) in *. set (eta := 2 ^ (-1075)) in *.
  assert (P1 : 0 <= u * (64 - x)) by (apply Qmult_le_0_compat; lra).
  assert (Q1 : u * (64 - x) == 64 * u - u * x) by ring.
  rewrite Q1 in P1. set (ux := u * x) in *. clearbody ux u eta.
  eapply Qle_trans; [exact B|]. lra.
Qed.

Lemma exifDegrees_opp (d : Q) :
  Qabs d <= 2 ^ 1023 -> exifDegrees (- d) = exifDegrees d.
Proof.
  intros Hd. destruct (round64_error d Hd) as (D & E & _).
  destruct (round_opp _ _ _ E) as (E' & z & Hz).
  unfold exifDegrees, IEEE.of_Q. cbv zeta. rewrite E, E'.
  assert (Ha : (if IEEE.ltb (IEEE.Finite (- D)) (IEEE.Finite 0)
                then IEEE.opp (IEEE.Finite (- D)) else IEEE.Finite (- D))
               = (if IEEE.ltb (IEEE.Finite D) (IEEE.Finite 0)
                  then IEEE.opp (IEEE.Finite D) else IEEE.Finite D)).
  { cbn [IEEE.ltb IEEE.opp].
    destruct (ltb_spec (- D) 0) as [H1|H1], (ltb_spec D 0) as [H2|H2].
    - lra.
    - f_equal. destruct D as [n m]. unfold Qopp. cbn [Qnum Qden].
      rewrite Z.opp_involutive. reflexivity.
    - reflexivity.
    - assert (E0 : z == 0) by (rewrite <- (Qred_correct z), <- Hz; lra).
      rewrite Hz, (Qred_complete _ _ E0). reflexivity. }
  rewrite Ha. reflexivity.
Qed.

Lemma floor_parts (x : Q) :
  0 <= x ->
  (0 <= Num.trunc x)%Z
  /\ inject_Z (Num.trunc x) <= x
  /\ x < inject_Z (Num.trunc x) + 1.
Proof.
  intros Hx. rewrite trunc_nonneg by exact Hx.
  pose proof (Qfloor_le x) as Hle. pose proof (Qlt_floor x) as Hlt.
  rewrite inject_Z_plus in Hlt. change (inject_Z 1) with 1 in Hlt.
  split; [|split; assumption].
  apply (Qfloor_resp_le 0 x) in Hx. exact Hx.
Qed.

Lemma inject_Z_le_60 (z : Z) : inject_Z z < 61 -> (z <= 60)%Z.
Proof.
  intros H. change 61 with (inject_Z 61) in H. rewrite <- Zlt_Qlt in H. lia.
Qed.

(** One step of [toExifString]: the integer part is taken off and the rest
    multiplied by 60. *)
Lemma exifDegrees_step (a : Q) (n : Z) :
  0 <= a -> n = Num.trunc a -> (n < 2 ^ 53)%Z ->
  exists m : Q,
    IEEE.mul IEEE.binary64
      (IEEE.sub IEEE.binary64 (IEEE.Finite a) (IEEE.of_Z IEEE.binary64 n))
      (IEEE.Finite 60)
    = IEEE.Finite m
    /\ 0 <= m < 61
    /\ Qabs (m - 60 * (a - inject_Z n)) <= 61 # 100000000000000.
Proof.
  intros Ha -> Hn. destruct (floor_parts a Ha) as (H0 & H1 & H2).
  set (n := Num.trunc a) in *.
  rewrite of_Z64_exact by lia.
  pose proof (Qred_correct (inject_Z n)) as En.
  set (nq := Qred (inject_Z n)) in *.
  unfold IEEE.sub. cbn [IEEE.opp IEEE.add].
  destruct (round64_small (a + - nq)) as (x & Ex & Hx0 & Bx); [lra|].
  rewrite Ex. cbn [IEEE.mul]. apply Qabs_le_iff in Bx.
  destruct (round64_small (x * 60)) as (m & Em & Hm0 & Bm); [lra|].
  rewrite Em. apply Qabs_le_iff in Bm.
  exists m. split; [reflexivity|]. split; [lra|]. apply Qabs_le_iff. lra.
Qed.

Lemma exifDegrees_spec (d : Q) :
  Qabs d < 2147483648 ->
  exists D : Q,
    IEEE.of_Q IEEE.binary64 d = IEEE.Finite D
    /\ let '(deg, min, sec) := exifDegrees d in
       let value := inject_Z deg + inject_Z min / 60 + inject_Z sec / 3600 in
       (0 <= deg)%Z /\ (0 <= min <= 60)%Z /\ (0 <= sec <= 60)%Z
       /\ value - (1 # 10000000000000) <= Qabs D
       /\ Qabs D < value + (1 # 3600) + (1 # 10000000000000).
Proof.
  intros Hd.
  assert (Hbig : 2147483648 <= 2 ^ 1023) by (vm_compute; discriminate).
  destruct (round64_error d) as (D & E & B); [lra|].
  exists D. split; [exact E|].
  unfold exifDegrees, IEEE.of_Q. cbv zeta. rewrite E.
  destruct u64_small as [Hu0 Hu]. destruct eta64_small as [He0 He].
  assert (HD : Qabs D <= 2147483649).
  { pose proof (Qabs_nonneg d) as Hd0.
    assert (P : 0 <= 2 ^ (-53) * (2147483648 - Qabs d))
      by (apply Qmult_le_0_compat; lra).
    assert (Q1 : 2 ^ (-53) * (2147483648 - Qabs d)
                 == 2147483648 * 2 ^ (-53) - 2 ^ (-53) * Qabs d) by ring.
    rewrite Q1 in P.
    assert (T : Qabs D <= Qabs d + Qabs (D - d)).
    { setoid_replace D with (d + (D - d)) at 1 by ring. apply Qabs_triangle. }
    set (u := 2 ^ (-53)) in *. set (eta := 2 ^ (-1075)) in *.
    set (ud := u * Qabs d) in *. clearbody ud u eta. lra. }
  set (a := if IEEE.ltb (IEEE.Finite D) (IEEE.Finite 0)
            then IEEE.opp (IEEE.Finite D) else IEEE.Finite D).
  assert (Ha : exists A, a = IEEE.Finite A /\ A == Qabs D /\ 0 <= A).
  { unfold a. cbn [IEEE.ltb IEEE.opp].
    destruct (ltb_spec D 0) as [H|H].
    - exists (- D). split; [reflexivity|]. rewrite Qabs_neg by lra. split; lra.
    - exists D. split; [reflexivity|]. rewrite Qabs_pos by lra. split; lra. }
  destruct Ha as (A & -> & EA & HA0). rewrite <- EA. rewrite <- EA in HD.
  clear EA B E Hd. cbn [IEEE.trunc].
  destruct (floor_parts A HA0) as (Hdeg0 & Hdeg1 & Hdeg2).
  set (deg := Num.trunc A) in *.
  assert (Hdeg : (deg < 2 ^ 53)%Z).
  { assert (inject_Z deg < inject_Z (2 ^ 53)); [|now rewrite Zlt_Qlt].
    assert (2147483649 < inject_Z (2 ^ 53)) by (vm_compute; reflexivity). lra. }
  destruct (exifDegrees_step A deg HA0 eq_refl Hdeg) as (m1 & E1 & Hm1 & B1).
  rewrite E1. cbn [IEEE.trunc].
  destruct (floor_parts m1 (proj1 Hm1)) as (Hmin0 & Hmin1 & Hmin2).
  set (min := Num.trunc m1) in *.
  assert (Hmin : (min <= 60)%Z) by (apply inject_Z_le_60; lra).
  destruct (exifDegrees_step m1 min (proj1 Hm1) eq_refl ltac:(lia))
    as (s1 & E2 & Hs1 & B2).
  rewrite E2. cbn [IEEE.trunc].
  destruct (floor_parts s1 (proj1 Hs1)) as (Hsec0 & Hsec1 & Hsec2).
  set (sec := Num.trunc s1) in *.
  assert (Hsec : (sec <= 60)%Z) by (apply inject_Z_le_60; lra).
  cbv zeta. split; [exact Hdeg0|]. split; [lia|]. split; [lia|].
  apply Qabs_le_iff in B1. apply Qabs_le_iff in B2.
  unfold Qdiv. change (/ 60) with (1 # 60). change (/ 3600) with (1 # 3600).
  split; lra.
Qed.

(** X23: the rational form of [toExifString], which [addExifMetadata]
    stores as GPS latitude and longitude, is [deg/1 min/1 sec/1], computed
    in double precision from the double [D] that holds the coordinate
    (below [2^31] in magnitude): degrees, minutes and seconds are not
    negative, minutes and seconds are at most 60, and
    [deg + min/60 + sec/3600] is at most [10^-13] above [|D|] and less than
    one second and [10^-13] below it.  The sign is dropped (a coordinate
    and its negation give the same string), so the hemisphere is only in
    the reference tag. *)
Theorem toExifString_degrees (d : Q) (isLatitude : bool) :
  Qabs d < 2147483648 ->
  exists (D : Q) (deg min sec : Z),
    IEEE.of_Q IEEE.binary64 d = IEEE.Finite D
    /\ toExifString d true isLatitude
       = (decimal deg ++ "/1 " ++ decimal min ++ "/1 " ++ decimal sec
          ++ "/1")%string
    /\ (0 <= deg)%Z /\ (0 <= min <= 60)%Z /\ (0 <= sec <= 60)%Z
    /\ inject_Z deg + inject_Z min / 60 + inject_Z sec / 3600
       - (1 # 10000000000000) <= Qabs D
    /\ Qabs D < inject_Z deg + inject_Z min / 60 + inject_Z sec / 3600
                + (1 # 3600) + (1 # 10000000000000)
    /\ toExifString (- d) true isLatitude = toExifString d true isLatitude.
Proof.
  intros Hd. destruct (exifDegrees_spec d Hd) as (D & ED & H).
  assert (Hbig : 2147483648 <= 2 ^ 1023) by (vm_compute; discriminate).
  unfold toExifString. rewrite exifDegrees_opp by lra.
  destruct (exifDegrees d) as [[deg min] sec].
  exists D, deg, min, sec. split; [exact ED|]. split; [reflexivity|].
  cbv zeta in H. destruct H as (H1 & H2 & H3 & H4 & H5).
  repeat split; try assumption; lia.
Qed.

Lemma toExifString_degrees_witness :
  Qabs (-33.8675) < 2147483648
  /\ toExifString (-33.8675) true true = "33/1 52/1 2/1"%string
  /\ toExifString 0.3 true true = "0/1 18/1 0/1"%string
  /\ exists (D : Q) (deg min sec : Z),
       IEEE.of_Q IEEE.binary64 (-33.8675) = IEEE.Finite D
       /\ toExifString (-33.8675) true true
          = (decimal deg ++ "/1 " ++ decimal min ++ "/1 " ++ decimal sec
             ++ "/1")%string
       /\ (0 <= deg)%Z /\ (0 <= min <= 60)%Z /\ (0 <= sec <= 60)%Z
       /\ inject_Z deg + inject_Z min / 60 + inject_Z sec / 3600
          - (1 # 10000000000000) <= Qabs D
       /\ Qabs D < inject_Z deg + inject_Z min / 60 + inject_Z sec / 3600
                   + (1 # 3600) + (1 # 10000000000000)
       /\ toExifString (- (-33.8675)) true true
          = toExifString (-33.8675) true true.
Proof.
  assert (H : Qabs (-33.8675) < 2147483648) by (vm_compute; reflexivity).
  split; [exact H|]. split; [vm_compute; reflexivity|].
  split; [vm_compute; reflexivity|].
  exact (toExifString_degrees (-33.8675) true H).
Defined.

(** X24: [addExifMetadata] stores under [Exif.Image.Orientation] a code
    between 1 and 8 that determines both the screen orientation of the frame
    and whether the image is flipped: no two combinations share a code. *)
Theorem addExifMetadata_orientation (metadata : RawImageMetadata)
  (thumbnail : option (Image Z)) (cameraMetadata : RawCameraMetadata)
  (focalLengths : list Q) (settings : ExifSettings) :
  let code := exifOrientation (screenOrientation metadata) (flipped settings) in
  exifTag (addExifMetadata metadata thumbnail cameraMetadata focalLengths
             settings) "Exif.Image.Orientation"
  = Some (Exif_uint16 code)
  /\ (1 <= code <= 8)%Z
  /\ forall (orientation : ScreenOrientation) (mirrored : bool),
       exifOrientation orientation mirrored = code ->
       orientation = screenOrientation metadata /\ mirrored = flipped settings.
Proof.
  intros code. split; [|split].
  - unfold addExifMetadata, exifTag.
    destruct (apertures cameraMetadata), focalLengths,
      (negb (String.eqb (gpsTime settings) EmptyString)), thumbnail;
      reflexivity.
  - unfold code. destruct (screenOrientation metadata), (flipped settings);
      simpl; lia.
  - intros orientation mirrored. unfold code.
    destruct orientation, mirrored, (screenOrientation metadata),
      (flipped settings); simpl; intros H; try discriminate; split; reflexivity.
Qed.

(** ** JSON helpers *)

(** X25: [toMat3x3] reads back what [toJsonArray] writes for a 3x3 matrix,
    and ignores any items after the ninth; an array of fewer than nine items
    gives the empty matrix. *)
Theorem toMat3x3_toJsonArray (m : Mat) (more : list Json) :
  List.length m = 3%nat ->
  Forall (fun row => List.length row = 3%nat) m ->
  toMat3x3 (toJsonArray m) = m
  /\ toMat3x3 (toJsonArray m ++ more) = m
  /\ forall array : list Json,
       (List.length array < 9)%nat -> Mat_empty (toMat3x3 array) = true.
Proof.
  intros Hrows Hcols.
  destruct m as [|r0 [|r1 [|r2 [|r3 m]]]]; try discriminate Hrows.
  inversion Hcols as [|? ? H0 Hc1]; subst.
  inversion Hc1 as [|? ? H1 Hc2]; subst.
  inversion Hc2 as [|? ? H2 _]; subst.
  destruct r0 as [|a0 [|a1 [|a2 [|? ?]]]]; try discriminate H0.
  destruct r1 as [|b0 [|b1 [|b2 [|? ?]]]]; try discriminate H1.
  destruct r2 as [|c0 [|c1 [|c2 [|? ?]]]]; try discriminate H2.
  split; [reflexivity|]. split; [reflexivity|].
  intros array Hlen. unfold toMat3x3.
  destruct (Nat.ltb_spec (List.length array) 9) as [_|Hge]; [reflexivity | lia].
Qed.

Lemma toMat3x3_toJsonArray_witness :
  List.length Mat_eye3 = 3%nat
  /\ Forall (fun row => List.length row = 3%nat) Mat_eye3
  /\ toMat3x3 (toJsonArray Mat_eye3) = Mat_eye3
  /\ toMat3x3 (toJsonArray Mat_eye3 ++ [Json_null]) = Mat_eye3.
Proof.
  assert (Hrows : List.length Mat_eye3 = 3%nat) by reflexivity.
  assert (Hcols : Forall (fun row => List.length row = 3%nat) Mat_eye3)
    by (repeat constructor).
  split; [exact Hrows|]. split; [exact Hcols|].
  destruct (toMat3x3_toJsonArray Mat_eye3 [Json_null] Hrows Hcols)
    as (H1 & H2 & _).
  split; assumption.
Defined.

(** X26: the required and the optional accessors of a setting agree: when
    [GetRequiredSettingAsInt] (or [...AsString]) returns a value, the
    optional accessor returns the same value whatever the default, and when
    it throws, which it does with [InvalidState] exactly when the key is
    absent or holds a value of another type, the optional accessor returns
    the default. *)
Theorem GetRequiredSetting_agrees (json : Json) (key : string) :
  (forall defaultValue : Z,
     match GetRequiredSettingAsInt json key with
     | Returned v => GetOptionalSetting_int json key defaultValue = v
     | Raised e =>
         e = InvalidState ("Invalid metadata. Missing " ++ key)
         /\ GetOptionalSetting_int json key defaultValue = defaultValue
         /\ (object_find json key = None
             \/ is_number (Json_at json key) = false)
     | Undefined => False
     end)
  /\ (forall defaultValue : string,
        match GetRequiredSettingAsString json key with
        | Returned v => GetOptionalStringSetting json key defaultValue = v
        | Raised e =>
            e = InvalidState ("Invalid metadata. Missing " ++ key)
            /\ GetOptionalStringSetting json key defaultValue = defaultValue
            /\ (object_find json key = None
                \/ is_string (Json_at json key) = false)
        | Undefined => False
        end).
Proof.
  unfold GetRequiredSettingAsInt, GetRequiredSettingAsString,
    GetOptionalSetting_int, GetOptionalStringSetting, is_absent.
  split; intros defaultValue.
  - destruct (object_find json key) as [v|] eqn:E; simpl.
    + destruct (is_number (Json_at json key)) eqn:En; simpl.
      * reflexivity.
      * repeat split. now right.
    + repeat split. now left.
  - destruct (object_find json key) as [v|] eqn:E; simpl.
    + destruct (is_string (Json_at json key)) eqn:En; simpl.
      * reflexivity.
      * repeat split. now right.
    + repeat split. now left.
Qed.

(** ** The progress reports of [process] *)

Lemma percents_app (t1 t2 : Trace) :
  percents (t1 ++ t2) = percents t1 ++ percents t2.
Proof. unfold percents. apply flat_map_app. Qed.

Lemma percents_cons_progress (p : Z) (t : Trace) :
  percents (onProgressUpdate p :: t) = p :: percents t.
Proof. reflexivity. Qed.

Lemma percents_file_written (result : Outcome bool) (e : Event) (t : Trace)
  (u : unit) :
  file_written result e = (t, Returned u) ->
  match e with onProgressUpdate _ => False | _ => True end ->
  percents t = [].
Proof.
  destruct result as [[|]|x|]; cbn; intros H He; try discriminate;
    injection H as <-; [|reflexivity].
  destruct e; try reflexivity; contradiction.
Qed.

Lemma percents_cons_other (e : Event) (t : Trace) :
  match e with onProgressUpdate _ => False | _ => True end ->
  percents (e :: t) = percents t.
Proof. destruct e; intros H; try reflexivity; contradiction. Qed.

Lemma percents_progress {A : Type} (f : A -> Z) (l : list A) :
  percents (map (fun k => onProgressUpdate (f k)) l) = map f l.
Proof.
  induction l as [|k l IH]; [reflexivity|].
  cbn [map]. change (percents (onProgressUpdate (f k) :: map (fun k0 => onProgressUpdate (f k0)) l))
    with (f k :: percents (map (fun k0 => onProgressUpdate (f k0)) l)).
  rewrite IH. reflexivity.
Qed.

(** A bind that returned, when its first part is quiet. *)
Lemma bind_quiet_inv {A B : Type} (m : M A) (k : A -> M B) (t : Trace) (b : B) :
  quiet m -> bind m k = (t, Returned b) ->
  exists a, m = ([], Returned a) /\ k a = (t, Returned b).
Proof.
  intros Hq H. apply bind_returned_inv in H.
  destruct H as (t1 & a & t2 & Hm & Hk & ->).
  unfold quiet in Hq. rewrite Hm in Hq. cbn [fst] in Hq. subst t1.
  exists a. split; assumption.
Qed.

Lemma fuseFrames_returned_loads {L : Libm} {C : Config} {K : Kernels}
  (rawContainer : RawContainer) (reference : RawData) (method : FuseMethod)
  (thresholdBuffer : list Q) (patchSize : Z) (names : list string) :
  forall st t st',
    fuseFrames rawContainer reference method thresholdBuffer patchSize st names
    = (t, Returned st') ->
    forall name, In name names -> loadFrame rawContainer name <> None.
Proof.
  induction names as [|name rest IH]; intros st t st' H n Hn; [destruct Hn|].
  simpl in H. apply bind_returned_inv in H.
  destruct H as (t1 & st1 & t2 & Hstep & Hrest & _).
  destruct Hn as [<-|Hn].
  - intros Hnone. unfold fuseFrame in Hstep. destruct st as [acc p].
    rewrite Hnone in Hstep. discriminate Hstep.
  - eapply IH; eassumption.
Qed.

Lemma denoise_percents {L : Libm} {C : Config} {K : Kernels}
  (referenceRawBuffer : RawImageBuffer) (reference : RawData)
  (rawContainer : RawContainer) (t : Trace) (out : list (Image Z) * Q) :
  let n := List.length (getFrames rawContainer) in
  (Z.of_nat n < 2 ^ 31)%Z ->
  denoise referenceRawBuffer reference rawContainer
    (newImageProgressHelper (Z.of_nat n) 0) = (t, Returned out) ->
  percents t = fusionPercents n.
Proof.
  intros n Hn H. unfold denoise in H. cbv zeta in H.
  apply bind_quiet_inv in H; [|quieten]. destruct H as (ev & _ & H).
  apply bind_returned_inv in H.
  destruct H as (t1 & st & t2 & Hfuse & H & ->).
  apply bind_quiet_inv in H; [|quieten]. destruct H as (weights & _ & H).
  apply bind_quiet_inv in H; [|quieten]. destruct H as (buffer & _ & H).
  apply bind_quiet_inv in H; [|quieten]. destruct H as (planes & _ & H).
  apply bind_quiet_inv in H; [|quieten]. destruct H as (noise & _ & H).
  unfold ret in H. injection H as <-. rewrite app_nil_r.
  pose proof (fuseFrames_returned_loads _ _ _ _ _ _ _ _ _ Hfuse) as Hload.
  match type of Hfuse with
  | fuseFrames ?c ?r ?m ?th ?ps (?acc, _) ?names = _ =>
      destruct (fuseFrames_fresh c r m th ps acc names Hload Hn) as (st' & E)
  end.
  fold n in E. rewrite E in Hfuse. injection Hfuse as <- _.
  rewrite (percents_progress (fun r => r)). apply map_id.
Qed.

Lemma processFusion_percents {L : Libm} {C : Config} {K : Kernels}
  (rawContainer : RawContainer) (underexposedImages : list RawImageBuffer)
  (referenceFrame : string) (referenceRawBuffer : RawImageBuffer)
  (outputPath : string) (t : Trace) (fused : Fused) :
  let n := List.length (getFrames (removeFrame rawContainer referenceFrame)) in
  (Z.of_nat n < 2 ^ 31)%Z ->
  processFusion rawContainer underexposedImages referenceFrame
    referenceRawBuffer outputPath = (t, Returned fused) ->
  percents t = fusionPercents n ++ [75%Z]
  /\ mStart (fusedProgress fused) = 0%Z.
Proof.
  intros n Hn H. unfold processFusion in H. cbv zeta in H.
  apply bind_quiet_inv in H; [|quieten]. destruct H as (settings & _ & H).
  apply bind_quiet_inv in H; [|quieten]. destruct H as (preview & _ & H).
  destruct (GetBasePath outputPath) as [basePath filename].
  apply bind_returned_inv in H. destruct H as (tw & u & tr & Hw & H & ->).
  apply percents_file_written in Hw; [|exact I].
  rewrite percents_app, Hw. cbn [app].
  rewrite emit_bind in H. cbn [fst snd] in H.
  match type of H with
  | (_ :: fst ?m, snd ?m) = _ => destruct m as [t' r] eqn:E
  end.
  cbn [fst snd] in H. injection H as <- ->.
  apply bind_quiet_inv in E;
    [|destruct underexposedImages; quieten]. destruct E as (hdr & _ & E).
  apply bind_returned_inv in E.
  destruct E as (t1 & out & t2 & Hden & E & ->).
  apply denoise_percents in Hden; [|exact Hn]. fold n in Hden.
  unfold denoiseCompleted in E. rewrite emit_bind in E.
  cbn [fst snd ret] in E. injection E as <- <-.
  cbn [fusedProgress newImageProgressHelper mStart].
  split; [|reflexivity].
  rewrite !percents_cons_other by exact I.
  rewrite percents_app, Hden. reflexivity.
Qed.

Lemma processDng_percents {C : Config} {K : Kernels}
  (rawContainer : RawContainer) (referenceRawBuffer : RawImageBuffer)
  (denoiseOutput : list (Image Z)) (outputPath : string) :
  percents (fst (processDng rawContainer referenceRawBuffer denoiseOutput
                   outputPath)) = [].
Proof.
  unfold processDng. cbv zeta.
  destruct (dng (getPostProcessSettings rawContainer)); [|reflexivity].
  match goal with
  | |- context [BuildRawImage ?c ?x ?y] =>
      pose proof (quiet_BuildRawImage c x y) as Hq;
      destruct (BuildRawImage c x y) as [tb [img|e|]]
  end; unfold quiet in Hq; cbn [fst] in Hq; subst tb; try reflexivity.
  change (@nil Event, Returned img) with (ret img).
  rewrite bind_ret_l. unfold WriteDng.
  destruct (Num.at_index (apertures (getCameraMetadata rawContainer)) 0);
    [|reflexivity].
  cbn [deref]. rewrite bind_ret_l.
  destruct (dng_sdk_write (dngFileName outputPath) img); reflexivity.
Qed.

Lemma processOutput_percents {C : Config} {K : Kernels}
  (rawContainer : RawContainer) (referenceRawBuffer : RawImageBuffer)
  (fused : Fused) (outputPath : string) (t : Trace) :
  mStart (fusedProgress fused) = 0%Z ->
  processOutput rawContainer referenceRawBuffer fused outputPath
  = (t, Returned tt) ->
  percents t = [95; 100]%Z.
Proof.
  intros Hstart H. unfold processOutput in H. cbv zeta in H.
  apply bind_quiet_inv in H; [|quieten]. destruct H as (image & _ & H).
  unfold postProcessCompleted, imageSaved in H. rewrite Hstart in H.
  rewrite emit_bind in H.
  match type of H with
  | (_ :: fst ?m, snd ?m) = _ => destruct m as [t' r] eqn:E
  end.
  cbn [fst snd] in H. injection H as <- ->.
  apply bind_returned_inv in E. destruct E as (tw & u & tr & Hw & E & ->).
  apply percents_file_written in Hw; [|exact I].
  apply bind_quiet_inv in E; [|quieten]. destruct E as (height & _ & E).
  apply bind_quiet_inv in E; [|quieten]. destruct E as (thumbnail & _ & E).
  apply bind_returned_inv in E. destruct E as (tx & u' & ts & Hx & E & ->).
  apply percents_file_written in Hx; [|exact I].
  rewrite !emit_bind in E. cbn [fst snd emit] in E. injection E as <-.
  rewrite percents_cons_progress, !percents_app, Hw, Hx. reflexivity.
Qed.

Lemma progress_sorted (reports : list Z) :
  StronglySorted Z.le reports ->
  Forall (fun r => (0 <= r <= 75)%Z) reports ->
  Sorted Z.le (0%Z :: reports ++ [75; 95; 100]%Z).
Proof.
  intros Hsorted Hrange. apply StronglySorted_Sorted.
  assert (Htail : StronglySorted Z.le (reports ++ [75; 95; 100]%Z)).
  { induction Hsorted as [|r rest Hrest IH Hr]; cbn [app].
    - repeat first [constructor | lia].
    - constructor; [apply IH; now inversion Hrange|].
      apply Forall_app. split; [exact Hr|].
      inversion Hrange; subst. repeat first [constructor | lia]. }
  constructor; [exact Htail|].
  apply Forall_app. split.
  - eapply Forall_impl; [|exact Hrange]. intros r Hr. cbv beta in Hr. lia.
  - repeat first [constructor | lia].
Qed.

(** X27: a run of [process] that returns reports progress in one of two
    ways: only the initial 0 (when it ended on one of the two errors it
    reports), or 0, then one percentage after each of the [n] fused frames,
    then 75, 95 and 100.  The fused frames are the frames left once the
    underexposed frames and the reference frame are taken out of the
    capture ([n] fits an [int]).  The percentage is computed in double
    precision and truncated: after the [k]-th fused frame it is
    [75 * k / n] rounded down, or one less than that where [n] divides
    [75 * k].  The percentages never decrease. *)
Theorem process_progress {L : Libm} {C : Config} {K : Kernels}
  (rawContainer : RawContainer) (outputPath : string) (t : Trace)
  (st : RawContainer * list RawImageBuffer) :
  process rawContainer outputPath = (t, Returned tt) ->
  snd (removeUnderexposed rawContainer) = Returned st ->
  let n := List.length (fusedFrames (fst st)) in
  (Z.of_nat n < 2 ^ 31)%Z ->
  Sorted Z.le (percents t)
  /\ (percents t = [0%Z]
      \/ exists reports : list Z,
           percents t = 0%Z :: reports ++ [75; 95; 100]%Z
           /\ List.length reports = n
           /\ forall k : nat,
                (1 <= k <= n)%nat ->
                let q := (75 * Z.of_nat k / Z.of_nat n)%Z in
                let r := nth (k - 1) reports 0%Z in
                (q - 1 <= r <= q)%Z
                /\ (((75 * Z.of_nat k) mod Z.of_nat n)%Z <> 0%Z -> r = q)).
Proof.
  intros H Hst n Hn.
  destruct (fusionPercents_spec n Hn) as (Hlen & Hk & Hsorted & Hrange).
  assert (Hshape : percents t = [0%Z]
                   \/ percents t
                      = 0%Z :: fusionPercents n ++ [75; 95; 100]%Z).
  { unfold process in H. rewrite emit_bind in H.
    match type of H with
    | (_ :: fst ?m, snd ?m) = _ => destruct m as [t' r] eqn:E
    end.
    cbn [fst snd] in H. injection H as <- ->.
    apply bind_quiet_inv in E; [|quieten]. destruct E as (st0 & Hst0 & E).
    rewrite Hst0 in Hst. cbn [snd] in Hst. injection Hst as ->.
    cbv zeta in E. unfold fusedFrames in n.
    destruct (getFrames (fst st)) as [|first rest] eqn:Hframes.
    { cbn [Num.is_empty] in E.
      rewrite emit_bind in E. cbn [fst snd emit] in E. injection E as <-.
      now left. }
    cbn [Num.is_empty Num.at_index nth_error deref] in E.
    rewrite bind_ret_l in E.
    destruct (loadFrame (fst st) first) as [referenceRawBuffer|].
    2:{ rewrite emit_bind in E. cbn [fst snd emit] in E. injection E as <-.
        now left. }
    apply bind_returned_inv in E.
    destruct E as (t1 & fused & t2 & Hfusion & E & ->).
    apply processFusion_percents in Hfusion; [|exact Hn].
    destruct Hfusion as [Hp1 Hstart].
    apply bind_returned_inv in E.
    destruct E as (t3 & u & t4 & Hdng & Hout & ->).
    pose proof (processDng_percents (removeFrame (fst st) first)
                  referenceRawBuffer (fusedOutput fused) outputPath) as Hp3.
    rewrite Hdng in Hp3. cbn [fst] in Hp3.
    apply (processOutput_percents _ _ _ _ _ Hstart) in Hout.
    right.
    rewrite percents_cons_progress, !percents_app, Hp1, Hp3, Hout.
    cbn [app]. rewrite <- app_assoc. reflexivity. }
  split.
  - destruct Hshape as [->| ->].
    + repeat constructor.
    + apply progress_sorted; assumption.
  - destruct Hshape as [E|E]; [now left|]. right.
    exists (fusionPercents n). split; [exact E|]. split; [exact Hlen|exact Hk].
Qed.

Lemma process_progress_witness :
  let c :=
    sampleBurst (sampleSettings 1 0 true) (1, 1, 1)
      [("f0"%string, Some []); ("f1"%string, Some []);
       ("f2"%string, Some []); ("f3"%string, Some [])] in
  exists t : Trace,
    process (L:=sampleLibm) (C:=sampleConfig) (K:=sampleKernelsDng dng_ok) c
      "/sdcard/out.jpg"
    = (t, Returned tt)
    /\ snd (removeUnderexposed (L:=sampleLibm) c) = Returned (c, [])
    /\ List.length (fusedFrames c) = 3%nat
    /\ percents t = [0; 25; 50; 75; 75; 95; 100]%Z
    /\ Sorted Z.le (percents t).
Proof.
  intros c.
  destruct (process (L:=sampleLibm) (C:=sampleConfig)
              (K:=sampleKernelsDng dng_ok) c "/sdcard/out.jpg")
    as [t [[]|e|]] eqn:E.
  - assert (Hst : snd (removeUnderexposed (L:=sampleLibm) c) = Returned (c, []))
      by (vm_compute; reflexivity).
    exists t. split; [reflexivity|]. split; [exact Hst|].
    split; [reflexivity|]. split.
    + vm_compute in E. injection E as <-. reflexivity.
    + exact (proj1 (process_progress c "/sdcard/out.jpg" t (c, []) E Hst
                      ltac:(vm_compute; reflexivity))).
  - exfalso. vm_compute in E. discriminate.
  - exfalso. vm_compute in E. discriminate.
Defined.

(** ** The planes [denoise] returns *)

Lemma denoiseChannels_returned {C : Config} {K : Kernels} (input : Buffer Z)
  (wavelet : list (Z * Z)) (weights : list Q) (channels : list Z) :
  forall (t : Trace) (out : list (Image Z) * list Q),
    denoiseChannels input wavelet weights channels = (t, Returned out) ->
    List.length (fst out) = List.length channels
    /\ List.length (snd out) = List.length channels
    /\ Forall (fun p => rows p = buf_height input /\ cols p = buf_width input)
         (fst out)
    /\ (channels <> [] -> (4 <= List.length wavelet)%nat).
Proof.
  induction channels as [|c rest IH]; intros t out H.
  - simpl in H. unfold ret in H. injection H as _ <-.
    repeat split; [constructor | intros Hne; contradiction].
  - simpl in H. apply bind_returned_inv in H.
    destruct H as (t1 & r & t2 & Hchannel & H & _).
    apply bind_returned_inv in H.
    destruct H as (t3 & rs & t4 & Hrest & H & _).
    unfold ret in H. injection H as _ Hout. subst out.
    cbn [fst snd List.length].
    destruct (IH _ _ Hrest) as (Hl1 & Hl2 & Hshape & _).
    unfold denoiseChannel in Hchannel.
    destruct wavelet as [|w0 [|w1 [|w2 [|w3 more]]]];
      try (cbn [Num.at_index nth_error deref] in Hchannel;
           rewrite ?bind_ret_l in Hchannel; discriminate Hchannel).
    cbn [Num.at_index nth_error deref] in Hchannel.
    rewrite !bind_ret_l in Hchannel. cbv zeta in Hchannel.
    apply bind_returned_inv in Hchannel.
    destruct Hchannel as (t5 & band0 & t6 & _ & Hplane & _).
    unfold ret in Hplane. injection Hplane as _ Hr. subst r.
    cbn [fst snd rows cols]. repeat split; try (f_equal; assumption).
    + constructor; [split; reflexivity | exact Hshape].
    + intros _. simpl. lia.
Qed.

(** X28: whenever the [denoise] overload that [process] calls returns, it
    returns exactly four planes, one per Bayer channel, each of the size of
    the reference planes it was given; it can only return when
    [WAVELET_LEVELS] is at least 4, because it indexes four wavelet
    buffers. *)
Theorem denoise_planes {L : Libm} {C : Config} {K : Kernels}
  (referenceRawBuffer : RawImageBuffer) (reference : RawData)
  (rawContainer : RawContainer) (progressHelper : ImageProgressHelper)
  (t : Trace) (planes : list (Image Z)) (noise : Q) :
  denoise referenceRawBuffer reference rawContainer progressHelper
  = (t, Returned (planes, noise)) ->
  List.length planes = 4%nat
  /\ Forall (fun p => rows p = buf_height (rawBuffer reference)
                      /\ cols p = buf_width (rawBuffer reference)) planes
  /\ (4 <= WAVELET_LEVELS)%nat.
Proof.
  intros H. unfold denoise in H. cbv zeta in H.
  apply bind_returned_inv in H. destruct H as (t1 & ev & t2 & _ & H & _).
  apply bind_returned_inv in H. destruct H as (t3 & st & t4 & _ & H & _).
  apply bind_returned_inv in H. destruct H as (t5 & weights & t6 & _ & H & _).
  apply bind_returned_inv in H. destruct H as (t5' & buffer & t6' & _ & H & _).
  apply bind_returned_inv in H. destruct H as (t7 & out & t8 & Hout & H & _).
  apply bind_returned_inv in H. destruct H as (t9 & n & t10 & _ & H & _).
  unfold ret in H. injection H as _ Hp _. subst planes.
  apply denoiseChannels_returned in Hout.
  destruct Hout as (Hl & _ & Hshape & Hlevels).
  assert (Hdims : forall frames acc bl wl,
             buf_height (denoiseInput frames (rawBuffer reference) acc bl wl)
             = buf_height (rawBuffer reference)
             /\ buf_width (denoiseInput frames (rawBuffer reference) acc bl wl)
                = buf_width (rawBuffer reference)).
  { intros. unfold denoiseInput.
    destruct (List.length frames <=? 1)%nat; split; reflexivity. }
  split; [exact Hl|]. split.
  - eapply Forall_impl; [|exact Hshape]. intros p [Hr Hc].
    rewrite Hr, Hc. apply Hdims.
  - unfold createWaveletBuffers in Hlevels.
    rewrite createWaveletBuffers_from_length in Hlevels.
    apply Hlevels. discriminate.
Qed.

Lemma denoise_planes_witness :
  let c :=
    sampleBurst (sampleSettings 1 0 false) (1, 1, 1)
      [("f1"%string, Some []); ("f2"%string, Some [])] in
  let reference :=
    loadRawImage (C:=sampleConfig) (K:=sampleKernelsDng dng_ok)
      (sampleRawImage (sampleMetadata 10000000 100 (1, 1, 1)) 8)
      (sampleCamera [1.8]) true 1 in
  exists (t : Trace) (planes : list (Image Z)) (noise : Q),
    denoise (L:=sampleLibm) (C:=sampleConfig) (K:=sampleKernelsDng dng_ok)
      (sampleRawImage (sampleMetadata 10000000 100 (1, 1, 1)) 8) reference c
      (newImageProgressHelper 2 0)
    = (t, Returned (planes, noise))
    /\ List.length planes = 4%nat
    /\ Forall (fun p => rows p = buf_height (rawBuffer reference)
                        /\ cols p = buf_width (rawBuffer reference)) planes
    /\ (4 <= @WAVELET_LEVELS sampleConfig)%nat.
Proof.
  intros c reference.
  destruct (denoise (L:=sampleLibm) (C:=sampleConfig)
              (K:=sampleKernelsDng dng_ok)
              (sampleRawImage (sampleMetadata 10000000 100 (1, 1, 1)) 8)
              reference c (newImageProgressHelper 2 0))
    as [t [[planes noise]|e|]] eqn:E.
  - exists t, planes, noise. split; [reflexivity|].
    exact (denoise_planes _ _ _ _ _ _ _ E).
  - exfalso. vm_compute in E. discriminate.
  - exfalso. vm_compute in E. discriminate.
Defined.
